(** * Stripe webhooks -> GoHighLevel contact upsert: a shallow embedding

    The development follows the repository's webhook pipeline:

    - [src/unnamed/part_003] (second document): the tag-merging variant of
      [webhooks.js] ([TAGS], [ghlV1GetContactByEmail], [ghlV1UpsertContact],
      [convertKitSubscribe], [splitName], [registerStripeWebhooks]);
    - [src/webhooks.js] (second document): the earlier variant whose
      [ghlV1UpsertContact] posts the new tags without reading the contact;
    - [src/server.js] (second document): [resolveV1StageIdByName] and its
      module-level [_stageIdCache], its caller
      [upsertGhlContactAndTrialOpp] and the route handler around it;
    - [src/webhooks.js] (second document): the route handler of the earlier
      variant;
    - [src/server.js] (first document): the unwrapping of a fenced answer
      in the generation routes.

    JavaScript strings are modelled by Rocq strings, one character per
    UTF-16 code unit, restricted to code units below 256.  Asynchronous
    code is a program tree over the outbound calls it awaits; a world
    answers the calls and the interpreter records them in order. *)

From Stdlib Require Import String Ascii List ZArith Bool Lia.
From stdpp Require Import gmap strings.
Import ListNotations.

Local Open Scope Z_scope.

(** ** JavaScript strings *)

Module JsString.

(** Code units that [String.prototype.trim] strips and that the regular
    expression class [\s] matches, among the code units below 256:
    TAB, LF, VT, FF, CR, SPACE and NO-BREAK SPACE. *)
Definition isWhiteSpace (c : ascii) : bool :=
  let n := nat_of_ascii c in
  ((9 <=? n)%nat && (n <=? 13)%nat) || (n =? 32)%nat || (n =? 160)%nat.

Definition isEmpty (s : string) : bool :=
  match s with EmptyString => true | String _ _ => false end.

(** [Boolean(s)] for a string. *)
Definition truthy (s : string) : bool := negb (isEmpty s).

Fixpoint trimStart (s : string) : string :=
  match s with
  | EmptyString => EmptyString
  | String c r => if isWhiteSpace c then trimStart r else s
  end.

Fixpoint trimEnd (s : string) : string :=
  match s with
  | EmptyString => EmptyString
  | String c r =>
      let r' := trimEnd r in
      if isWhiteSpace c && isEmpty r' then EmptyString else String c r'
  end.

(** [s.trim()] *)
Definition trim (s : string) : string := trimEnd (trimStart s).

(** [s.split(/\s+/)]: the pieces between maximal runs of white space; a
    leading or trailing run leaves an empty piece, and the empty string
    splits into one empty piece. *)
Fixpoint split_ws_from (in_run : bool) (cur : string) (s : string) : list string :=
  match s with
  | EmptyString => [cur]
  | String c r =>
      if isWhiteSpace c
      then (if in_run then split_ws_from true cur r
            else cur :: split_ws_from true EmptyString r)
      else split_ws_from false (cur +:+ String c EmptyString) r
  end.

Definition split_ws (s : string) : list string := split_ws_from false EmptyString s.

(** [s.split(",")] for a one-character separator. *)
Fixpoint split_on_from (sep : ascii) (cur : string) (s : string) : list string :=
  match s with
  | EmptyString => [cur]
  | String c r =>
      if Ascii.eqb c sep
      then cur :: split_on_from sep EmptyString r
      else split_on_from sep (cur +:+ String c EmptyString) r
  end.

Definition split_on (sep : ascii) (s : string) : list string :=
  split_on_from sep EmptyString s.

(** [parts.join(sep)] on an array of strings. *)
Fixpoint join (sep : string) (parts : list string) : string :=
  match parts with
  | [] => EmptyString
  | [p] => p
  | p :: rest => p +:+ sep +:+ join sep rest
  end.

(** [toLowerCase] on code units below 256: A-Z, and U+00C0..U+00DE except
    the multiplication sign U+00D7, move up by 32. *)
Definition lowerChar (c : ascii) : ascii :=
  let n := nat_of_ascii c in
  if ((65 <=? n)%nat && (n <=? 90)%nat)
     || ((192 <=? n)%nat && (n <=? 222)%nat && negb (n =? 215)%nat)
  then ascii_of_nat (n + 32) else c.

Fixpoint toLowerCase (s : string) : string :=
  match s with
  | EmptyString => EmptyString
  | String c r => String (lowerChar c) (toLowerCase r)
  end.

(** [arr.filter(Boolean)] on an array of strings. *)
Definition filterBoolean (l : list string) : list string := List.filter truthy l.

(** [Array.from(new Set(l))]: a [Set] keeps the first occurrence of each
    value, in insertion order. *)
Fixpoint uniq_from (seen : list string) (l : list string) : list string :=
  match l with
  | [] => []
  | x :: r =>
      if bool_decide (x ∈ seen) then uniq_from seen r
      else x :: uniq_from (x :: seen) r
  end.

Definition arrayFromSet (l : list string) : list string := uniq_from [] l.

End JsString.

(** ** JavaScript values and exceptions *)

(** What a [catch] clause receives: the error's class and its message. *)
Inductive exn : Type :=
| TypeError (message : string)
| RangeError (message : string)
| Error (message : string)
| SyntaxError (message : string)
| FetchError (message : string)
| StripeError (message : string).

#[local] Set Warnings "-register-all".

(** Values as [JSON.parse] builds them, with [undefined] for what a
    property access on a missing key gives.  A number is kept as the text
    [String(n)] renders: the modelled code never computes with one, it only
    tests, prints and compares them.  An object lists each own key once. *)
Inductive jsval : Type :=
| JUndefined
| JNull
| JBool (b : bool)
| JNum (repr : string)
| JStr (s : string)
| JArr (items : list jsval)
| JObj (fields : list (string * jsval)).

Definition exn_message (e : exn) : string :=
  match e with
  | TypeError m | RangeError m | Error m | SyntaxError m
  | FetchError m | StripeError m => m
  end.

Module Js.

(** [Boolean(v)] *)
Definition truthy (v : jsval) : bool :=
  match v with
  | JUndefined | JNull => false
  | JBool b => b
  | JNum repr => negb (String.eqb repr "0")
  | JStr s => JsString.truthy s
  | JArr _ | JObj _ => true
  end.

(** [a || b] *)
Definition or (a b : jsval) : jsval := if truthy a then a else b.

Fixpoint assoc (key : string) (fields : list (string * jsval)) : jsval :=
  match fields with
  | [] => JUndefined
  | (k, v) :: rest => if String.eqb key k then v else assoc key rest
  end.

(** [v?.key], for the keys the code reads (none of them is a built-in
    property of a string, a number or an array). *)
Definition opt (v : jsval) (key : string) : jsval :=
  match v with
  | JObj fields => assoc key fields
  | _ => JUndefined
  end.

(** [v.key]: as [v?.key], but [null] and [undefined] have no properties. *)
Definition prop (v : jsval) (key : string) : exn + jsval :=
  match v with
  | JUndefined | JNull =>
      inl (TypeError ("Cannot read properties of null or undefined (reading '" +:+ key +:+ "')"))
  | _ => inr (opt v key)
  end.

Definition isArray (v : jsval) : bool :=
  match v with JArr _ => true | _ => false end.

(** [arr[0]] on an array. *)
Definition first (items : list jsval) : jsval :=
  match items with [] => JUndefined | x :: _ => x end.

(** [Object.hasOwn(o, key)] on a parsed object. *)
Fixpoint hasOwn (key : string) (fields : list (string * jsval)) : bool :=
  match fields with
  | [] => false
  | (k, _) :: rest => String.eqb key k || hasOwn key rest
  end.

(** [String(v)].  An array prints its elements separated by commas, with
    [null] and [undefined] elements printed empty.  A parsed object has no
    callable property of its own: without an own key [toString] it prints
    through [Object.prototype.toString]; with one, neither [toString] nor
    [valueOf] gives a primitive and the conversion throws. *)
Fixpoint toString (v : jsval) : exn + string :=
  match v with
  | JUndefined => inr "undefined"
  | JNull => inr "null"
  | JBool true => inr "true"
  | JBool false => inr "false"
  | JNum repr => inr repr
  | JStr s => inr s
  | JArr items =>
      match
        (fix each (l : list jsval) : exn + list string :=
           match l with
           | [] => inr []
           | x :: r =>
               match
                 match x with
                 | JUndefined | JNull => inr EmptyString
                 | _ => toString x
                 end
               with
               | inl e => inl e
               | inr printed =>
                   match each r with
                   | inl e => inl e
                   | inr rest => inr (printed :: rest)
                   end
               end
           end) items
      with
      | inl e => inl e
      | inr parts => inr (JsString.join "," parts)
      end
  | JObj fields =>
      if hasOwn "toString" fields
      then inl (TypeError "Cannot convert object to primitive value")
      else inr "[object Object]"
  end.

(** [a === b] against a string. *)
Definition strictEqStr (a : jsval) (b : string) : bool :=
  match a with JStr s => String.eqb s b | _ => false end.

End Js.

(** ** Dates *)

Module JsDate.

Fixpoint digits (width : nat) (n : Z) : string :=
  match width with
  | O => EmptyString
  | S w => digits w (n / 10) +:+ String (ascii_of_nat (48 + Z.to_nat (n mod 10))) EmptyString
  end.

(** Civil date of a day number counted from 1970-01-01, in the proleptic
    Gregorian calendar. *)
Definition civil (day : Z) : Z * Z * Z :=
  let z := day + 719468 in
  let era := z / 146097 in
  let doe := z - era * 146097 in
  let yoe := (doe - doe / 1460 + doe / 36524 - doe / 146096) / 365 in
  let doy := doe - (365 * yoe + yoe / 4 - yoe / 100) in
  let mp := (5 * doy + 2) / 153 in
  let d := doy - (153 * mp + 2) / 5 + 1 in
  let m := if mp <? 10 then mp + 3 else mp - 9 in
  let y := yoe + era * 400 + (if m <=? 2 then 1 else 0) in
  (y, m, d).

Definition maxTime : Z := 8640000000000000.

(** [new Date(t).toISOString()] for an integral time value [t] in
    milliseconds; a time value outside the range of [Date] is an invalid
    date, on which [toISOString] throws. *)
Definition toISOString (t : Z) : exn + string :=
  if (t <? - maxTime) || (maxTime <? t) then inl (RangeError "Invalid time value")
  else
    let day := t / 86400000 in
    let ms := t mod 86400000 in
    let '(y, m, d) := civil day in
    let year :=
      if (0 <=? y) && (y <=? 9999) then digits 4 y
      else (if y <? 0 then "-" else "+") +:+ digits 6 (Z.abs y) in
    inr (year +:+ "-" +:+ digits 2 m +:+ "-" +:+ digits 2 d +:+ "T"
         +:+ digits 2 (ms / 3600000) +:+ ":" +:+ digits 2 (ms / 60000 mod 60)
         +:+ ":" +:+ digits 2 (ms / 1000 mod 60) +:+ "." +:+ digits 3 (ms mod 1000) +:+ "Z").

End JsDate.

(** ** Outbound calls and asynchronous programs *)

(** The JSON body of a contact write: [{ email, firstName, lastName,
    phone, tags, customFields }].  A field left [undefined] is absent from
    the serialised body. *)
Module Payload.
Record t : Type := make {
  email : string;
  firstName : option string;
  lastName : option string;
  phone : option string;
  tags : list string;
  customFields : list (string * string)
}.
End Payload.

Inductive log_level : Type := LogInfo | LogWarn | LogError.

(** Every point where the code awaits the outside world.  A [fetch] is
    identified by its endpoint and by what the code puts into the URL,
    headers and body. *)
Inductive call : Type :=
| StripeCustomersRetrieve (customerId : string)
    (* stripe.customers.retrieve(customerId) *)
| GhlGetContacts (apiKey locationId query : string)
    (* GET  rest.gohighlevel.com/v1/contacts/?query=<email> *)
| GhlPostContacts (apiKey locationId : string) (payload : Payload.t)
    (* POST rest.gohighlevel.com/v1/contacts/ *)
| GhlPostContactsUpsert (apiKey locationId : string) (payload : Payload.t)
    (* POST rest.gohighlevel.com/v1/contacts/upsert *)
| ConvertKitFormSubscribe (formId api_key email first_name : string)
    (* POST api.convertkit.com/v3/forms/<formId>/subscribe *)
| ConvertKitTagSubscribe (tagId api_key email : string)
    (* POST api.convertkit.com/v3/tags/<tagId>/subscribe *)
| GhlGetOpportunities (apiKey locationId : string) (pipelineId : option string)
    (* GET  rest.gohighlevel.com/v1/opportunities/?[pipelineId=<id>&]limit=100 *)
| GhlGetPipeline (apiKey locationId pipelineId : string).
    (* GET  rest.gohighlevel.com/v1/pipelines/<id> *)

(** The body of a response, seen through [JSON.parse]: the value the text
    parses to, or the text itself when parsing throws. *)
Inductive body : Type :=
| JsonBody (json : jsval)
| TextBody (text : string).

(** An HTTP response as the code reads it. *)
Record response : Type := {
  res_status : Z;
  res_body : body
}.

(** [JSON.parse(text)], [None] when it throws. *)
Definition res_json (r : response) : option jsval :=
  match res_body r with JsonBody json => Some json | TextBody _ => None end.

(** [res.ok] *)
Definition res_ok (r : response) : bool :=
  (200 <=? res_status r) && (res_status r <=? 299).

(** What awaiting a [fetch] and the body of its response gives: the
    promise rejects (network failure), or a response arrives. *)
Inductive fetch_outcome : Type :=
| FetchRejects (message : string)
| FetchResponse (r : response).

(** The customer object of the billing provider, as far as it is read. *)
Record stripe_customer : Type := { cust_email : option string }.

Definition resp (c : call) : Type :=
  match c with
  | StripeCustomersRetrieve _ => (exn + stripe_customer)%type
  | _ => fetch_outcome
  end.

(** A contact write to the CRM. *)
Definition is_crm_write (c : call) : bool :=
  match c with
  | GhlPostContacts _ _ _ | GhlPostContactsUpsert _ _ _ => true
  | _ => false
  end.

(** Calls that change something outside: CRM writes and mailing-list
    subscriptions. *)
Definition is_write (c : call) : bool :=
  match c with
  | GhlPostContacts _ _ _ | GhlPostContactsUpsert _ _ _
  | ConvertKitFormSubscribe _ _ _ _ | ConvertKitTagSubscribe _ _ _ => true
  | _ => false
  end.

(** An asynchronous function body: it returns, throws, awaits a call and
    continues with the answer, or writes a line to the console (kept by
    its level and the leading text of the message). *)
Inductive prog (A : Type) : Type :=
| Ret (a : A)
| Throw (e : exn)
| Do (c : call) (k : resp c -> prog A)
| Log (level : log_level) (label : string) (k : prog A).

Arguments Ret {A} a.
Arguments Throw {A} e.
Arguments Do {A} c k.
Arguments Log {A} level label k.

Fixpoint bind {A B : Type} (p : prog A) (f : A -> prog B) : prog B :=
  match p with
  | Ret a => f a
  | Throw e => Throw e
  | Do c k => Do c (fun x => bind (k x) f)
  | Log level label k => Log level label (bind k f)
  end.

(** [try { p } catch (e) { h e }] *)
Fixpoint try_catch {A : Type} (p : prog A) (h : exn -> prog A) : prog A :=
  match p with
  | Ret a => Ret a
  | Throw e => h e
  | Do c k => Do c (fun x => try_catch (k x) h)
  | Log level label k => Log level label (try_catch k h)
  end.

Definition await (c : call) : prog (resp c) := Do c Ret.

Definition console (level : log_level) (label : string) : prog unit :=
  Log level label (Ret tt).

(** Lifting a computation that may throw. *)
Definition lift {A : Type} (r : exn + A) : prog A :=
  match r with inl e => Throw e | inr a => Ret a end.

Declare Scope prog_scope.
Delimit Scope prog_scope with prog.
Notation "x <- p ;; q" := (bind p (fun x => q))
  (at level 100, p at next level, right associativity) : prog_scope.
Notation "p ;; q" := (bind p (fun _ => q))
  (at level 100, right associativity) : prog_scope.

(** The outside world: a state and an answer to every call. *)
Record world : Type := {
  w_state : Type;
  w_respond : forall c : call, w_state -> resp c * w_state
}.

Inductive outcome (A : Type) : Type :=
| Returned (a : A)
| Threw (e : exn).

Arguments Returned {A} a.
Arguments Threw {A} e.

(** What a run leaves behind, in order. *)
Inductive item : Type :=
| Called (c : call)
| Logged (level : log_level) (label : string).

Record run_result (A : Type) (S : Type) : Type := {
  result : outcome A;
  trace : list item;
  final : S
}.

Arguments result {A S} _.
Arguments trace {A S} _.
Arguments final {A S} _.

(** Running a program against a world, recording the calls in order. *)
Fixpoint run {A : Type} (w : world) (p : prog A) (s : w_state w)
  : run_result A (w_state w) :=
  match p with
  | Ret a => {| result := Returned a; trace := []; final := s |}
  | Throw e => {| result := Threw e; trace := []; final := s |}
  | Do c k =>
      let '(x, s') := w_respond w c s in
      let r := run w (k x) s' in
      {| result := result r; trace := Called c :: trace r; final := final r |}
  | Log level label k =>
      let r := run w k s in
      {| result := result r; trace := Logged level label :: trace r; final := final r |}
  end.

(** The calls of a trace that leave the process. *)
Fixpoint external (tr : list item) : list call :=
  match tr with
  | [] => []
  | Called c :: rest => c :: external rest
  | Logged _ _ :: rest => external rest
  end.

(** The contact bodies written to the CRM, in order. *)
Fixpoint written (calls : list call) : list Payload.t :=
  match calls with
  | [] => []
  | GhlPostContacts _ _ p :: rest => p :: written rest
  | GhlPostContactsUpsert _ _ p :: rest => p :: written rest
  | _ :: rest => written rest
  end.

(** ** Configuration, requests and billing events *)

(** [process.env], as far as the webhook code reads it. *)
Record Env : Type := {
  GHL_V1_API_KEY : option string;
  GHL_LOCATION_ID : option string;
  CONVERTKIT_API_KEY : option string;
  CONVERTKIT_FORM_ID : option string;
  CONVERTKIT_TAG_IDS : option string;
  STRIPE_WEBHOOK_SECRET : option string
}.

(** [x || ""] for a string that may be absent. *)
Definition or_empty (x : option string) : string :=
  match x with Some s => s | None => EmptyString end.

(** [a || b || ""] *)
Definition or_else (a b : option string) : string :=
  if JsString.truthy (or_empty a) then or_empty a else or_empty b.

(** The raw request: the unparsed body and the [stripe-signature] header. *)
Record request : Type := {
  req_body : string;
  req_signature : option string
}.

(** [event.data.object]: the fields the handler reads, each a string or
    absent, as the billing provider types them (a checkout session, an
    invoice or a subscription). *)
Module Details.
Record t : Type := make {
  email : option string;
  name : option string;
  phone : option string
}.
End Details.

Module Obj.
Record t : Type := make {
  customer_details : option Details.t;
  customer_email : option string;
  customer : option string;
  id : option string;
  subscription : option string;
  status : option string
}.

(** [s?.customer_details?.email] and its siblings. *)
Definition details_email (s : t) : option string :=
  match customer_details s with Some d => Details.email d | None => None end.
Definition details_name (s : t) : option string :=
  match customer_details s with Some d => Details.name d | None => None end.
Definition details_phone (s : t) : option string :=
  match customer_details s with Some d => Details.phone d | None => None end.
End Obj.

(** A verified event: [event.type], [event.created] (Unix seconds) and
    [event.data.object]. *)
Record stripe_event : Type := {
  ev_type : string;
  ev_created : Z;
  ev_object : Obj.t
}.

Inductive http_body : Type :=
| BodyJsonReceived            (* res.json({ received: true }) *)
| BodyText (text : string).   (* res.send(text) *)

Record http_response : Type := {
  http_status : Z;
  http_body_of : http_body
}.

(** ** Tag helpers *)

Module TAGS.
Module STABLE.
Definition TRIAL : string := "fc:trial_checkout".
Definition ACTIVE : string := "fc:payment_succeeded".
Definition SUB_ACTIVE : string := "fc:sub_active".
Definition DUNNING : string := "fc:payment_failed".
Definition CANCELED : string := "fc:sub_canceled".
End STABLE.
Module evt.
Definition cs (id : string) : string := "evt:cs_" +:+ id.
Definition in_ (id : string) : string := "evt:in_" +:+ id.
Definition sub (id : string) : string := "evt:sub_" +:+ id.
End evt.
End TAGS.

(** [tags.map(t => String(t).trim()).filter(Boolean)] on strings. *)
Definition cleanTags (tags : list string) : list string :=
  JsString.filterBoolean (List.map JsString.trim tags).

(** [items.map(t => String(t).trim())] on the elements of a parsed array:
    the first element that cannot be turned into a string ends the
    [map]. *)
Fixpoint printTags (items : list jsval) : exn + list string :=
  match items with
  | [] => inr []
  | t :: rest =>
      match Js.toString t with
      | inl e => inl e
      | inr printed =>
          match printTags rest with
          | inl e => inl e
          | inr tags => inr (JsString.trim printed :: tags)
          end
      end
  end.

(** [items.map(t => String(t).trim()).filter(Boolean)] *)
Definition cleanTagValues (items : list jsval) : exn + list string :=
  match printTags items with
  | inl e => inl e
  | inr tags => inr (JsString.filterBoolean tags)
  end.

(** [function splitName(full = "")] *)
Definition splitName (full : string) : string * string :=
  let parts := JsString.filterBoolean (JsString.split_ws (JsString.trim full)) in
  (match parts with [] => EmptyString | p :: _ => p end,
   JsString.join " " (List.tl parts)).

(** ** [webhooks.js], tag-merging variant ([src/unnamed/part_003]) *)

Module Webhooks.
Section Handler.

Local Open Scope prog_scope.

Variable env : Env.

(** [stripe.webhooks.constructEvent(body, sig, secret)] of the billing
    provider's SDK: the parsed event, or the error it throws. *)
Variable constructEvent : string -> option string -> option string -> exn + stripe_event.

(** [async function ghlV1GetContactByEmail(email)] *)
Definition ghlV1GetContactByEmail (email : string) : prog jsval :=
  let apiKey := JsString.trim (or_empty (GHL_V1_API_KEY env)) in
  let locationId := JsString.trim (or_empty (GHL_LOCATION_ID env)) in
  if JsString.isEmpty apiKey || JsString.isEmpty locationId || JsString.isEmpty email
  then Ret JNull
  else
    try_catch
      (res <- await (GhlGetContacts apiKey locationId email) ;;
       match res with
       | FetchRejects m => Throw (FetchError m)
       | FetchResponse r =>
           if negb (res_ok r) then Ret JNull
           else
             match res_json r with
             | None => Throw (SyntaxError "Unexpected token in JSON")
             | Some json =>
                 Ret (match Js.opt json "contacts" with
                      | JArr contacts => Js.first contacts
                      | _ => Js.or (Js.opt json "contact") (Js.or json JNull)
                      end)
             end
       end)
      (fun _ => Ret JNull).

(** [(existing?.tags || []).map(t => String(t).trim()).filter(Boolean)]:
    a truthy [tags] that is not an array has no [map] to call, and a tag
    that cannot be turned into a string throws. *)
Definition existingTagsOf (existing : jsval) : exn + list string :=
  match Js.or (Js.opt existing "tags") (JArr []) with
  | JArr items => cleanTagValues items
  | _ => inl (TypeError "(existing?.tags || []).map is not a function")
  end.

(** [async function ghlV1UpsertContact({ email, firstName, lastName,
    phone, tags, customFields })] *)
Definition ghlV1UpsertContact (args : Payload.t) : prog jsval :=
  let email := Payload.email args in
  if JsString.isEmpty email
  then console LogWarn "[GHL upsert] skipped: missing email" ;; Ret JUndefined
  else
    let apiKey := JsString.trim (or_empty (GHL_V1_API_KEY env)) in
    let locationId := JsString.trim (or_empty (GHL_LOCATION_ID env)) in
    if JsString.isEmpty apiKey || JsString.isEmpty locationId
    then console LogError "[GHL upsert] Missing GHL_V1_API_KEY or GHL_LOCATION_ID" ;;
         Ret JUndefined
    else
      (* 1) start with the new tags *)
      let newTags := JsString.arrayFromSet (cleanTags (Payload.tags args)) in
      (* 2) read the existing tags and merge *)
      mergedTags <-
        try_catch
          (existing <- ghlV1GetContactByEmail email ;;
           existingTags <- lift (existingTagsOf existing) ;;
           Ret (JsString.arrayFromSet (existingTags ++ newTags)))
          (fun _ =>
             console LogWarn "[GHL upsert] existing tag merge skipped:" ;;
             Ret newTags) ;;
      let payload :=
        Payload.make email (Payload.firstName args) (Payload.lastName args)
          (Payload.phone args) mergedTags (Payload.customFields args) in
      res <- await (GhlPostContacts apiKey locationId payload) ;;
      match res with
      | FetchRejects m => Throw (FetchError m)
      | FetchResponse r =>
          if negb (res_ok r)
          then console LogError "[GHL upsert] Failed:" ;; Ret JUndefined
          else
            let data :=
              match res_body r with
              | JsonBody json => json
              | TextBody text => JObj [("raw", JStr text)]
              end in
            console LogInfo "[GHL upsert] OK" ;; Ret data
      end.

(** One pass of the [for (const tagId of tagIds)] loop per element. *)
Fixpoint subscribeTags (key email : string) (tagIds : list string) : prog unit :=
  match tagIds with
  | [] => Ret tt
  | tagId :: rest =>
      try_catch
        (res <- await (ConvertKitTagSubscribe tagId key email) ;;
         match res with
         | FetchRejects m => Throw (FetchError m)
         | FetchResponse _ => Ret tt
         end)
        (fun _ => console LogWarn "ConvertKit tag skipped:") ;;
      subscribeTags key email rest
  end.

(** [async function convertKitSubscribe({ email, firstName })] *)
Definition convertKitSubscribe (email firstName : string) : prog unit :=
  let key := or_empty (CONVERTKIT_API_KEY env) in
  if JsString.isEmpty key then Ret tt
  else
    (if JsString.truthy (or_empty (CONVERTKIT_FORM_ID env))
     then
       try_catch
         (res <- await (ConvertKitFormSubscribe (or_empty (CONVERTKIT_FORM_ID env))
                          key email firstName) ;;
          match res with
          | FetchRejects m => Throw (FetchError m)
          | FetchResponse _ => Ret tt
          end)
         (fun _ => console LogWarn "ConvertKit subscribe skipped:")
     else Ret tt) ;;
    let tagIds :=
      JsString.filterBoolean
        (List.map JsString.trim
           (JsString.split_on "," (or_empty (CONVERTKIT_TAG_IDS env)))) in
    subscribeTags key email tagIds.

(** [new Date(event.created * 1000).toISOString()] *)
Definition eventTime (event : stripe_event) : exn + string :=
  JsDate.toISOString (ev_created event * 1000).

(** The secondary identity lookup of the subscription cases:
    [if (customerId) { try { email = (await retrieve)?.email || "" } catch { warn } }] *)
Definition customerEmail (label : string) (customerId : option string) : prog string :=
  if JsString.truthy (or_empty customerId)
  then
    try_catch
      (c <- await (StripeCustomersRetrieve (or_empty customerId)) ;;
       customer <- lift c ;;
       Ret (or_empty (cust_email customer)))
      (fun _ => console LogWarn label ;; Ret EmptyString)
  else Ret EmptyString.

(** The [switch (event.type)] of the route handler; each case ends in
    [break]. *)
Definition dispatch (event : stripe_event) : prog unit :=
  let type := ev_type event in
  let o := ev_object event in
  if String.eqb type "checkout.session.completed" then
    let s := o in
    let email := or_else (Obj.details_email s) (Obj.customer_email s) in
    if JsString.isEmpty email
    then console LogWarn "[Trial] Missing email; skip upsert."
    else
      let '(first, last) := splitName (or_empty (Obj.details_name s)) in
      let phone := or_empty (Obj.details_phone s) in
      let customerId := or_empty (Obj.customer s) in
      let sessionId := or_empty (Obj.id s) in
      time <- lift (eventTime event) ;;
      let customFields :=
        [("Last Checkout Session ID", sessionId);
         ("Stripe Customer ID", customerId);
         ("Last Stripe Event Type", type);
         ("Last Stripe Event Time", time)] in
      let tags := [TAGS.STABLE.TRIAL; TAGS.evt.cs sessionId] in
      ghlV1UpsertContact
        (Payload.make email (Some first) (Some last) (Some phone) tags customFields) ;;
      convertKitSubscribe email first
  else if String.eqb type "invoice.payment_succeeded" then
    let inv := o in
    let email := or_empty (Obj.customer_email inv) in
    if JsString.isEmpty email
    then console LogWarn "[Active] Missing email on invoice; skip upsert."
    else
      let invoiceId := or_empty (Obj.id inv) in
      let subId := or_empty (Obj.subscription inv) in
      let customerId := or_empty (Obj.customer inv) in
      time <- lift (eventTime event) ;;
      let customFields :=
        [("Last Invoice ID", invoiceId);
         ("Last Subscription ID", subId);
         ("Stripe Customer ID", customerId);
         ("Last Stripe Event Type", type);
         ("Last Stripe Event Time", time)] in
      let tags :=
        [TAGS.STABLE.ACTIVE; TAGS.evt.in_ invoiceId]
        ++ (if JsString.truthy subId then [TAGS.evt.sub subId] else []) in
      ghlV1UpsertContact (Payload.make email None None None tags customFields) ;;
      Ret tt
  else if String.eqb type "invoice.payment_failed" then
    let inv := o in
    let email := or_empty (Obj.customer_email inv) in
    if JsString.isEmpty email
    then console LogWarn "[Dunning] Missing email on invoice; skip upsert."
    else
      let invoiceId := or_empty (Obj.id inv) in
      let subId := or_empty (Obj.subscription inv) in
      let customerId := or_empty (Obj.customer inv) in
      time <- lift (eventTime event) ;;
      let customFields :=
        [("Last Invoice ID", invoiceId);
         ("Last Subscription ID", subId);
         ("Stripe Customer ID", customerId);
         ("Last Stripe Event Type", type);
         ("Last Stripe Event Time", time)] in
      let tags :=
        [TAGS.STABLE.DUNNING; TAGS.evt.in_ invoiceId]
        ++ (if JsString.truthy subId then [TAGS.evt.sub subId] else []) in
      ghlV1UpsertContact (Payload.make email None None None tags customFields) ;;
      Ret tt
  else if String.eqb type "customer.subscription.deleted" then
    let sub := o in
    let customerId := Obj.customer sub in
    email <- customerEmail "[Canceled] Could not fetch customer email" customerId ;;
    if JsString.isEmpty email
    then console LogWarn "[Canceled] Missing email; skip upsert."
    else
      let subId := or_empty (Obj.id sub) in
      time <- lift (eventTime event) ;;
      let customFields :=
        [("Last Subscription ID", subId);
         ("Stripe Customer ID", or_empty customerId);
         ("Last Stripe Event Type", type);
         ("Last Stripe Event Time", time)] in
      let tags := [TAGS.STABLE.CANCELED; TAGS.evt.sub subId] in
      ghlV1UpsertContact (Payload.make email None None None tags customFields) ;;
      Ret tt
  else if String.eqb type "customer.subscription.updated" then
    let sub := o in
    if negb (String.eqb (or_empty (Obj.status sub)) "active")
    then Ret tt (* only act on active *)
    else
      let customerId := Obj.customer sub in
      email <- customerEmail "[Sub Active] Could not fetch customer email" customerId ;;
      if JsString.isEmpty email
      then console LogWarn "[Sub Active] Missing email; skip upsert."
      else
        let subId := or_empty (Obj.id sub) in
        time <- lift (eventTime event) ;;
        let customFields :=
          [("Last Subscription ID", subId);
           ("Stripe Customer ID", or_empty customerId);
           ("Last Stripe Event Type", type);
           ("Last Stripe Event Time", time)] in
        let tags :=
          [TAGS.STABLE.ACTIVE; TAGS.STABLE.SUB_ACTIVE; TAGS.evt.sub subId] in
        ghlV1UpsertContact (Payload.make email None None None tags customFields) ;;
        Ret tt
  else Ret tt. (* ignore everything else *)

(** The second [try] of the route handler, once the event is verified. *)
Definition processEvent (event : stripe_event) : prog http_response :=
  try_catch
    (dispatch event ;;
     Ret {| http_status := 200; http_body_of := BodyJsonReceived |})
    (fun _ =>
       console LogError "[Webhook handler] Error:" ;;
       Ret {| http_status := 500; http_body_of := BodyText "Server error" |}).

(** The route handler that [registerStripeWebhooks] mounts on
    [POST /api/stripe/webhook]. *)
Definition registerStripeWebhooks (req : request) : prog http_response :=
  match constructEvent (req_body req) (req_signature req)
          (STRIPE_WEBHOOK_SECRET env) with
  | inl err =>
      console LogError "[Stripe] Signature verification failed:" ;;
      Ret {| http_status := 400;
             http_body_of := BodyText ("Webhook Error: " +:+ exn_message err) |}
  | inr event => processEvent event
  end.

End Handler.
End Webhooks.

(** ** [webhooks.js], earlier variant ([src/webhooks.js]) *)

Module WebhooksEarlier.
Section Upsert.

Local Open Scope prog_scope.

Variable env : Env.

(** [async function ghlV1UpsertContact(...)] before the tag merge was
    added: the body carries [tags] as passed, and no contact is read. *)
Definition ghlV1UpsertContact (args : Payload.t) : prog jsval :=
  let email := Payload.email args in
  if JsString.isEmpty email
  then console LogWarn "[GHL upsert] skipped: missing email" ;; Ret JUndefined
  else
    let apiKey := or_empty (GHL_V1_API_KEY env) in
    let locationId := or_empty (GHL_LOCATION_ID env) in
    if JsString.isEmpty apiKey || JsString.isEmpty locationId
    then console LogError "[GHL upsert] Missing GHL_V1_API_KEY or GHL_LOCATION_ID" ;;
         Ret JUndefined
    else
      let payload :=
        Payload.make email (Payload.firstName args) (Payload.lastName args)
          (Payload.phone args) (Payload.tags args) (Payload.customFields args) in
      res <- await (GhlPostContactsUpsert apiKey locationId payload) ;;
      match res with
      | FetchRejects m => Throw (FetchError m)
      | FetchResponse r =>
          if negb (res_ok r)
          then console LogError "[GHL upsert] Failed:" ;; Ret JUndefined
          else
            let data := match res_json r with Some j => j | None => JObj [] end in
            console LogInfo "[GHL upsert] OK" ;; Ret data
      end.

End Upsert.
End WebhooksEarlier.

(** ** [webhooks.js] with the stage resolver ([src/server.js]) *)

Module Server.
Section Resolver.

Local Open Scope prog_scope.

Variable env : Env.

(** [`${x}`] for a string that may be [undefined]. *)
Definition template (x : option string) : string :=
  match x with Some s => s | None => "undefined" end.

(** [v === pipelineId] *)
Definition strictEq (v : jsval) (x : option string) : bool :=
  match x, v with
  | Some s, _ => Js.strictEqStr v s
  | None, JUndefined => true
  | None, _ => false
  end.

(** [const matchName = s => (s || "").toLowerCase() === (stageName || "").toLowerCase()] *)
Definition matchName (stageName : string) (s : jsval) : exn + bool :=
  match Js.or s (JStr EmptyString) with
  | JStr x =>
      inr (String.eqb (JsString.toLowerCase x) (JsString.toLowerCase stageName))
  | _ => inl (TypeError "(s || empty).toLowerCase is not a function")
  end.

(** [arr.find(pred)], for a predicate that may throw. *)
Fixpoint find (pred : jsval -> exn + bool) (arr : list jsval) : exn + jsval :=
  match arr with
  | [] => inr JUndefined
  | x :: rest =>
      match pred x with
      | inl e => inl e
      | inr true => inr x
      | inr false => find pred rest
      end
  end.

(** [v.find(pred)]: only an array has [find]. *)
Definition findIn (v : jsval) (pred : jsval -> exn + bool) : exn + jsval :=
  match v with
  | JArr arr => find pred arr
  | _ => inl (TypeError "find is not a function")
  end.

(** [o => matchName(o.key)] *)
Definition nameMatches (stageName key : string) (o : jsval) : exn + bool :=
  match Js.prop o key with
  | inl e => inl e
  | inr s => matchName stageName s
  end.

(** [Array.isArray(j) ? j : (j?.opportunities || j?.data || [])] *)
Definition opportunitiesOf (j : jsval) : jsval :=
  if Js.isArray j then j
  else Js.or (Js.opt j "opportunities") (Js.or (Js.opt j "data") (JArr [])).

(** The rest of a probe's [try] block once the text of the response is
    there, up to the stage id it returns, if any. *)
Definition afterFetch (res : fetch_outcome) (warn : string)
    (onOk : response -> prog (option jsval)) : prog (option jsval) :=
  match res with
  | FetchRejects m => Throw (FetchError m)
  | FetchResponse r =>
      if res_ok r then onOk r
      else console LogWarn warn ;; Ret None
  end.

(** [if (hit?.stageId) { ...; return hit.stageId; }] *)
Definition returnIfTruthy (v : jsval) (label : string) : prog (option jsval) :=
  if Js.truthy v then console LogInfo label ;; Ret (Some v) else Ret None.

(** Try 1: filtered opportunities. *)
Definition tryFiltered (v1Key loc : string) (pipelineId : option string)
    (stageName : string) : prog (option jsval) :=
  try_catch
    (r <- await (GhlGetOpportunities v1Key loc (Some (template pipelineId))) ;;
     afterFetch r "[GHL V1] filtered opps 404/err:"
       (fun r =>
          let j := match res_json r with Some j => j | None => JArr [] end in
          let opps := opportunitiesOf j in
          hit <- lift (findIn opps (nameMatches stageName "stageName")) ;;
          returnIfTruthy (Js.opt hit "stageId")
            "[GHL V1] resolved stageId from opps (filtered):"))
    (fun _ => console LogWarn "[GHL V1] filtered opps error:" ;; Ret None).

(** Try 2: unfiltered opportunities, filtered client-side; a match on
    pipeline and stage name is preferred to one on the stage name alone. *)
Definition tryUnfiltered (v1Key loc : string) (pipelineId : option string)
    (stageName : string) : prog (option jsval) :=
  try_catch
    (r2 <- await (GhlGetOpportunities v1Key loc None) ;;
     afterFetch r2 "[GHL V1] unfiltered opps 404/err:"
       (fun r2 =>
          let j2 := match res_json r2 with Some j => j | None => JArr [] end in
          let opps2 := opportunitiesOf j2 in
          both <- lift (findIn opps2
                          (fun o =>
                             match Js.prop o "pipelineId" with
                             | inl e => inl e
                             | inr p =>
                                 if strictEq p pipelineId
                                 then nameMatches stageName "stageName" o
                                 else inr false
                             end)) ;;
          hit2 <- (if Js.truthy both then Ret both
                   else lift (findIn opps2 (nameMatches stageName "stageName"))) ;;
          returnIfTruthy (Js.opt hit2 "stageId")
            "[GHL V1] resolved stageId from opps (unfiltered):"))
    (fun _ => console LogWarn "[GHL V1] unfiltered opps error:" ;; Ret None).

(** [pj?.stages || pj?.pipeline?.stages || pj?.data?.stages || []] *)
Definition stagesOf (pj : jsval) : jsval :=
  Js.or (Js.opt pj "stages")
    (Js.or (Js.opt (Js.opt pj "pipeline") "stages")
       (Js.or (Js.opt (Js.opt pj "data") "stages") (JArr []))).

(** Try 3: the pipeline object may include its stages. *)
Definition tryPipeline (v1Key loc : string) (pipelineId : option string)
    (stageName : string) : prog (option jsval) :=
  try_catch
    (rp <- await (GhlGetPipeline v1Key loc (template pipelineId)) ;;
     afterFetch rp "[GHL V1] pipeline object err:"
       (fun rp =>
          let pj := match res_json rp with Some j => j | None => JObj [] end in
          let stages := stagesOf pj in
          s <- (if Js.isArray stages
                then lift (findIn stages (nameMatches stageName "name"))
                else Ret (JBool false)) ;;
          found <- returnIfTruthy (Js.opt s "id")
                     "[GHL V1] resolved stageId from pipeline object:" ;;
          match found with
          | Some v => Ret (Some v)
          | None =>
              console LogWarn
                "[GHL V1] pipeline object had no matching stage name; keys:" ;;
              Ret None
          end))
    (fun _ => console LogWarn "[GHL V1] pipeline object fetch error:" ;; Ret None).

(** [`Could not resolve v1 stageId for "${stageName}"`], the name
    between double quotes. *)
Definition unresolved (stageName : string) : string :=
  "Could not resolve v1 stageId for " +:+ String "034" stageName +:+ String "034" EmptyString.

(** The key of [_stageIdCache]: [`${pipelineId}::${stageName}`]. *)
Definition cacheKey (pipelineId : option string) (stageName : string) : string :=
  template pipelineId +:+ "::" +:+ stageName.

(** [async function resolveV1StageIdByName({ pipelineId, stageName })],
    threading the module-level [_stageIdCache]: the result is the stage id
    and the cache the call leaves.  A call that throws has not written to
    the cache. *)
Definition resolveV1StageIdByName (pipelineId : option string) (stageName : string)
    (_stageIdCache : gmap string jsval) : prog (jsval * gmap string jsval) :=
  let key := cacheKey pipelineId stageName in
  match _stageIdCache !! key with
  | Some cached => Ret (cached, _stageIdCache)
  | None =>
      let v1Key := JsString.trim (or_empty (GHL_V1_API_KEY env)) in
      let loc := JsString.trim (or_empty (GHL_LOCATION_ID env)) in
      if JsString.isEmpty v1Key || JsString.isEmpty loc
      then Throw (Error "Missing GHL_V1_API_KEY or GHL_LOCATION_ID")
      else
        r1 <- tryFiltered v1Key loc pipelineId stageName ;;
        match r1 with
        | Some stageId => Ret (stageId, <[key := stageId]> _stageIdCache)
        | None =>
            r2 <- tryUnfiltered v1Key loc pipelineId stageName ;;
            match r2 with
            | Some stageId => Ret (stageId, <[key := stageId]> _stageIdCache)
            | None =>
                r3 <- tryPipeline v1Key loc pipelineId stageName ;;
                match r3 with
                | Some stageId => Ret (stageId, <[key := stageId]> _stageIdCache)
                | None => Throw (Error (unresolved stageName))
                end
            end
        end
  end.

End Resolver.
End Server.

(** ** [server.js]: unwrapping a fenced answer ([src/server.js], first document) *)

(** The routes [/generate-week-plan], [/generate-day-plan],
    [/generate-instructions] and [/generate-metadata] take the text of the
    completion, trim it and, when it starts with a code fence, remove the
    opening fence with its language tag and the closing fence. *)
Module Fence.

Definition fence : string := "```".

(** [s.startsWith(p)] *)
Fixpoint startsWith (s p : string) {struct p} : bool :=
  match p with
  | EmptyString => true
  | String a p' =>
      match s with
      | EmptyString => false
      | String b s' => Ascii.eqb a b && startsWith s' p'
      end
  end.

(** [s.slice(n)] *)
Fixpoint slice (n : nat) (s : string) : string :=
  match n, s with
  | O, _ => s
  | S m, EmptyString => EmptyString
  | S m, String _ r => slice m r
  end.

(** What [(?:tag)?] with the flag [i] consumes at the start of [s], for
    a lower-case [tag]: the tag in any letter case, or nothing. *)
Definition skipTag (tag s : string) : string :=
  if startsWith (JsString.toLowerCase s) tag
  then slice (String.length tag) s else s.

(** [s.replace(/```(?:tag)?/i, "")], and with [eatSpace]
    [s.replace(/```(?:tag)?\s*/i, "")]: the first fence, the tag after it
    if there is one and, with [eatSpace], the white space that follows,
    are removed. *)
Fixpoint replaceOpening (tag : string) (eatSpace : bool) (s : string) : string :=
  match s with
  | EmptyString => EmptyString
  | String c r =>
      if startsWith s fence
      then
        let rest := skipTag tag (slice 3 s) in
        if eatSpace then JsString.trimStart rest else rest
      else String c (replaceOpening tag eatSpace r)
  end.

(** [s.replace(/```$/, "")]: a fence at the very end is removed. *)
Fixpoint replaceClosing (s : string) : string :=
  match s with
  | EmptyString => EmptyString
  | String c r => if String.eqb s fence then EmptyString else String c (replaceClosing r)
  end.

(** [let result = content.trim();
     if (result.startsWith("```")) {
       result = result.replace(/```(?:tag)?/i, "").replace(/```$/, "").trim();
     }] *)
Definition unfence (tag : string) (eatSpace : bool) (content : string) : string :=
  let result := JsString.trim content in
  if startsWith result fence
  then JsString.trim (replaceClosing (replaceOpening tag eatSpace result))
  else result.

(** The four routes. *)
Definition weekPlanText : string -> string := unfence "json" false.
Definition dayPlanText : string -> string := unfence "json" false.
Definition instructionsText : string -> string := unfence "markdown" false.
Definition metadataText : string -> string := unfence "json" true.

End Fence.

(** ** [webhooks.js], earlier variant: the route handler ([src/webhooks.js]) *)

(** The route handler of the variant without the tag merge.  Its
    [switch] is the one of the merging variant, except that the upsert is
    the earlier one and that the checkout case does not subscribe to the
    mailing list. *)
Module EarlierHandler.
Section Handler.

Local Open Scope prog_scope.

Variable env : Env.
Variable constructEvent : string -> option string -> option string -> exn + stripe_event.

(** The [switch (event.type)] of the route handler. *)
Definition dispatch (event : stripe_event) : prog unit :=
  let type := ev_type event in
  let o := ev_object event in
  if String.eqb type "checkout.session.completed" then
    let s := o in
    let email := or_else (Obj.details_email s) (Obj.customer_email s) in
    if JsString.isEmpty email
    then console LogWarn "[Trial] Missing email; skip upsert."
    else
      let '(first, last) := splitName (or_empty (Obj.details_name s)) in
      let phone := or_empty (Obj.details_phone s) in
      let customerId := or_empty (Obj.customer s) in
      let sessionId := or_empty (Obj.id s) in
      time <- lift (Webhooks.eventTime event) ;;
      let customFields :=
        [("Last Checkout Session ID", sessionId);
         ("Stripe Customer ID", customerId);
         ("Last Stripe Event Type", type);
         ("Last Stripe Event Time", time)] in
      let tags := [TAGS.STABLE.TRIAL; TAGS.evt.cs sessionId] in
      WebhooksEarlier.ghlV1UpsertContact env
        (Payload.make email (Some first) (Some last) (Some phone) tags customFields) ;;
      Ret tt
  else if String.eqb type "invoice.payment_succeeded" then
    let inv := o in
    let email := or_empty (Obj.customer_email inv) in
    if JsString.isEmpty email
    then console LogWarn "[Active] Missing email on invoice; skip upsert."
    else
      let invoiceId := or_empty (Obj.id inv) in
      let subId := or_empty (Obj.subscription inv) in
      let customerId := or_empty (Obj.customer inv) in
      time <- lift (Webhooks.eventTime event) ;;
      let customFields :=
        [("Last Invoice ID", invoiceId);
         ("Last Subscription ID", subId);
         ("Stripe Customer ID", customerId);
         ("Last Stripe Event Type", type);
         ("Last Stripe Event Time", time)] in
      let tags :=
        [TAGS.STABLE.ACTIVE; TAGS.evt.in_ invoiceId]
        ++ (if JsString.truthy subId then [TAGS.evt.sub subId] else []) in
      WebhooksEarlier.ghlV1UpsertContact env (Payload.make email None None None tags customFields) ;;
      Ret tt
  else if String.eqb type "invoice.payment_failed" then
    let inv := o in
    let email := or_empty (Obj.customer_email inv) in
    if JsString.isEmpty email
    then console LogWarn "[Dunning] Missing email on invoice; skip upsert."
    else
      let invoiceId := or_empty (Obj.id inv) in
      let subId := or_empty (Obj.subscription inv) in
      let customerId := or_empty (Obj.customer inv) in
      time <- lift (Webhooks.eventTime event) ;;
      let customFields :=
        [("Last Invoice ID", invoiceId);
         ("Last Subscription ID", subId);
         ("Stripe Customer ID", customerId);
         ("Last Stripe Event Type", type);
         ("Last Stripe Event Time", time)] in
      let tags :=
        [TAGS.STABLE.DUNNING; TAGS.evt.in_ invoiceId]
        ++ (if JsString.truthy subId then [TAGS.evt.sub subId] else []) in
      WebhooksEarlier.ghlV1UpsertContact env (Payload.make email None None None tags customFields) ;;
      Ret tt
  else if String.eqb type "customer.subscription.deleted" then
    let sub := o in
    let customerId := Obj.customer sub in
    email <- Webhooks.customerEmail "[Canceled] Could not fetch customer email" customerId ;;
    if JsString.isEmpty email
    then console LogWarn "[Canceled] Missing email; skip upsert."
    else
      let subId := or_empty (Obj.id sub) in
      time <- lift (Webhooks.eventTime event) ;;
      let customFields :=
        [("Last Subscription ID", subId);
         ("Stripe Customer ID", or_empty customerId);
         ("Last Stripe Event Type", type);
         ("Last Stripe Event Time", time)] in
      let tags := [TAGS.STABLE.CANCELED; TAGS.evt.sub subId] in
      WebhooksEarlier.ghlV1UpsertContact env (Payload.make email None None None tags customFields) ;;
      Ret tt
  else if String.eqb type "customer.subscription.updated" then
    let sub := o in
    if negb (String.eqb (or_empty (Obj.status sub)) "active")
    then Ret tt (* only act on active *)
    else
      let customerId := Obj.customer sub in
      email <- Webhooks.customerEmail "[Sub Active] Could not fetch customer email" customerId ;;
      if JsString.isEmpty email
      then console LogWarn "[Sub Active] Missing email; skip upsert."
      else
        let subId := or_empty (Obj.id sub) in
        time <- lift (Webhooks.eventTime event) ;;
        let customFields :=
          [("Last Subscription ID", subId);
           ("Stripe Customer ID", or_empty customerId);
           ("Last Stripe Event Type", type);
           ("Last Stripe Event Time", time)] in
        let tags :=
          [TAGS.STABLE.ACTIVE; TAGS.STABLE.SUB_ACTIVE; TAGS.evt.sub subId] in
        WebhooksEarlier.ghlV1UpsertContact env (Payload.make email None None None tags customFields) ;;
        Ret tt
  else Ret tt. (* ignore everything else *)

(** The second [try] of the route handler. *)
Definition processEvent (event : stripe_event) : prog http_response :=
  try_catch
    (dispatch event ;;
     Ret {| http_status := 200; http_body_of := BodyJsonReceived |})
    (fun _ =>
       console LogError "[Webhook handler] Error:" ;;
       Ret {| http_status := 500; http_body_of := BodyText "Server error" |}).

(** The route handler on [POST /api/stripe/webhook]. *)
Definition registerStripeWebhooks (req : request) : prog http_response :=
  match constructEvent (req_body req) (req_signature req)
          (STRIPE_WEBHOOK_SECRET env) with
  | inl err =>
      console LogError "[Stripe] Signature verification failed:" ;;
      Ret {| http_status := 400;
             http_body_of := BodyText ("Webhook Error: " +:+ exn_message err) |}
  | inr event => processEvent event
  end.

End Handler.
End EarlierHandler.

(** ** [webhooks.js] with the stage resolver: the route handler ([src/server.js]) *)

(** The route handler of the file that holds the stage resolver, with
    [upsertGhlContactAndTrialOpp], the caller of the resolver: it posts
    the contact, finds the id of the trial stage and creates an
    opportunity in that stage.  The handler also mirrors the subscription
    state into the document store. *)
Module Legacy.

(** [process.env], as far as this function reads it beyond [Env]. *)
Record Settings : Type := {
  GHL_PIPELINE_ID : option string;
  GHL_TRIAL_STAGE_NAME : option string;
  GHL_TRIAL_STAGE_ID_V1 : option string
}.

(** The body of the contact request: [{ email, firstName, phone, tags }];
    [phone] is absent when it is [undefined]. *)
Record contact_body : Type := {
  cb_email : string;
  cb_firstName : string;
  cb_phone : option string;
  cb_tags : list string
}.

(** The body of the opportunity request, as far as it varies:
    [{ pipelineId, stageId, contactId, locationId }]; the fields [name],
    [monetaryValue] and [status] are the same in every request. *)
Record opportunity_body : Type := {
  ob_pipelineId : string;
  ob_stageId : jsval;
  ob_contactId : jsval;
  ob_locationId : string
}.

(** A subscription of the billing provider, as far as it is read:
    [status], [trial_end], [current_period_end] and
    [items?.data?.[0]?.price?.id]. *)
Record subscription : Type := {
  sub_status : option string;
  sub_trial_end : option Z;
  sub_current_period_end : option Z;
  sub_priceId : option string
}.

(** The [fields] written to the document store: [{ status: "trialing" }],
    or [{ status, trial_end, current_period_end, priceId }] where a
    missing or falsy value is stored as [null] ([None]). *)
Inductive subscription_fields : Type :=
| Trialing
| FromSubscription (status : option string) (trial_end current_period_end : option Z)
    (priceId : option string).

(** What [setStripeStatus] merges into the customer's document, besides
    [updatedAt]: [{ email, sessionId, ...fields }] from the checkout case,
    [fields] from the subscription cases. *)
Inductive customer_doc : Type :=
| CheckoutDoc (email : string) (sessionId : option string) (fields : subscription_fields)
| SubscriptionDoc (fields : subscription_fields).

Inductive lcall : Type :=
| Base (c : call)
    (* a request of the resolver or of the mailing-list helper *)
| GhlPostContact (apiKey locationId : string) (body : contact_body)
    (* POST rest.gohighlevel.com/v1/contacts/ *)
| GhlPostOpportunity (apiKey locationId : string) (body : opportunity_body)
    (* POST rest.gohighlevel.com/v1/opportunities/ *)
| StripeSubscriptionsRetrieve (subscriptionId : string)
    (* stripe.subscriptions.retrieve(subscriptionId) *)
| FirestoreSetStripeCustomer (customerId : string) (doc : customer_doc)
    (* db.collection("stripe_customers").doc(customerId).set(doc, { merge: true }) *)
| FirestoreFindUser (customerId : string)
    (* db.collection("users").where("stripeCustomerId", "==", customerId).limit(1).get() *)
| FirestoreSetUserSubscription (user : string) (fields : subscription_fields).
    (* snap.docs[0].ref.set({ subscription: fields }, { merge: true }) *)

(** What awaiting a call gives; a call to the billing provider or to the
    document store returns or throws, and the query returns the first
    user document, if any. *)
Definition lresp (c : lcall) : Type :=
  match c with
  | Base c => resp c
  | GhlPostContact _ _ _ | GhlPostOpportunity _ _ _ => fetch_outcome
  | StripeSubscriptionsRetrieve _ => (exn + subscription)%type
  | FirestoreSetStripeCustomer _ _ | FirestoreSetUserSubscription _ _ => (exn + unit)%type
  | FirestoreFindUser _ => (exn + option string)%type
  end.

Inductive lprog (A : Type) : Type :=
| LRet (a : A)
| LThrow (e : exn)
| LDo (c : lcall) (k : lresp c -> lprog A)
| LLog (level : log_level) (label : string) (k : lprog A).

Arguments LRet {A} a.
Arguments LThrow {A} e.
Arguments LDo {A} c k.
Arguments LLog {A} level label k.

Fixpoint lbind {A B : Type} (p : lprog A) (f : A -> lprog B) : lprog B :=
  match p with
  | LRet a => f a
  | LThrow e => LThrow e
  | LDo c k => LDo c (fun x => lbind (k x) f)
  | LLog level label k => LLog level label (lbind k f)
  end.

Fixpoint ltry_catch {A : Type} (p : lprog A) (h : exn -> lprog A) : lprog A :=
  match p with
  | LRet a => LRet a
  | LThrow e => h e
  | LDo c k => LDo c (fun x => ltry_catch (k x) h)
  | LLog level label k => LLog level label (ltry_catch k h)
  end.

Definition lawait (c : lcall) : lprog (lresp c) := LDo c LRet.

Definition lconsole (level : log_level) (label : string) : lprog unit :=
  LLog level label (LRet tt).

Definition llift {A : Type} (r : exn + A) : lprog A :=
  match r with inl e => LThrow e | inr a => LRet a end.

(** A function over the requests of the other variants, called from
    here. *)
Fixpoint embed {A : Type} (p : prog A) : lprog A :=
  match p with
  | Ret a => LRet a
  | Throw e => LThrow e
  | Do c k => LDo (Base c) (fun x => embed (k x))
  | Log level label k => LLog level label (embed k)
  end.

Declare Scope lprog_scope.
Delimit Scope lprog_scope with lprog.
Notation "x <- p ;; q" := (lbind p (fun x => q))
  (at level 100, p at next level, right associativity) : lprog_scope.
Notation "p ;; q" := (lbind p (fun _ => q))
  (at level 100, right associativity) : lprog_scope.

Record lworld : Type := {
  lw_state : Type;
  lw_respond : forall c : lcall, lw_state -> lresp c * lw_state
}.

Inductive litem : Type :=
| LCalled (c : lcall)
| LLogged (level : log_level) (label : string).

Record lrun_result (A : Type) (S : Type) : Type := {
  lresult : outcome A;
  ltrace : list litem;
  lfinal : S
}.

Arguments lresult {A S} _.
Arguments ltrace {A S} _.
Arguments lfinal {A S} _.

Fixpoint lrun {A : Type} (w : lworld) (p : lprog A) (s : lw_state w)
  : lrun_result A (lw_state w) :=
  match p with
  | LRet a => {| lresult := Returned a; ltrace := []; lfinal := s |}
  | LThrow e => {| lresult := Threw e; ltrace := []; lfinal := s |}
  | LDo c k =>
      let '(x, s') := lw_respond w c s in
      let r := lrun w (k x) s' in
      {| lresult := lresult r; ltrace := LCalled c :: ltrace r; lfinal := lfinal r |}
  | LLog level label k =>
      let r := lrun w k s in
      {| lresult := lresult r; ltrace := LLogged level label :: ltrace r;
         lfinal := lfinal r |}
  end.

(** The calls of a trace. *)
Fixpoint lexternal (tr : list litem) : list lcall :=
  match tr with
  | [] => []
  | LCalled c :: rest => c :: lexternal rest
  | LLogged _ _ :: rest => lexternal rest
  end.

Section Upsert.

Local Open Scope lprog_scope.

Variable env : Env.
Variable settings : Settings.

(** [json?.contact?.id || json?.id || json?.data?.id] *)
Definition contactIdOf (json : jsval) : jsval :=
  Js.or (Js.opt (Js.opt json "contact") "id")
    (Js.or (Js.opt json "id") (Js.opt (Js.opt json "data") "id")).

(** [(name || "").split(/\s+/)[0] || ""] *)
Definition firstNameOf (name : string) : string :=
  match JsString.split_ws name with
  | [] => EmptyString
  | first :: _ => first
  end.

(** [(process.env.GHL_TRIAL_STAGE_NAME || "Trial").trim()] *)
Definition desiredStageName : string :=
  JsString.trim
    (if JsString.truthy (or_empty (GHL_TRIAL_STAGE_NAME settings))
     then or_empty (GHL_TRIAL_STAGE_NAME settings) else "Trial").

(** [async function upsertGhlContactAndTrialOpp({ name, email, phone,
    customerId, subscriptionId })], threading the resolver's
    [_stageIdCache]; the two ids are not read. *)
Definition upsertGhlContactAndTrialOpp (name email phone : string)
    (_stageIdCache : gmap string jsval) : lprog (gmap string jsval) :=
  let GHL_V1_API_KEY := or_empty (GHL_V1_API_KEY env) in
  let GHL_LOCATION_ID := or_empty (GHL_LOCATION_ID env) in
  if JsString.isEmpty GHL_V1_API_KEY || JsString.isEmpty GHL_LOCATION_ID
  then
    lconsole LogWarn "Skip GHL v1 upsert: missing GHL_V1_API_KEY or GHL_LOCATION_ID" ;;
    LRet _stageIdCache
  else
    posted <-
      ltry_catch
        (res <- lawait
                  (GhlPostContact GHL_V1_API_KEY GHL_LOCATION_ID
                     {| cb_email := email;
                        cb_firstName := firstNameOf name;
                        cb_phone := if JsString.truthy phone then Some phone else None;
                        cb_tags := ["FlavorCoach"; "Checkout Completed"; "Free until Jan 1"] |}) ;;
         match res with
         | FetchRejects m => LThrow (FetchError m)
         | FetchResponse r =>
             lconsole LogInfo "GHL v1 upsert contact:" ;;
             let json := match res_json r with Some j => j | None => JObj [] end in
             LRet (Some (contactIdOf json))
         end)
        (fun _ => lconsole LogWarn "GHL v1 upsert failed:" ;; LRet None) ;;
    match posted with
    | None => LRet _stageIdCache (* no opportunity without a contact *)
    | Some contactId =>
        let pipelineId := GHL_PIPELINE_ID settings in
        let configuredStageId := JsString.trim (or_empty (GHL_TRIAL_STAGE_ID_V1 settings)) in
        resolved <-
          (if JsString.isEmpty configuredStageId
           then
             ltry_catch
               (embed (Server.resolveV1StageIdByName env pipelineId desiredStageName
                         _stageIdCache))
               (fun _ =>
                  lconsole LogWarn "Stage resolve failed:" ;;
                  LRet (JStr configuredStageId, _stageIdCache))
           else LRet (JStr configuredStageId, _stageIdCache)) ;;
        let '(v1StageId, cache) := resolved in
        if Js.truthy contactId && JsString.truthy (or_empty pipelineId) && Js.truthy v1StageId
        then
          ltry_catch
            (lconsole LogInfo "GHL v1 create payload" ;;
             res <- lawait
                      (GhlPostOpportunity GHL_V1_API_KEY GHL_LOCATION_ID
                         {| ob_pipelineId := or_empty pipelineId;
                            ob_stageId := v1StageId;
                            ob_contactId := contactId;
                            ob_locationId := GHL_LOCATION_ID |}) ;;
             match res with
             | FetchRejects m => LThrow (FetchError m)
             | FetchResponse r =>
                 lconsole LogInfo "GHL v1 create opportunity:" ;;
                 if negb (res_ok r) then LThrow (Error "GHL v1 opportunity failed")
                 else LRet tt
             end)
            (fun _ => lconsole LogWarn "GHL v1 opportunity error:") ;;
          LRet cache
        else
          lconsole LogWarn "GHL v1 create skipped: missing value(s)" ;;
          LRet cache
    end.

End Upsert.

(** [event.data.object] as this handler reads it: a checkout session
    ([customer_details], [customer], [subscription], [id]) or a
    subscription ([customer] and the fields of [subscription]). *)
Record object : Type := {
  customer_details : option Details.t;
  customer : option string;
  subscription_id : option string;
  id : option string;
  as_subscription : subscription
}.

Record event : Type := {
  ev_type : string;
  ev_object : object
}.

Section Handler.

Local Open Scope lprog_scope.

Variable env : Env.
Variable settings : Settings.

(** Whether [admin.firestore()] was set up when the module was loaded. *)
Variable db : bool.

Variable constructEvent : string -> option string -> option string -> exn + event.

(** [x || null] on a number and on a string. *)
Definition numberOrNull (x : option Z) : option Z :=
  match x with Some 0 => None | _ => x end.

Definition stringOrNull (x : option string) : option string :=
  match x with Some EmptyString => None | _ => x end.

(** [{ status: sub.status, trial_end: sub.trial_end || null,
       current_period_end: sub.current_period_end || null,
       priceId: sub.items?.data?.[0]?.price?.id || null }] *)
Definition fieldsOf (sub : subscription) : subscription_fields :=
  FromSubscription (sub_status sub) (numberOrNull (sub_trial_end sub))
    (numberOrNull (sub_current_period_end sub)) (stringOrNull (sub_priceId sub)).

(** [async function setStripeStatus(customerId, fields)] *)
Definition setStripeStatus (customerId : option string) (doc : customer_doc) : lprog unit :=
  if negb db || negb (JsString.truthy (or_empty customerId)) then LRet tt
  else
    done <- lawait (FirestoreSetStripeCustomer (or_empty customerId) doc) ;;
    llift done.

(** [async function attachToUserIfExists(customerId, subscriptionFields)] *)
Definition attachToUserIfExists (customerId : option string)
    (subscriptionFields : subscription_fields) : lprog unit :=
  if negb db || negb (JsString.truthy (or_empty customerId)) then LRet tt
  else
    found <- lawait (FirestoreFindUser (or_empty customerId)) ;;
    snap <- llift found ;;
    match snap with
    | None => LRet tt
    | Some user =>
        done <- lawait (FirestoreSetUserSubscription user subscriptionFields) ;;
        llift done
    end.

(** [async function moveGhlStageForStatus(_customerId, _status)]: a
    no-op. *)
Definition moveGhlStageForStatus (_customerId : option string) (_status : option string)
  : lprog unit :=
  LRet tt.

(** The [switch (event.type)] of the route handler, given the stage cache
    as the call finds it. *)
Definition dispatch (event : event) (_stageIdCache : gmap string jsval) : lprog unit :=
  let type := ev_type event in
  let o := ev_object event in
  if String.eqb type "checkout.session.completed" then
    let s := o in
    let details := customer_details s in
    let email := or_empty (match details with Some d => Details.email d | None => None end) in
    let name := or_empty (match details with Some d => Details.name d | None => None end) in
    let phone := or_empty (match details with Some d => Details.phone d | None => None end) in
    let customerId := customer s in
    let subscriptionId := subscription_id s in
    upsertGhlContactAndTrialOpp env settings name email phone _stageIdCache ;;
    embed (Webhooks.convertKitSubscribe env email name) ;;
    fields <-
      (if JsString.truthy (or_empty subscriptionId)
       then
         retrieved <- lawait (StripeSubscriptionsRetrieve (or_empty subscriptionId)) ;;
         sub <- llift retrieved ;;
         LRet (fieldsOf sub)
       else LRet Trialing) ;;
    setStripeStatus customerId (CheckoutDoc email (id s) fields) ;;
    attachToUserIfExists customerId fields
  else if String.eqb type "customer.subscription.created"
          || String.eqb type "customer.subscription.updated"
          || String.eqb type "customer.subscription.deleted" then
    let sub := as_subscription o in
    let customerId := customer o in
    let fields := fieldsOf sub in
    setStripeStatus customerId (SubscriptionDoc fields) ;;
    attachToUserIfExists customerId fields ;;
    moveGhlStageForStatus customerId (sub_status sub)
  else if String.eqb type "invoice.payment_succeeded" then
    moveGhlStageForStatus (customer o) (Some "active")
  else if String.eqb type "invoice.payment_failed" then
    moveGhlStageForStatus (customer o) (Some "dunning")
  else LRet tt.

(** The route handler on [POST /api/stripe/webhook]; [res.sendStatus]
    sends the name of the status as the body. *)
Definition registerStripeWebhooks (req : request) (_stageIdCache : gmap string jsval)
  : lprog http_response :=
  match constructEvent (req_body req) (req_signature req)
          (STRIPE_WEBHOOK_SECRET env) with
  | inl err =>
      lconsole LogError "Webhook signature failed:" ;;
      LRet {| http_status := 400; http_body_of := BodyText "Bad Request" |}
  | inr event =>
      ltry_catch
        (dispatch event _stageIdCache ;;
         LRet {| http_status := 200; http_body_of := BodyJsonReceived |})
        (fun _ =>
           lconsole LogError "Webhook handler error:" ;;
           LRet {| http_status := 500; http_body_of := BodyText "Internal Server Error" |})
  end.

End Handler.
End Legacy.

(** * Properties *)

(** ** Strings, filters and sets *)

Module JsStringFacts.
Import JsString.

(** A string that is empty or begins with a code unit that [trim] keeps. *)
Definition starts_clean (s : string) : bool :=
  match s with EmptyString => true | String c _ => negb (isWhiteSpace c) end.

Lemma trimStart_starts_clean s : starts_clean (trimStart s) = true.
Proof.
  induction s as [|c r IH]; simpl; [reflexivity|].
  destruct (isWhiteSpace c) eqn:Hc; [exact IH|]. simpl. now rewrite Hc.
Qed.

Lemma trimStart_fixed s : starts_clean s = true -> trimStart s = s.
Proof.
  destruct s as [|c r]; simpl; [reflexivity|].
  intros H. apply negb_true_iff in H. now rewrite H.
Qed.

Lemma trimEnd_starts_clean s : starts_clean s = true -> starts_clean (trimEnd s) = true.
Proof.
  destruct s as [|c r]; simpl; [reflexivity|].
  intros H. pose proof H as H'. apply negb_true_iff in H'. rewrite H'. simpl. exact H.
Qed.

Lemma trimEnd_idem s : trimEnd (trimEnd s) = trimEnd s.
Proof.
  induction s as [|c r IH]; simpl; [reflexivity|].
  destruct (isWhiteSpace c && isEmpty (trimEnd r)) eqn:Hc; simpl; [reflexivity|].
  rewrite IH, Hc. reflexivity.
Qed.

(** [trim] is idempotent: a trimmed tag is left alone by a second trim. *)
Lemma trim_idem s : trim (trim s) = trim s.
Proof.
  unfold trim.
  rewrite (trimStart_fixed (trimEnd (trimStart s))).
  - apply trimEnd_idem.
  - apply trimEnd_starts_clean, trimStart_starts_clean.
Qed.

Lemma truthy_nonempty s : truthy s = true <-> s <> EmptyString.
Proof. unfold truthy. destruct s; simpl; split; intros; congruence. Qed.

Lemma isEmpty_true s : isEmpty s = true <-> s = EmptyString.
Proof. destruct s; simpl; split; intros; congruence. Qed.

Lemma isEmpty_false s : isEmpty s = false <-> s <> EmptyString.
Proof. destruct s; simpl; split; intros; congruence. Qed.

(** A string made of white space only. *)
Fixpoint whitespaceOnly (s : string) : bool :=
  match s with
  | EmptyString => true
  | String c r => isWhiteSpace c && whitespaceOnly r
  end.

Lemma trimStart_whitespaceOnly s : whitespaceOnly s = true -> trimStart s = EmptyString.
Proof.
  induction s as [|c r IH]; simpl; [reflexivity|].
  intros H. apply andb_true_iff in H as [Hc Hr]. rewrite Hc. auto.
Qed.

Lemma trim_whitespaceOnly s : whitespaceOnly s = true -> trim s = EmptyString.
Proof. intros H. unfold trim. now rewrite trimStart_whitespaceOnly. Qed.

(** Membership in [uniq_from]. *)
Lemma elem_of_uniq_from (seen l : list string) (x : string) :
  x ∈ uniq_from seen l <-> x ∈ l /\ x ∉ seen.
Proof.
  revert seen. induction l as [|y r IH]; intros seen; simpl.
  - split; [intros H; inversion H | intros [H _]; inversion H].
  - case_bool_decide as Hy.
    + rewrite IH, elem_of_cons. split.
      * intros [H1 H2]. auto.
      * intros [[->|H1] H2]; [contradiction|auto].
    + rewrite !elem_of_cons, IH, elem_of_cons. split.
      * intros [->|[H1 H2]]; [auto|]. split; [auto|]. intros H. apply H2. now right.
      * intros [[->|H1] H2]; [now left|].
        destruct (decide (x = y)) as [->|Hne]; [now left|].
        right. split; [exact H1|]. intros [?|?]; congruence.
Qed.

Lemma NoDup_uniq_from (seen l : list string) : NoDup (uniq_from seen l).
Proof.
  revert seen. induction l as [|y r IH]; intros seen; simpl.
  - constructor.
  - case_bool_decide as Hy; [apply IH|].
    constructor; [|apply IH].
    rewrite elem_of_uniq_from. intros [_ H]. apply H. now left.
Qed.

Lemma uniq_from_ext (seen seen' l : list string) :
  (forall x, x ∈ seen <-> x ∈ seen') -> uniq_from seen l = uniq_from seen' l.
Proof.
  revert seen seen'. induction l as [|y r IH]; intros seen seen' H; simpl; [reflexivity|].
  rewrite (bool_decide_ext (y ∈ seen) (y ∈ seen') (H y)).
  case_bool_decide.
  - now apply IH.
  - f_equal. apply IH. intros x. rewrite !elem_of_cons, H. reflexivity.
Qed.

Lemma uniq_from_covered (seen l : list string) :
  (forall x, x ∈ l -> x ∈ seen) -> uniq_from seen l = [].
Proof.
  induction l as [|y r IH]; intros H; simpl; [reflexivity|].
  rewrite bool_decide_true by (apply H; now left).
  apply IH. intros x Hx. apply H. now right.
Qed.

Lemma uniq_from_NoDup (seen l : list string) :
  NoDup l -> (forall x, x ∈ l -> x ∉ seen) -> uniq_from seen l = l.
Proof.
  revert seen. induction l as [|y r IH]; intros seen Hnd Hdis; simpl; [reflexivity|].
  apply NoDup_cons in Hnd as [Hy Hr].
  rewrite bool_decide_false by (apply Hdis; now left).
  f_equal. apply IH; [exact Hr|].
  intros x Hx [->|Hs]%elem_of_cons; [contradiction|].
  eapply Hdis; [right; exact Hx|exact Hs].
Qed.

Lemma uniq_from_app (seen seen' l m : list string) :
  (forall x, x ∈ seen' <-> x ∈ l \/ x ∈ seen) ->
  uniq_from seen (l ++ m) = uniq_from seen l ++ uniq_from seen' m.
Proof.
  revert seen seen'. induction l as [|y r IH]; intros seen seen' H; simpl.
  - apply uniq_from_ext. intros x. rewrite H. split; [auto|].
    intros [Hx|Hx]; [inversion Hx|exact Hx].
  - case_bool_decide as Hy.
    + apply IH. intros x. rewrite H, elem_of_cons. split.
      * intros [[->|?]|?]; auto.
      * intros [?|?]; auto.
    + simpl. f_equal. apply IH. intros x. rewrite H, !elem_of_cons. tauto.
Qed.

(** Re-reading a set that already holds the new values changes nothing. *)
Lemma arrayFromSet_absorb (l m : list string) :
  NoDup l -> (forall x, x ∈ m -> x ∈ l) -> arrayFromSet (l ++ m) = l.
Proof.
  intros Hnd Hsub. unfold arrayFromSet.
  rewrite (uniq_from_app [] l l m).
  - rewrite uniq_from_NoDup, uniq_from_covered, app_nil_r; auto.
    intros x _ Hx. inversion Hx.
  - intros x. split; [auto|]. intros [?|Hx]; [auto|inversion Hx].
Qed.

Lemma elem_of_arrayFromSet (l : list string) (x : string) :
  x ∈ arrayFromSet l <-> x ∈ l.
Proof.
  unfold arrayFromSet. rewrite elem_of_uniq_from. split; [tauto|].
  intros H. split; [exact H|]. intros Hx. inversion Hx.
Qed.

Lemma NoDup_arrayFromSet (l : list string) : NoDup (arrayFromSet l).
Proof. apply NoDup_uniq_from. Qed.

Lemma elem_of_filterBoolean (l : list string) (x : string) :
  x ∈ filterBoolean l <-> x ∈ l /\ x <> EmptyString.
Proof.
  unfold filterBoolean. rewrite !list_elem_of_In, filter_In, truthy_nonempty. reflexivity.
Qed.

End JsStringFacts.

(** ** Running sequences and handlers *)

Section RunFacts.

Context {A B : Type} (w : world).

Lemma run_bind (p : prog A) (f : A -> prog B) (s : w_state w) :
  run w (bind p f) s =
  match result (run w p s) with
  | Returned a =>
      let r' := run w (f a) (final (run w p s)) in
      {| result := result r';
         trace := trace (run w p s) ++ trace r';
         final := final r' |}
  | Threw e =>
      {| result := Threw e; trace := trace (run w p s); final := final (run w p s) |}
  end.
Proof.
  revert s. induction p as [a|e|c k IH|level label k IH]; intros s; simpl.
  - now destruct (run w (f a) s).
  - reflexivity.
  - destruct (w_respond w c s) as [x s']. rewrite IH.
    now destruct (result (run w (k x) s')).
  - rewrite IH. now destruct (result (run w k s)).
Qed.

Lemma run_try_catch (p : prog A) (h : exn -> prog A) (s : w_state w) :
  run w (try_catch p h) s =
  match result (run w p s) with
  | Returned a =>
      {| result := Returned a; trace := trace (run w p s); final := final (run w p s) |}
  | Threw e =>
      let r' := run w (h e) (final (run w p s)) in
      {| result := result r';
         trace := trace (run w p s) ++ trace r';
         final := final r' |}
  end.
Proof.
  revert s. induction p as [a|e|c k IH|level label k IH]; intros s; simpl.
  - reflexivity.
  - now destruct (run w (h e) s).
  - destruct (w_respond w c s) as [x s']. rewrite IH.
    now destruct (result (run w (k x) s')).
  - rewrite IH. now destruct (result (run w k s)).
Qed.

End RunFacts.

Lemma external_app (t1 t2 : list item) :
  external (t1 ++ t2) = external t1 ++ external t2.
Proof.
  induction t1 as [|[c|level label] r IH]; simpl; [reflexivity| |exact IH].
  now rewrite IH.
Qed.

Lemma written_app (c1 c2 : list call) :
  written (c1 ++ c2) = written c1 ++ written c2.
Proof.
  induction c1 as [|c r IH]; simpl; [reflexivity|].
  destruct c; simpl; now rewrite ?IH.
Qed.

(** ** The dispatch table of the handler *)

(** The vocabulary of the specification's dispatch table (one row per event
    type the handler acts on), and the handler's [switch] rewritten along
    it.  [Dispatch.table_correct] shows that the rewriting is the
    [switch] itself. *)
Module Dispatch.
Section Table.

Local Open Scope prog_scope.

Variable env : Env.

Inductive kind : Type :=
| CheckoutCompleted
| InvoiceSucceeded
| InvoiceFailed
| SubscriptionDeleted
| SubscriptionUpdated.

(** The event types with a [case] of their own. *)
Definition recognized (type : string) : option kind :=
  if String.eqb type "checkout.session.completed" then Some CheckoutCompleted
  else if String.eqb type "invoice.payment_succeeded" then Some InvoiceSucceeded
  else if String.eqb type "invoice.payment_failed" then Some InvoiceFailed
  else if String.eqb type "customer.subscription.deleted" then Some SubscriptionDeleted
  else if String.eqb type "customer.subscription.updated" then Some SubscriptionUpdated
  else None.

(** The row the handler acts on: a subscription update counts only with
    the embedded status [active]. *)
Definition acted_on (event : stripe_event) : option kind :=
  match recognized (ev_type event) with
  | Some SubscriptionUpdated =>
      if String.eqb (or_empty (Obj.status (ev_object event))) "active"
      then Some SubscriptionUpdated else None
  | k => k
  end.

(** Identity resolution: the email on the payload, or the secondary
    lookup through the billing provider. *)
Definition identity (k : kind) (event : stripe_event) : prog string :=
  let o := ev_object event in
  match k with
  | CheckoutCompleted => Ret (or_else (Obj.details_email o) (Obj.customer_email o))
  | InvoiceSucceeded | InvoiceFailed => Ret (or_empty (Obj.customer_email o))
  | SubscriptionDeleted =>
      Webhooks.customerEmail "[Canceled] Could not fetch customer email" (Obj.customer o)
  | SubscriptionUpdated =>
      Webhooks.customerEmail "[Sub Active] Could not fetch customer email" (Obj.customer o)
  end.

Definition missingEmail (k : kind) : string :=
  match k with
  | CheckoutCompleted => "[Trial] Missing email; skip upsert."
  | InvoiceSucceeded => "[Active] Missing email on invoice; skip upsert."
  | InvoiceFailed => "[Dunning] Missing email on invoice; skip upsert."
  | SubscriptionDeleted => "[Canceled] Missing email; skip upsert."
  | SubscriptionUpdated => "[Sub Active] Missing email; skip upsert."
  end.

(** The tags computed for the event: the stable status tags and the
    event tags. *)
Definition newTags (k : kind) (event : stripe_event) : list string :=
  let o := ev_object event in
  let subscriptionTag :=
    if JsString.truthy (or_empty (Obj.subscription o))
    then [TAGS.evt.sub (or_empty (Obj.subscription o))] else [] in
  match k with
  | CheckoutCompleted => [TAGS.STABLE.TRIAL; TAGS.evt.cs (or_empty (Obj.id o))]
  | InvoiceSucceeded =>
      [TAGS.STABLE.ACTIVE; TAGS.evt.in_ (or_empty (Obj.id o))] ++ subscriptionTag
  | InvoiceFailed =>
      [TAGS.STABLE.DUNNING; TAGS.evt.in_ (or_empty (Obj.id o))] ++ subscriptionTag
  | SubscriptionDeleted => [TAGS.STABLE.CANCELED; TAGS.evt.sub (or_empty (Obj.id o))]
  | SubscriptionUpdated =>
      [TAGS.STABLE.ACTIVE; TAGS.STABLE.SUB_ACTIVE; TAGS.evt.sub (or_empty (Obj.id o))]
  end.

(** The audit fields stamped on the contact. *)
Definition auditFields (k : kind) (event : stripe_event) (time : string)
  : list (string * string) :=
  let o := ev_object event in
  let common :=
    [("Stripe Customer ID", or_empty (Obj.customer o));
     ("Last Stripe Event Type", ev_type event);
     ("Last Stripe Event Time", time)] in
  match k with
  | CheckoutCompleted => ("Last Checkout Session ID", or_empty (Obj.id o)) :: common
  | InvoiceSucceeded | InvoiceFailed =>
      ("Last Invoice ID", or_empty (Obj.id o))
      :: ("Last Subscription ID", or_empty (Obj.subscription o)) :: common
  | SubscriptionDeleted | SubscriptionUpdated =>
      ("Last Subscription ID", or_empty (Obj.id o)) :: common
  end.

(** The arguments of the upsert. *)
Definition upsertArgs (k : kind) (event : stripe_event) (email time : string)
  : Payload.t :=
  let o := ev_object event in
  match k with
  | CheckoutCompleted =>
      Payload.make email
        (Some (fst (splitName (or_empty (Obj.details_name o)))))
        (Some (snd (splitName (or_empty (Obj.details_name o)))))
        (Some (or_empty (Obj.details_phone o)))
        (newTags k event) (auditFields k event time)
  | _ => Payload.make email None None None (newTags k event) (auditFields k event time)
  end.

(** What follows the upsert: the trial checkout also subscribes the
    contact to the mailing list. *)
Definition afterUpsert (k : kind) (event : stripe_event) (email : string) : prog unit :=
  match k with
  | CheckoutCompleted =>
      Webhooks.convertKitSubscribe env email
        (fst (splitName (or_empty (Obj.details_name (ev_object event)))))
  | _ => Ret tt
  end.

Definition table (event : stripe_event) : prog unit :=
  match acted_on event with
  | None => Ret tt
  | Some k =>
      email <- identity k event ;;
      if JsString.isEmpty email then console LogWarn (missingEmail k)
      else
        time <- lift (Webhooks.eventTime event) ;;
        Webhooks.ghlV1UpsertContact env (upsertArgs k event email time) ;;
        afterUpsert k event email
  end.

Lemma table_correct (event : stripe_event) :
  Webhooks.dispatch env event = table event.
Proof.
  unfold Webhooks.dispatch, table, acted_on, recognized.
  repeat (match goal with
          | |- context [String.eqb ?a ?b] => destruct (String.eqb a b)
          end; try reflexivity).
Qed.

End Table.
End Dispatch.

(** ** The lookup and the merging upsert against any world *)

Section UpsertFacts.

Import JsString JsStringFacts.

Variable env : Env.

Definition apiKeyOf : string := trim (or_empty (GHL_V1_API_KEY env)).
Definition locationIdOf : string := trim (or_empty (GHL_LOCATION_ID env)).

(** Both CRM settings are present. *)
Definition configured : Prop :=
  apiKeyOf <> EmptyString /\ locationIdOf <> EmptyString.

(** What the lookup makes of the answer to its request. *)
Definition contactOf (x : fetch_outcome) : jsval :=
  match x with
  | FetchRejects _ => JNull
  | FetchResponse r =>
      if res_ok r then
        match res_json r with
        | None => JNull
        | Some json =>
            match Js.opt json "contacts" with
            | JArr contacts => Js.first contacts
            | _ => Js.or (Js.opt json "contact") (Js.or json JNull)
            end
        end
      else JNull
  end.

(** The tag list the upsert sends, given the contact the lookup found. *)
Definition mergedTags (existing : jsval) (tags : list string) : list string :=
  match Webhooks.existingTagsOf existing with
  | inr existingTags => arrayFromSet (existingTags ++ arrayFromSet (cleanTags tags))
  | inl _ => arrayFromSet (cleanTags tags)
  end.

(** The body the upsert posts. *)
Definition payloadOf (existing : jsval) (args : Payload.t) : Payload.t :=
  Payload.make (Payload.email args) (Payload.firstName args) (Payload.lastName args)
    (Payload.phone args) (mergedTags existing (Payload.tags args))
    (Payload.customFields args).

Lemma lookup_run (w : world) (s : w_state w) (email : string) :
  configured -> email <> EmptyString ->
  let c := GhlGetContacts apiKeyOf locationIdOf email in
  run w (Webhooks.ghlV1GetContactByEmail env email) s =
  {| result := Returned (contactOf (fst (w_respond w c s)));
     trace := [Called c];
     final := snd (w_respond w c s) |}.
Proof.
  intros [Hk Hl] He. unfold Webhooks.ghlV1GetContactByEmail.
  apply isEmpty_false in Hk, Hl, He. fold apiKeyOf locationIdOf.
  rewrite Hk, Hl, He. simpl.
  destruct (w_respond w (GhlGetContacts apiKeyOf locationIdOf email) s) as [x s'].
  destruct x as [m|r]; simpl; [reflexivity|].
  destruct (res_ok r); simpl; [|reflexivity].
  destruct (res_json r); reflexivity.
Qed.

(** The run of the merging upsert: the contact is read, then written with
    the merged tags; a rejected write is thrown to the caller, any
    response is returned from. *)
Lemma upsert_run (w : world) (s : w_state w) (args : Payload.t) :
  configured -> Payload.email args <> EmptyString ->
  let get := GhlGetContacts apiKeyOf locationIdOf (Payload.email args) in
  let existing := contactOf (fst (w_respond w get s)) in
  let post := GhlPostContacts apiKeyOf locationIdOf (payloadOf existing args) in
  let answer := w_respond w post (snd (w_respond w get s)) in
  let r := run w (Webhooks.ghlV1UpsertContact env args) s in
  external (trace r) = [get; post]
  /\ final r = snd answer
  /\ result r
     = match fst answer with
       | FetchRejects m => Threw (FetchError m)
       | FetchResponse r0 =>
           Returned
             (if res_ok r0
              then match res_body r0 with
                   | JsonBody json => json
                   | TextBody text => JObj [("raw", JStr text)]
                   end
              else JUndefined)
       end.
Proof.
  intros Hc He. pose proof Hc as [Hk Hl]. cbv zeta.
  unfold Webhooks.ghlV1UpsertContact.
  apply isEmpty_false in Hk, Hl. pose proof He as He'. apply isEmpty_false in He'.
  fold apiKeyOf locationIdOf. rewrite He', Hk, Hl. cbn [orb].
  rewrite run_bind, run_try_catch, run_bind, (lookup_run w s _ Hc He).
  cbn [result trace final].
  unfold payloadOf, mergedTags.
  set (x := fst (w_respond w (GhlGetContacts apiKeyOf locationIdOf (Payload.email args)) s)).
  set (s1 := snd (w_respond w (GhlGetContacts apiKeyOf locationIdOf (Payload.email args)) s)).
  destruct (Webhooks.existingTagsOf (contactOf x)) as [e|existingTags]; simpl.
  - destruct (w_respond w _ s1) as [y s2]. destruct y as [m|r]; simpl; [auto|].
    destruct (res_ok r); simpl; auto.
  - destruct (w_respond w _ s1) as [y s2]. destruct y as [m|r]; simpl; [auto|].
    destruct (res_ok r); simpl; auto.
Qed.

(** Nothing leaves the process when the email or the settings are missing. *)
Lemma upsert_skipped (w : world) (s : w_state w) (args : Payload.t) :
  Payload.email args = EmptyString \/ ~ configured ->
  let r := run w (Webhooks.ghlV1UpsertContact env args) s in
  external (trace r) = [] /\ final r = s /\ result r = Returned JUndefined.
Proof.
  intros H. cbv zeta. unfold Webhooks.ghlV1UpsertContact.
  destruct (isEmpty (Payload.email args)) eqn:He; [simpl; auto|].
  destruct H as [H|H]; [apply isEmpty_false in He; contradiction|].
  fold apiKeyOf locationIdOf.
  destruct (isEmpty apiKeyOf) eqn:Hk; [simpl; auto|].
  destruct (isEmpty locationIdOf) eqn:Hl; [simpl; auto|].
  exfalso. apply H. split; now apply isEmpty_false.
Qed.

End UpsertFacts.

Section RunSteps.

Context {A B : Type} (w : world).

Lemma run_bind_returned (p : prog A) (f : A -> prog B) (s : w_state w) (a : A) :
  result (run w p s) = Returned a ->
  run w (bind p f) s =
  {| result := result (run w (f a) (final (run w p s)));
     trace := trace (run w p s) ++ trace (run w (f a) (final (run w p s)));
     final := final (run w (f a) (final (run w p s))) |}.
Proof. intros H. rewrite run_bind, H. reflexivity. Qed.

Lemma run_bind_threw (p : prog A) (f : A -> prog B) (s : w_state w) (e : exn) :
  result (run w p s) = Threw e ->
  run w (bind p f) s =
  {| result := Threw e; trace := trace (run w p s); final := final (run w p s) |}.
Proof. intros H. rewrite run_bind, H. reflexivity. Qed.

Lemma run_catch_returned (p : prog A) (h : exn -> prog A) (s : w_state w) (a : A) :
  result (run w p s) = Returned a ->
  run w (try_catch p h) s =
  {| result := Returned a; trace := trace (run w p s); final := final (run w p s) |}.
Proof. intros H. rewrite run_try_catch, H. reflexivity. Qed.

Lemma run_catch_threw (p : prog A) (h : exn -> prog A) (s : w_state w) (e : exn) :
  result (run w p s) = Threw e ->
  run w (try_catch p h) s =
  {| result := result (run w (h e) (final (run w p s)));
     trace := trace (run w p s) ++ trace (run w (h e) (final (run w p s)));
     final := final (run w (h e) (final (run w p s))) |}.
Proof. intros H. rewrite run_try_catch, H. reflexivity. Qed.

End RunSteps.

(** ** The handler against any world *)

Section HandlerFacts.

Import JsString JsStringFacts.

Variable env : Env.
Variable w : world.

Definition ok200 : http_response :=
  {| http_status := 200; http_body_of := BodyJsonReceived |}.

Definition error500 : http_response :=
  {| http_status := 500; http_body_of := BodyText "Server error" |}.

(** The secondary lookup never throws, and asks the billing provider at
    most once. *)
Lemma customerEmail_run (label : string) (customerId : option string) (s : w_state w) :
  let r := run w (Webhooks.customerEmail label customerId) s in
  (exists email, result r = Returned email)
  /\ (external (trace r) = []
      \/ external (trace r) = [StripeCustomersRetrieve (or_empty customerId)]).
Proof.
  cbv zeta. unfold Webhooks.customerEmail.
  destruct (truthy (or_empty customerId)); simpl; [|eauto].
  destruct (w_respond w _ s) as [[e|c] s']; simpl; eauto.
Qed.

(** Identity resolution never throws; at most it asks the billing provider
    for the customer. *)
Lemma identity_run (k : Dispatch.kind) (event : stripe_event) (s : w_state w) :
  let r := run w (Dispatch.identity k event) s in
  (exists email, result r = Returned email)
  /\ (external (trace r) = []
      \/ external (trace r)
         = [StripeCustomersRetrieve (or_empty (Obj.customer (ev_object event)))]).
Proof.
  destruct k; simpl; eauto; apply customerEmail_run.
Qed.

Lemma identity_writes_nothing (k : Dispatch.kind) (event : stripe_event) (s : w_state w) :
  let r := run w (Dispatch.identity k event) s in
  written (external (trace r)) = [] /\ List.filter is_write (external (trace r)) = [].
Proof.
  cbv zeta. destruct (identity_run k event s) as [_ [H|H]]; rewrite H; auto.
Qed.

(** The mailing-list subscription never throws and never writes to the CRM. *)
Lemma subscribeTags_run (key email : string) (tagIds : list string) (s : w_state w) :
  let r := run w (Webhooks.subscribeTags key email tagIds) s in
  result r = Returned tt /\ written (external (trace r)) = [].
Proof.
  cbv zeta. revert s. induction tagIds as [|tagId rest IH]; intros s; [simpl; auto|].
  cbn [Webhooks.subscribeTags].
  rewrite run_bind. simpl.
  destruct (w_respond w (ConvertKitTagSubscribe tagId key email) s) as [[m|r] s'];
    simpl; destruct (IH s') as [Hr Hw]; rewrite Hr, Hw; auto.
Qed.

Lemma convertKitSubscribe_run (email firstName : string) (s : w_state w) :
  let r := run w (Webhooks.convertKitSubscribe env email firstName) s in
  result r = Returned tt /\ written (external (trace r)) = [].
Proof.
  cbv zeta. unfold Webhooks.convertKitSubscribe.
  destruct (isEmpty (or_empty (CONVERTKIT_API_KEY env))); [simpl; auto|].
  rewrite run_bind.
  destruct (truthy (or_empty (CONVERTKIT_FORM_ID env))); simpl.
  - destruct (w_respond w _ s) as [[m|r] s']; simpl;
      match goal with
      | |- context [run w (Webhooks.subscribeTags ?k ?e ?l) ?st] =>
          destruct (subscribeTags_run k e l st) as [Hr Hw]; rewrite Hr, Hw; auto
      end.
  - match goal with
    | |- context [run w (Webhooks.subscribeTags ?k ?e ?l) ?st] =>
        destruct (subscribeTags_run k e l st) as [Hr Hw]; rewrite Hr, Hw; auto
    end.
Qed.

Lemma afterUpsert_run (k : Dispatch.kind) (event : stripe_event) (email : string)
    (s : w_state w) :
  let r := run w (Dispatch.afterUpsert env k event email) s in
  result r = Returned tt /\ written (external (trace r)) = [].
Proof.
  destruct k; simpl; auto. apply convertKitSubscribe_run.
Qed.

End HandlerFacts.

Section ProcessEvent.

Import JsString JsStringFacts.

Variable env : Env.
Variable w : world.

(** An event the handler does not act on is acknowledged and nothing else
    happens. *)
Lemma processEvent_ignored (event : stripe_event) (s : w_state w) :
  Dispatch.acted_on event = None ->
  run w (Webhooks.processEvent env event) s =
  {| result := Returned ok200; trace := []; final := s |}.
Proof.
  intros H. unfold Webhooks.processEvent.
  rewrite Dispatch.table_correct. unfold Dispatch.table. rewrite H. reflexivity.
Qed.

(** Without an email the event is logged and dropped. *)
Lemma processEvent_no_email (event : stripe_event) (k : Dispatch.kind) (s : w_state w) :
  Dispatch.acted_on event = Some k ->
  let look := run w (Dispatch.identity k event) s in
  result look = Returned EmptyString ->
  run w (Webhooks.processEvent env event) s =
  {| result := Returned ok200;
     trace := trace look ++ [Logged LogWarn (Dispatch.missingEmail k)];
     final := final look |}.
Proof.
  intros H look Hlook. unfold Webhooks.processEvent.
  rewrite Dispatch.table_correct. unfold Dispatch.table. rewrite H.
  rewrite run_try_catch, run_bind, run_bind. fold look. rewrite Hlook. simpl.
  rewrite app_nil_r. reflexivity.
Qed.

(** An event time outside the range of [Date] ends in the handler's
    [catch]. *)
Lemma processEvent_bad_time (event : stripe_event) (k : Dispatch.kind) (s : w_state w)
    (email : string) (e : exn) :
  Dispatch.acted_on event = Some k ->
  let look := run w (Dispatch.identity k event) s in
  result look = Returned email -> email <> EmptyString ->
  Webhooks.eventTime event = inl e ->
  run w (Webhooks.processEvent env event) s =
  {| result := Returned error500;
     trace := trace look ++ [Logged LogError "[Webhook handler] Error:"];
     final := final look |}.
Proof.
  intros H look Hlook He Ht. unfold Webhooks.processEvent.
  rewrite Dispatch.table_correct. unfold Dispatch.table. rewrite H.
  rewrite run_try_catch, run_bind, run_bind. fold look. rewrite Hlook.
  apply isEmpty_false in He. cbv zeta. cbn [result final trace]. rewrite He, Ht.
  simpl. rewrite app_nil_r. reflexivity.
Qed.

(** With an email, a valid time and the CRM settings, the contact is read
    and then written; a rejected write makes the handler answer 500, any
    response to the write lets it go on and answer 200. *)
Lemma processEvent_upsert (event : stripe_event) (k : Dispatch.kind) (s : w_state w)
    (email time : string) :
  Dispatch.acted_on event = Some k ->
  let look := run w (Dispatch.identity k event) s in
  result look = Returned email -> email <> EmptyString ->
  Webhooks.eventTime event = inr time ->
  configured env ->
  let get := GhlGetContacts (apiKeyOf env) (locationIdOf env) email in
  let existing := contactOf (fst (w_respond w get (final look))) in
  let args := Dispatch.upsertArgs k event email time in
  let post := GhlPostContacts (apiKeyOf env) (locationIdOf env) (payloadOf existing args) in
  let answer := w_respond w post (snd (w_respond w get (final look))) in
  let r := run w (Webhooks.processEvent env event) s in
  match fst answer with
  | FetchRejects _ =>
      result r = Returned error500
      /\ external (trace r) = external (trace look) ++ [get; post]
      /\ final r = snd answer
  | FetchResponse _ =>
      let after := run w (Dispatch.afterUpsert env k event email) (snd answer) in
      result r = Returned ok200
      /\ external (trace r) = external (trace look) ++ [get; post] ++ external (trace after)
      /\ final r = final after
  end.
Proof.
  intros H look Hlook He Ht Hc get existing args post answer r.
  assert (Hargs : Payload.email args = email) by (subst args; now destruct k).
  destruct (upsert_run env w (final look) args Hc) as (Htr & Hfin & Hres).
  { now rewrite Hargs. }
  rewrite Hargs in Htr, Hfin, Hres.
  fold get existing in Htr, Hfin, Hres. fold post in Htr, Hfin, Hres.
  fold answer in Hfin, Hres.
  subst r. unfold Webhooks.processEvent.
  rewrite Dispatch.table_correct. unfold Dispatch.table. rewrite H.
  rewrite run_try_catch, run_bind, run_bind. fold look. rewrite Hlook.
  apply isEmpty_false in He. cbv zeta. cbn [result final trace]. rewrite He.
  rewrite run_bind. rewrite Ht. cbn [lift run result final trace app].
  rewrite run_bind. fold args.
  destruct (fst answer) as [m|resp0].
  - rewrite Hres. cbn [result final trace run console].
    rewrite !external_app, Htr. simpl. rewrite app_nil_r. auto.
  - rewrite Hres. cbv zeta. cbn [result final trace].
    rewrite Hfin.
    destruct (afterUpsert_run env w k event email (snd answer)) as [Hr _].
    cbv zeta in Hr. rewrite Hr. cbn [result final trace run].
    rewrite !external_app, Htr. simpl. rewrite app_nil_r. auto.
Qed.

End ProcessEvent.

(** ** A reference CRM *)

(** The CRM as the code takes it to be: contacts keyed by email, each with
    a tag list and custom fields; a contact write stores the tags and
    fields it carries (which is why the upsert reads before it writes), and
    the lookup returns what is stored.  The billing provider answers from a
    fixed customer table, and the mailing list accepts everything. *)
Module Crm.

Record contact : Type := make {
  tags : list string;
  customFields : list (string * string)
}.

(** Faults to inject: the lookup or the write is rejected by the network,
    or the write is answered with a server error. *)
Record faults : Type := {
  lookup_rejects : bool;
  write_rejects : bool;
  write_status : Z
}.

Definition healthy : faults :=
  {| lookup_rejects := false; write_rejects := false; write_status := 200 |}.

Definition contactJson (email : string) (c : contact) : jsval :=
  JObj [("email", JStr email); ("tags", JArr (List.map JStr (tags c)))].

Section Model.

Variable customers : string -> exn + stripe_customer.
Variable f : faults.

Definition write (p : Payload.t) (store : gmap string contact)
  : fetch_outcome * gmap string contact :=
  if write_rejects f then (FetchRejects "fetch failed", store)
  else if (200 <=? write_status f) && (write_status f <=? 299) then
    (FetchResponse {| res_status := write_status f;
                      res_body := JsonBody (JObj [("contact", JObj [("id", JStr (Payload.email p))])]) |},
     <[Payload.email p := make (Payload.tags p) (Payload.customFields p)]> store)
  else
    (FetchResponse {| res_status := write_status f; res_body := TextBody "error" |}, store).

Definition respond (c : call) (store : gmap string contact)
  : resp c * gmap string contact :=
  match c as c0 return resp c0 * gmap string contact with
  | StripeCustomersRetrieve customerId => (customers customerId, store)
  | GhlGetContacts _ _ query =>
      if lookup_rejects f then (FetchRejects "fetch failed", store)
      else
        (FetchResponse
           {| res_status := 200;
              res_body :=
                JsonBody
                  (JObj [("contacts",
                          JArr (match store !! query with
                                | Some c => [contactJson query c]
                                | None => []
                                end))]) |},
         store)
  | GhlPostContacts _ _ p => write p store
  | GhlPostContactsUpsert _ _ p => write p store
  | ConvertKitFormSubscribe _ _ _ _ | ConvertKitTagSubscribe _ _ _ =>
      (FetchResponse {| res_status := 200; res_body := JsonBody (JObj []) |}, store)
  | GhlGetOpportunities _ _ _ | GhlGetPipeline _ _ _ =>
      (FetchResponse {| res_status := 404; res_body := TextBody "Not Found" |}, store)
  end.

Definition world : world :=
  {| w_state := gmap string contact; w_respond := respond |}.

End Model.
End Crm.

(** ** Sample inputs *)

Module Sample.

Definition env : Env :=
  {| GHL_V1_API_KEY := Some "v1-key";
     GHL_LOCATION_ID := Some "loc-1";
     CONVERTKIT_API_KEY := None;
     CONVERTKIT_FORM_ID := None;
     CONVERTKIT_TAG_IDS := None;
     STRIPE_WEBHOOK_SECRET := Some "whsec_test" |}.

(** A stand-in for the SDK's verification: the signature header must name
    the secret, and the body is then read as [event]. *)
Definition constructEvent (event : stripe_event)
    (body : string) (sig secret : option string) : exn + stripe_event :=
  match sig, secret with
  | Some given, Some expected =>
      if String.eqb given ("v1=" +:+ expected) then inr event
      else inl (StripeError "No signatures found matching the expected signature for payload")
  | _, _ => inl (StripeError "No stripe-signature header value was provided")
  end.

Definition signed : request :=
  {| req_body := "{}"; req_signature := Some "v1=whsec_test" |}.

Definition missigned : request :=
  {| req_body := "{}"; req_signature := Some "v1=forged" |}.

Definition customers (customerId : string) : exn + stripe_customer :=
  if String.eqb customerId "cus_1" then inr {| cust_email := Some "a@x.com" |}
  else if String.eqb customerId "cus_2" then inr {| cust_email := None |}
  else inl (StripeError "No such customer").

Definition noObject : Obj.t := Obj.make None None None None None None.

(** [checkout.session.completed] for Jane Doe, session [cs_1]. *)
Definition checkout : stripe_event :=
  {| ev_type := "checkout.session.completed";
     ev_created := 1700000000;
     ev_object :=
       Obj.make (Some (Details.make (Some "a@x.com") (Some "Jane Doe") None))
         None (Some "cus_1") (Some "cs_1") None None |}.

(** [invoice.payment_failed] without an email on the invoice. *)
Definition invoiceNoEmail : stripe_event :=
  {| ev_type := "invoice.payment_failed";
     ev_created := 1700000000;
     ev_object := Obj.make None None (Some "cus_1") (Some "in_1") (Some "sub_1") None |}.

(** [customer.subscription.updated] with the given status. *)
Definition subscriptionUpdated (status : string) : stripe_event :=
  {| ev_type := "customer.subscription.updated";
     ev_created := 1700000000;
     ev_object := Obj.make None None (Some "cus_1") (Some "sub_1") None (Some status) |}.

(** A contact whose stored tags carry surrounding white space. *)
Definition store : gmap string Crm.contact :=
  {[ "a@x.com" := Crm.make [" vip "; "fc:trial_checkout"] [] ]}.

End Sample.

(** ** The route handler *)

Section RouteFacts.

Import JsString JsStringFacts.

Variable env : Env.
Variable constructEvent : string -> option string -> option string -> exn + stripe_event.
Variable w : world.

(** A request verifies as [event]. *)
Definition verifies (req : request) (event : stripe_event) : Prop :=
  constructEvent (req_body req) (req_signature req) (STRIPE_WEBHOOK_SECRET env)
  = inr event.

Lemma route_verified (req : request) (event : stripe_event) :
  verifies req event ->
  Webhooks.registerStripeWebhooks env constructEvent req = Webhooks.processEvent env event.
Proof. unfold verifies, Webhooks.registerStripeWebhooks. now intros ->. Qed.

Lemma acted_on_recognized (event : stripe_event) (k : Dispatch.kind) :
  Dispatch.acted_on event = Some k -> Dispatch.recognized (ev_type event) = Some k.
Proof.
  unfold Dispatch.acted_on.
  destruct (Dispatch.recognized (ev_type event)) as [[]|]; try congruence.
  destruct (String.eqb _ _); congruence.
Qed.

Lemma status_active (st : option string) :
  String.eqb (or_empty st) "active" = true <-> st = Some "active".
Proof.
  rewrite String.eqb_eq. destruct st as [x|]; simpl; split; intros H;
    try congruence; try discriminate.
Qed.

(** A clean tag asked for is a tag sent, whatever the contact holds. *)
Lemma mergedTags_new (existing : jsval) (tags : list string) (t : string) :
  t ∈ tags -> trim t = t -> t <> EmptyString -> t ∈ mergedTags existing tags.
Proof.
  intros Hin Htrim Hne.
  assert (Hclean : t ∈ arrayFromSet (cleanTags tags)).
  { apply elem_of_arrayFromSet. unfold cleanTags. apply elem_of_filterBoolean.
    split; [|exact Hne]. rewrite <- Htrim. now apply list_elem_of_fmap_2. }
  unfold mergedTags. destruct (Webhooks.existingTagsOf existing); [exact Hclean|].
  apply elem_of_arrayFromSet, elem_of_app. now right.
Qed.

End RouteFacts.

(** A literal tag among the event's new tags is among the tags sent. *)
Ltac tag_is_sent :=
  apply mergedTags_new; [simpl; set_solver | reflexivity | discriminate].

(** With an email, a valid time and the CRM settings, the handler writes
    exactly one contact body: the event's arguments with the tags merged
    into what the lookup found. *)
Lemma processEvent_written (env : Env) (w : world) (event : stripe_event)
    (k : Dispatch.kind) (s : w_state w) (email time : string) :
  Dispatch.acted_on event = Some k ->
  let look := run w (Dispatch.identity k event) s in
  result look = Returned email -> email <> EmptyString ->
  Webhooks.eventTime event = inr time ->
  configured env ->
  let get := GhlGetContacts (apiKeyOf env) (locationIdOf env) email in
  let existing := contactOf (fst (w_respond w get (final look))) in
  let p := payloadOf existing (Dispatch.upsertArgs k event email time) in
  let r := run w (Webhooks.processEvent env event) s in
  written (external (trace r)) = [p]
  /\ exists before after,
       external (trace r)
       = before ++ [get; GhlPostContacts (apiKeyOf env) (locationIdOf env) p] ++ after
       /\ before = external (trace look)
       /\ written before = [] /\ written after = [].
Proof.
  intros Hact look Hlook Hne Htime Hconf get existing p r.
  pose proof (processEvent_upsert env w event k s email time Hact Hlook Hne Htime Hconf)
    as Hup.
  cbv zeta in Hup. fold look get existing p in Hup. fold r in Hup.
  destruct (identity_writes_nothing w k event s) as [Hw0 _]. fold look in Hw0.
  destruct (fst (w_respond w (GhlPostContacts (apiKeyOf env) (locationIdOf env) p)
                   (snd (w_respond w get (final look))))).
  - destruct Hup as (_ & Htr & _). rewrite Htr, written_app, Hw0. split; [reflexivity|].
    exists (external (trace look)), []. auto.
  - destruct Hup as (_ & Htr & _).
    destruct (afterUpsert_run env w k event email
                (snd (w_respond w (GhlPostContacts (apiKeyOf env) (locationIdOf env) p)
                        (snd (w_respond w get (final look)))))) as [_ Hw1].
    cbv zeta in Hw1. rewrite Htr, !written_app, Hw0, Hw1. split; [reflexivity|].
    eexists _, _. split; [reflexivity|]. auto.
Qed.

(** * Properties of the specification *)

(** C3. A request whose body and signature fail verification is answered
    with status 400, a client error, carrying the verification error's
    message; no call leaves the process, the only trace is the error line
    on the console, and the world is left as it was. *)
Theorem C3_bad_signature_rejected
    (env : Env)
    (constructEvent : string -> option string -> option string -> exn + stripe_event)
    (w : world) (s : w_state w) (req : request) (err : exn) :
  constructEvent (req_body req) (req_signature req) (STRIPE_WEBHOOK_SECRET env) = inl err ->
  let r := run w (Webhooks.registerStripeWebhooks env constructEvent req) s in
  exists res : http_response,
    result r = Returned res
    /\ 400 <= http_status res < 500
    /\ http_status res = 400
    /\ http_body_of res = BodyText ("Webhook Error: " +:+ exn_message err)
    /\ external (trace r) = []
    /\ trace r = [Logged LogError "[Stripe] Signature verification failed:"]
    /\ final r = s.
Proof.
  intros H. cbv zeta. unfold Webhooks.registerStripeWebhooks. rewrite H. simpl.
  eexists. split; [reflexivity|]. simpl. repeat split; lia.
Qed.

Lemma C3_witness :
  let r := run (Crm.world Sample.customers Crm.healthy)
             (Webhooks.registerStripeWebhooks Sample.env
                (Sample.constructEvent Sample.checkout) Sample.missigned)
             Sample.store in
  exists res : http_response,
    result r = Returned res
    /\ 400 <= http_status res < 500
    /\ http_status res = 400
    /\ http_body_of res
       = BodyText "Webhook Error: No signatures found matching the expected signature for payload"
    /\ external (trace r) = []
    /\ trace r = [Logged LogError "[Stripe] Signature verification failed:"]
    /\ final r = Sample.store.
Proof.
  apply (C3_bad_signature_rejected Sample.env (Sample.constructEvent Sample.checkout)
           (Crm.world Sample.customers Crm.healthy) Sample.store Sample.missigned
           (StripeError "No signatures found matching the expected signature for payload")).
  reflexivity.
Defined.

(** C4. A recognized billing event whose identity resolution yields no
    email is dropped: the handler answers 200, no write call is made (at
    most the billing provider was asked for the customer), and where the
    handler acted on the event the drop is logged. *)
Theorem C4_no_email_event_dropped
    (env : Env)
    (constructEvent : string -> option string -> option string -> exn + stripe_event)
    (w : world) (s : w_state w) (req : request) (event : stripe_event)
    (k : Dispatch.kind) :
  verifies env constructEvent req event ->
  Dispatch.recognized (ev_type event) = Some k ->
  result (run w (Dispatch.identity k event) s) = Returned EmptyString ->
  let r := run w (Webhooks.registerStripeWebhooks env constructEvent req) s in
  result r = Returned ok200
  /\ List.filter is_write (external (trace r)) = []
  /\ written (external (trace r)) = []
  /\ (external (trace r) = []
      \/ external (trace r)
         = [StripeCustomersRetrieve (or_empty (Obj.customer (ev_object event)))])
  /\ (Dispatch.acted_on event = Some k ->
      In (Logged LogWarn (Dispatch.missingEmail k)) (trace r)).
Proof.
  intros Hv Hk Hid. cbv zeta. rewrite (route_verified _ _ _ _ Hv).
  destruct (Dispatch.acted_on event) as [k'|] eqn:Hact.
  - pose proof (acted_on_recognized _ _ Hact) as Hk'.
    assert (k' = k) by congruence. subst k'.
    rewrite (processEvent_no_email env w event k s Hact Hid). cbn [result trace final].
    rewrite external_app, app_nil_r.
    destruct (identity_run w k event s) as [_ Hcalls].
    repeat split.
    + destruct Hcalls as [H|H]; rewrite H; reflexivity.
    + destruct Hcalls as [H|H]; rewrite H; reflexivity.
    + exact Hcalls.
    + intros _. apply in_or_app. right. now left.
  - rewrite (processEvent_ignored env w event s Hact). cbn [result trace final external].
    repeat split; auto. discriminate.
Qed.

Lemma C4_witness :
  let r := run (Crm.world Sample.customers Crm.healthy)
             (Webhooks.registerStripeWebhooks Sample.env
                (Sample.constructEvent Sample.invoiceNoEmail) Sample.signed)
             Sample.store in
  result r = Returned ok200
  /\ List.filter is_write (external (trace r)) = []
  /\ written (external (trace r)) = []
  /\ (external (trace r) = []
      \/ external (trace r) = [StripeCustomersRetrieve "cus_1"])
  /\ (Dispatch.acted_on Sample.invoiceNoEmail = Some Dispatch.InvoiceFailed ->
      In (Logged LogWarn "[Dunning] Missing email on invoice; skip upsert.") (trace r)).
Proof.
  apply (C4_no_email_event_dropped Sample.env
           (Sample.constructEvent Sample.invoiceNoEmail)
           (Crm.world Sample.customers Crm.healthy) Sample.store Sample.signed
           Sample.invoiceNoEmail Dispatch.InvoiceFailed); reflexivity.
Defined.

(** The secondary lookup when the billing provider knows the customer. *)
Lemma customerEmail_found (w : world) (s : w_state w) (label cid : string)
    (c : stripe_customer) :
  cid <> EmptyString ->
  fst (w_respond w (StripeCustomersRetrieve cid) s) = inr c ->
  run w (Webhooks.customerEmail label (Some cid)) s =
  {| result := Returned (or_empty (cust_email c));
     trace := [Called (StripeCustomersRetrieve cid)];
     final := snd (w_respond w (StripeCustomersRetrieve cid) s) |}.
Proof.
  intros Hne Hc. unfold Webhooks.customerEmail. simpl or_empty.
  apply JsStringFacts.truthy_nonempty in Hne. rewrite Hne. simpl.
  destruct (w_respond w (StripeCustomersRetrieve cid) s) as [x s']. simpl in Hc.
  subst x. reflexivity.
Qed.

(** C7. A [customer.subscription.updated] event whose embedded status is
    not [active] makes no call at all.  With status [active], a customer
    the billing provider resolves to an email, a representable event time
    and the CRM settings, the handler asks the billing provider, reads the
    contact and writes it, and the body written carries both
    [fc:payment_succeeded] and [fc:sub_active]. *)
Theorem C7_subscription_updated_only_when_active
    (env : Env)
    (constructEvent : string -> option string -> option string -> exn + stripe_event)
    (w : world) (s : w_state w) (req : request) (event : stripe_event) :
  verifies env constructEvent req event ->
  ev_type event = "customer.subscription.updated" ->
  let r := run w (Webhooks.registerStripeWebhooks env constructEvent req) s in
  (Obj.status (ev_object event) <> Some "active" ->
   result r = Returned ok200 /\ trace r = [] /\ final r = s)
  /\ (Obj.status (ev_object event) = Some "active" ->
      forall (cid email time : string),
        Obj.customer (ev_object event) = Some cid -> cid <> EmptyString ->
        fst (w_respond w (StripeCustomersRetrieve cid) s)
        = inr {| cust_email := Some email |} ->
        email <> EmptyString ->
        Webhooks.eventTime event = inr time ->
        configured env ->
        exists p : Payload.t,
          external (trace r)
          = [StripeCustomersRetrieve cid;
             GhlGetContacts (apiKeyOf env) (locationIdOf env) email;
             GhlPostContacts (apiKeyOf env) (locationIdOf env) p]
          /\ Payload.email p = email
          /\ TAGS.STABLE.ACTIVE ∈ Payload.tags p
          /\ TAGS.STABLE.SUB_ACTIVE ∈ Payload.tags p).
Proof.
  intros Hv Ht. cbv zeta. rewrite (route_verified _ _ _ _ Hv).
  assert (Hrec : Dispatch.recognized (ev_type event) = Some Dispatch.SubscriptionUpdated)
    by (rewrite Ht; reflexivity).
  split.
  - intros Hst.
    assert (Hact : Dispatch.acted_on event = None).
    { unfold Dispatch.acted_on. rewrite Hrec.
      destruct (String.eqb _ _) eqn:E; [|reflexivity].
      apply status_active in E. contradiction. }
    rewrite (processEvent_ignored env w event s Hact). auto.
  - intros Hst cid email time Hcid Hne Hcust Hemail Htime Hconf.
    assert (Hact : Dispatch.acted_on event = Some Dispatch.SubscriptionUpdated).
    { unfold Dispatch.acted_on. rewrite Hrec.
      apply status_active in Hst. now rewrite Hst. }
    pose proof (customerEmail_found w s
                  "[Sub Active] Could not fetch customer email" cid _ Hne Hcust) as Hid.
    assert (Hlook : run w (Dispatch.identity Dispatch.SubscriptionUpdated event) s
                    = {| result := Returned email;
                         trace := [Called (StripeCustomersRetrieve cid)];
                         final := snd (w_respond w (StripeCustomersRetrieve cid) s) |}).
    { unfold Dispatch.identity. rewrite Hcid. exact Hid. }
    pose proof (processEvent_upsert env w event Dispatch.SubscriptionUpdated s email time
                  Hact) as Hup.
    cbv zeta in Hup. rewrite Hlook in Hup. cbn [result trace final external] in Hup.
    specialize (Hup eq_refl Hemail Htime Hconf).
    match type of Hup with
    | match fst (w_respond w (GhlPostContacts _ _ ?p) _) with _ => _ end =>
        exists p; destruct (fst (w_respond w (GhlPostContacts _ _ p) _))
    end.
    + destruct Hup as (_ & Htr & _). rewrite Htr. repeat split.
      * tag_is_sent.
      * tag_is_sent.
    + destruct Hup as (_ & Htr & _). rewrite Htr. repeat split.
      * tag_is_sent.
      * tag_is_sent.
Qed.

Lemma sample_configured : configured Sample.env.
Proof. split; intros H; vm_compute in H; discriminate. Qed.

Lemma C7_witness :
  (let r := run (Crm.world Sample.customers Crm.healthy)
              (Webhooks.registerStripeWebhooks Sample.env
                 (Sample.constructEvent (Sample.subscriptionUpdated "past_due"))
                 Sample.signed)
              Sample.store in
   result r = Returned ok200 /\ trace r = [] /\ final r = Sample.store)
  /\ (let r := run (Crm.world Sample.customers Crm.healthy)
                 (Webhooks.registerStripeWebhooks Sample.env
                    (Sample.constructEvent (Sample.subscriptionUpdated "active"))
                    Sample.signed)
                 Sample.store in
      exists p : Payload.t,
        external (trace r)
        = [StripeCustomersRetrieve "cus_1";
           GhlGetContacts (apiKeyOf Sample.env) (locationIdOf Sample.env) "a@x.com";
           GhlPostContacts (apiKeyOf Sample.env) (locationIdOf Sample.env) p]
        /\ Payload.email p = "a@x.com"
        /\ TAGS.STABLE.ACTIVE ∈ Payload.tags p
        /\ TAGS.STABLE.SUB_ACTIVE ∈ Payload.tags p).
Proof.
  split.
  - apply (proj1 (C7_subscription_updated_only_when_active Sample.env
                    (Sample.constructEvent (Sample.subscriptionUpdated "past_due"))
                    (Crm.world Sample.customers Crm.healthy) Sample.store Sample.signed
                    (Sample.subscriptionUpdated "past_due") eq_refl eq_refl)).
    discriminate.
  - apply (proj2 (C7_subscription_updated_only_when_active Sample.env
                    (Sample.constructEvent (Sample.subscriptionUpdated "active"))
                    (Crm.world Sample.customers Crm.healthy) Sample.store Sample.signed
                    (Sample.subscriptionUpdated "active") eq_refl eq_refl)
             eq_refl "cus_1" "a@x.com" "2023-11-14T22:13:20.000Z" eq_refl).
    + discriminate.
    + reflexivity.
    + discriminate.
    + reflexivity.
    + exact sample_configured.
Defined.

(** C8. For a [checkout.session.completed] event with customer details
    email [a@x.com], name [Jane Doe] and session id [cs_1], the handler's
    case is: compute the event time, call the upsert with tags
    [fc:trial_checkout] and [evt:cs_cs_1], first name [Jane] and last name
    [Doe], then subscribe to the mailing list.  So whenever the event time
    is representable and the CRM is configured, exactly one contact body is
    written, with these names and containing both tags. *)
Theorem C8_checkout_scenario
    (env : Env) (created : Z)
    (phone customer_email customer subscription status : option string) :
  let event :=
    {| ev_type := "checkout.session.completed";
       ev_created := created;
       ev_object :=
         Obj.make (Some (Details.make (Some "a@x.com") (Some "Jane Doe") phone))
           customer_email customer (Some "cs_1") subscription status |} in
  Webhooks.dispatch env event
  = bind (lift (Webhooks.eventTime event))
      (fun time =>
         bind
           (Webhooks.ghlV1UpsertContact env
              (Payload.make "a@x.com" (Some "Jane") (Some "Doe") (Some (or_empty phone))
                 ["fc:trial_checkout"; "evt:cs_cs_1"]
                 [("Last Checkout Session ID", "cs_1");
                  ("Stripe Customer ID", or_empty customer);
                  ("Last Stripe Event Type", "checkout.session.completed");
                  ("Last Stripe Event Time", time)]))
           (fun _ => Webhooks.convertKitSubscribe env "a@x.com" "Jane"))
  /\ forall (w : world) (s : w_state w) (time : string),
       Webhooks.eventTime event = inr time ->
       configured env ->
       exists p : Payload.t,
         written (external (trace (run w (Webhooks.processEvent env event) s))) = [p]
         /\ Payload.email p = "a@x.com"
         /\ Payload.firstName p = Some "Jane"
         /\ Payload.lastName p = Some "Doe"
         /\ "fc:trial_checkout" ∈ Payload.tags p
         /\ "evt:cs_cs_1" ∈ Payload.tags p.
Proof.
  cbv zeta. split; [reflexivity|].
  intros w s time Htime Hconf.
  match goal with
  | |- context [Webhooks.processEvent env ?e] => set (event := e) in *
  end.
  assert (Hne : "a@x.com" <> EmptyString) by discriminate.
  destruct (processEvent_written env w event Dispatch.CheckoutCompleted s
              "a@x.com" time eq_refl eq_refl Hne Htime Hconf) as [Hw _].
  eexists. split; [exact Hw|]. repeat split.
  - tag_is_sent.
  - tag_is_sent.
Qed.

Lemma C8_witness :
  exists p : Payload.t,
    written (external (trace (run (Crm.world Sample.customers Crm.healthy)
                                (Webhooks.processEvent Sample.env Sample.checkout)
                                Sample.store))) = [p]
    /\ Payload.email p = "a@x.com"
    /\ Payload.firstName p = Some "Jane"
    /\ Payload.lastName p = Some "Doe"
    /\ "fc:trial_checkout" ∈ Payload.tags p
    /\ "evt:cs_cs_1" ∈ Payload.tags p.
Proof.
  apply (proj2 (C8_checkout_scenario Sample.env 1700000000 None None (Some "cus_1")
                  None None)
           (Crm.world Sample.customers Crm.healthy) Sample.store
           "2023-11-14T22:13:20.000Z").
  - reflexivity.
  - exact sample_configured.
Defined.

(** ** What the merging upsert sends *)

Section MergeFacts.

Import JsString JsStringFacts.

Lemma configured_dec (env : Env) : configured env \/ ~ configured env.
Proof.
  unfold configured.
  destruct (decide (apiKeyOf env = EmptyString)) as [H1|H1]; [right; tauto|].
  destruct (decide (locationIdOf env = EmptyString)) as [H2|H2]; [right; tauto|].
  left. tauto.
Qed.

Lemma elem_of_cleanTags (tags : list string) (t : string) :
  t ∈ cleanTags tags <-> t <> EmptyString /\ exists raw, raw ∈ tags /\ t = trim raw.
Proof.
  unfold cleanTags. rewrite elem_of_filterBoolean.
  change (List.map trim tags) with (trim <$> tags). rewrite list_elem_of_fmap.
  split.
  - intros [(raw & -> & Hraw) Hne]. eauto.
  - intros [Hne (raw & Hraw & ->)]. eauto.
Qed.

Lemma elem_of_printTags (items : list jsval) (tags : list string) (t : string) :
  printTags items = inr tags ->
  t ∈ tags
  <-> exists v printed, v ∈ items /\ Js.toString v = inr printed /\ t = trim printed.
Proof.
  revert tags. induction items as [|v rest IH]; intros tags; cbn [printTags].
  - intros [= <-]. split; [intros H; inversion H|].
    intros (v & printed & H & _). inversion H.
  - destruct (Js.toString v) as [e|printed] eqn:Hv; [discriminate|].
    destruct (printTags rest) as [e|tags'] eqn:Hrest; [discriminate|].
    intros [= <-]. rewrite elem_of_cons, (IH tags' eq_refl). split.
    + intros [->|(v' & printed' & Hin & Hp & ->)].
      * exists v, printed. split; [now left|auto].
      * exists v', printed'. split; [now right|auto].
    + intros (v' & printed' & Hin & Hp & ->).
      apply elem_of_cons in Hin as [->|Hin].
      * left. congruence.
      * right. eauto.
Qed.

Lemma elem_of_cleanTagValues (items : list jsval) (existingTags : list string)
    (t : string) :
  cleanTagValues items = inr existingTags ->
  t ∈ existingTags
  <-> t <> EmptyString
      /\ exists v printed, v ∈ items /\ Js.toString v = inr printed /\ t = trim printed.
Proof.
  unfold cleanTagValues. destruct (printTags items) as [e|tags] eqn:Hp; [discriminate|].
  intros [= <-]. rewrite elem_of_filterBoolean, (elem_of_printTags items tags t Hp).
  tauto.
Qed.

(** A list of strings prints as it is. *)
Lemma printTags_strings (tags : list string) :
  printTags (List.map JStr tags) = inr (List.map trim tags).
Proof.
  induction tags as [|t rest IH]; [reflexivity|].
  cbn [List.map printTags Js.toString]. now rewrite IH.
Qed.

Lemma cleanTagValues_strings (tags : list string) :
  cleanTagValues (List.map JStr tags) = inr (cleanTags tags).
Proof. unfold cleanTagValues. now rewrite printTags_strings. Qed.

(** A tag that went through the cleaning is non-empty, trimmed, and not
    made of white space. *)
Definition clean (t : string) : Prop :=
  t <> EmptyString /\ trim t = t /\ whitespaceOnly t = false.

Lemma trimmed_clean (raw : string) : trim raw <> EmptyString -> clean (trim raw).
Proof.
  intros Hne. split; [exact Hne|]. split; [apply trim_idem|].
  destruct (whitespaceOnly (trim raw)) eqn:E; [|reflexivity].
  apply trim_whitespaceOnly in E. rewrite trim_idem in E. contradiction.
Qed.

Lemma cleanTags_clean (tags : list string) (t : string) : t ∈ cleanTags tags -> clean t.
Proof.
  intros [Hne (raw & _ & ->)]%elem_of_cleanTags. now apply trimmed_clean.
Qed.

Lemma cleanTagValues_clean (items : list jsval) (existingTags : list string)
    (t : string) :
  cleanTagValues items = inr existingTags -> t ∈ existingTags -> clean t.
Proof.
  intros H Ht. apply (elem_of_cleanTagValues items existingTags t H) in Ht.
  destruct Ht as [Hne (v & printed & _ & _ & ->)]. now apply trimmed_clean.
Qed.

Lemma existingTagsOf_inr (existing : jsval) (existingTags : list string) :
  Webhooks.existingTagsOf existing = inr existingTags ->
  exists items,
    Js.or (Js.opt existing "tags") (JArr []) = JArr items
    /\ cleanTagValues items = inr existingTags.
Proof.
  unfold Webhooks.existingTagsOf.
  destruct (Js.or (Js.opt existing "tags") (JArr [])); try discriminate.
  eauto.
Qed.

(** The tag list sent is duplicate-free and every entry is clean. *)
Lemma mergedTags_wellformed (existing : jsval) (tags : list string) :
  NoDup (mergedTags existing tags)
  /\ forall t, t ∈ mergedTags existing tags -> clean t.
Proof.
  unfold mergedTags.
  destruct (Webhooks.existingTagsOf existing) as [e|existingTags] eqn:E.
  - split; [apply NoDup_arrayFromSet|].
    intros t Ht. rewrite elem_of_arrayFromSet in Ht. now apply cleanTags_clean in Ht.
  - split; [apply NoDup_arrayFromSet|].
    apply existingTagsOf_inr in E as (items & _ & Hitems).
    intros t Ht. rewrite elem_of_arrayFromSet, elem_of_app, elem_of_arrayFromSet in Ht.
    destruct Ht as [Ht|Ht].
    + exact (cleanTagValues_clean items existingTags t Hitems Ht).
    + now apply cleanTags_clean in Ht.
Qed.

(** With a tag array (or none) on the contact whose entries can all be
    turned into strings, the tag list sent is, as a set, the union of the
    cleaned existing tags and the cleaned new tags. *)
Lemma mergedTags_union (existing : jsval) (items : list jsval)
    (existingTags tags : list string) (t : string) :
  Js.or (Js.opt existing "tags") (JArr []) = JArr items ->
  cleanTagValues items = inr existingTags ->
  t ∈ mergedTags existing tags <-> t ∈ existingTags \/ t ∈ cleanTags tags.
Proof.
  intros H Hitems. unfold mergedTags, Webhooks.existingTagsOf. rewrite H, Hitems.
  now rewrite elem_of_arrayFromSet, elem_of_app, elem_of_arrayFromSet.
Qed.

(** When the existing tags cannot be read, because [tags] is a truthy
    value without [map] or because an entry cannot be turned into a
    string, the tag list sent is the new tags as the first step of the
    upsert computes them. *)
Lemma mergedTags_unreadable (existing : jsval) (tags : list string) (e : exn) :
  Webhooks.existingTagsOf existing = inl e ->
  mergedTags existing tags = arrayFromSet (cleanTags tags).
Proof. intros H. unfold mergedTags. now rewrite H. Qed.

(** When nothing was found, the tag list sent is the new tags as the
    first step of the upsert computes them. *)
Lemma mergedTags_nothing_found (existing : jsval) (tags : list string) :
  Js.truthy (Js.opt existing "tags") = false ->
  mergedTags existing tags = arrayFromSet (cleanTags tags).
Proof.
  intros H. unfold mergedTags, Webhooks.existingTagsOf, Js.or. rewrite H.
  change (cleanTagValues []) with (@inr exn (list string) []). cbv iota. simpl app.
  rewrite <- (app_nil_r (arrayFromSet (cleanTags tags))) at 1.
  apply arrayFromSet_absorb; [apply NoDup_arrayFromSet|].
  intros x Hx. inversion Hx.
Qed.

End MergeFacts.

(** C10. Every tag list the merging upsert posts to the CRM is
    duplicate-free, and each entry is non-empty, trimmed and not made of
    white space only, whatever tags it is called with and whatever the
    lookup returns. *)
Theorem C10_sent_tags_wellformed
    (env : Env) (w : world) (s : w_state w) (args : Payload.t)
    (apiKey locationId : string) (p : Payload.t) :
  In (GhlPostContacts apiKey locationId p)
     (external (trace (run w (Webhooks.ghlV1UpsertContact env args) s))) ->
  NoDup (Payload.tags p)
  /\ forall t, t ∈ Payload.tags p ->
       t <> EmptyString
       /\ JsString.trim t = t
       /\ JsStringFacts.whitespaceOnly t = false.
Proof.
  intros Hin.
  destruct (decide (Payload.email args = EmptyString)) as [He|He].
  - destruct (upsert_skipped env w s args (or_introl He)) as (Htr & _).
    rewrite Htr in Hin. destruct Hin.
  - destruct (configured_dec env) as [Hc|Hc].
    + destruct (upsert_run env w s args Hc He) as (Htr & _).
      rewrite Htr in Hin. destruct Hin as [H|[H|[]]]; [discriminate|].
      injection H as _ _ <-. apply mergedTags_wellformed.
    + destruct (upsert_skipped env w s args (or_intror Hc)) as (Htr & _).
      rewrite Htr in Hin. destruct Hin.
Qed.

Lemma C10_witness :
  let p :=
    Payload.make "a@x.com" None None None ["vip"; "fc:trial_checkout"; "x"] [] in
  NoDup (Payload.tags p)
  /\ forall t, t ∈ Payload.tags p ->
       t <> EmptyString
       /\ JsString.trim t = t
       /\ JsStringFacts.whitespaceOnly t = false.
Proof.
  apply (C10_sent_tags_wellformed Sample.env
           (Crm.world Sample.customers Crm.healthy) Sample.store
           (Payload.make "a@x.com" None None None
              ["  "; " x "; "fc:trial_checkout"; "x"; ""] [])
           "v1-key" "loc-1").
  vm_compute. right. left. reflexivity.
Defined.

(** ** Tags of an event *)

Section EventTags.

Import JsString JsStringFacts.

Lemma upsertArgs_tags (k : Dispatch.kind) (event : stripe_event) (email time : string) :
  Payload.tags (Dispatch.upsertArgs k event email time) = Dispatch.newTags k event.
Proof. now destruct k. Qed.

(** The identifiers of the event end in no white space (the billing
    provider's identifiers hold none). *)
Definition trimmedIds (event : stripe_event) : Prop :=
  trimEnd (or_empty (Obj.id (ev_object event))) = or_empty (Obj.id (ev_object event))
  /\ trimEnd (or_empty (Obj.subscription (ev_object event)))
     = or_empty (Obj.subscription (ev_object event)).

(** A string without white space. *)
Fixpoint noWhiteSpace (s : string) : bool :=
  match s with
  | EmptyString => true
  | String c r => negb (isWhiteSpace c) && noWhiteSpace r
  end.

Lemma trimEnd_prefix (p x : string) :
  noWhiteSpace p = true -> trimEnd (p +:+ x) = p +:+ trimEnd x.
Proof.
  induction p as [|c r IH]; simpl; [reflexivity|].
  intros [Hc Hr]%andb_true_iff. apply negb_true_iff in Hc.
  now rewrite Hc, IH.
Qed.

Lemma trim_prefix (p x : string) :
  noWhiteSpace p = true -> p <> EmptyString -> trim (p +:+ x) = p +:+ trimEnd x.
Proof.
  intros Hp Hne. unfold trim. rewrite trimStart_fixed.
  - now apply trimEnd_prefix.
  - destruct p as [|c r]; [contradiction|]. simpl in *.
    now apply andb_true_iff in Hp as [Hc _].
Qed.

Lemma cleanTags_fixed (tags : list string) :
  Forall (fun t => trim t = t /\ t <> EmptyString) tags -> cleanTags tags = tags.
Proof.
  induction 1 as [|t rest [Ht Hne] _ IH]; [reflexivity|].
  unfold cleanTags, filterBoolean in *. simpl. rewrite Ht.
  apply truthy_nonempty in Hne. rewrite Hne. now f_equal.
Qed.

Lemma arrayFromSet_NoDup (tags : list string) : NoDup tags -> arrayFromSet tags = tags.
Proof.
  intros H. apply uniq_from_NoDup; [exact H|]. intros x _ Hx. inversion Hx.
Qed.

(** The cleaning of the upsert's first step leaves the tags of such an
    event as they are: they are trimmed, non-empty and pairwise distinct. *)
Lemma newTags_normal (k : Dispatch.kind) (event : stripe_event) :
  trimmedIds event ->
  arrayFromSet (cleanTags (Dispatch.newTags k event)) = Dispatch.newTags k event.
Proof.
  intros [Hid Hsub].
  assert (Hevt : forall p x, noWhiteSpace p = true -> p <> EmptyString ->
                   trimEnd x = x -> trim (p +:+ x) = p +:+ x /\ p +:+ x <> EmptyString).
  { intros p x Hp Hne Hx. rewrite trim_prefix, Hx by assumption. split; [reflexivity|].
    destruct p; [contradiction|discriminate]. }
  assert (Hclean : Forall (fun t => trim t = t /\ t <> EmptyString)
                     (Dispatch.newTags k event)).
  { unfold Dispatch.newTags.
    destruct (truthy (or_empty (Obj.subscription (ev_object event))));
      destruct k; cbn [app]; repeat constructor;
      try discriminate; try (apply Hevt; [reflexivity|discriminate|assumption]). }
  rewrite (cleanTags_fixed _ Hclean). apply arrayFromSet_NoDup.
  unfold Dispatch.newTags.
  destruct (truthy (or_empty (Obj.subscription (ev_object event))));
    destruct k; cbn [app]; repeat (apply NoDup_cons; split);
    try apply NoDup_nil_2;
    rewrite ?elem_of_cons, ?elem_of_nil; intros Hx;
    repeat (destruct Hx as [Hx|Hx]; try discriminate Hx); exact Hx.
Qed.

(** The ways the lookup comes back empty-handed: the request is rejected
    (network failure), the response has an error status (not found
    included), its body cannot be parsed, or it lists no contact. *)
Inductive lookup_fails : fetch_outcome -> Prop :=
| lookup_rejected (m : string) : lookup_fails (FetchRejects m)
| lookup_error_status (r : response) :
    res_ok r = false -> lookup_fails (FetchResponse r)
| lookup_unreadable (r : response) :
    res_json r = None -> lookup_fails (FetchResponse r)
| lookup_no_contact (r : response) (json : jsval) :
    res_json r = Some json -> Js.opt json "contacts" = JArr [] ->
    lookup_fails (FetchResponse r).

Lemma lookup_fails_no_tags (x : fetch_outcome) :
  lookup_fails x -> Js.truthy (Js.opt (contactOf x) "tags") = false.
Proof.
  intros [m|r H|r H|r json H1 H2]; simpl; [reflexivity| | |].
  - now rewrite H.
  - rewrite H. now destruct (res_ok r).
  - rewrite H1, H2. now destruct (res_ok r).
Qed.

(** Set equality of a sent tag list with the union of two others. *)
Definition tags_are_union (sent existing new : list string) : Prop :=
  forall t, t ∈ sent <-> t ∈ existing \/ t ∈ new.

End EventTags.

(** The merge example of the specification: existing tags A, B and new
    tags B, C are sent as A, B, C. *)
Example merge_AB_BC :
  mergedTags (JObj [("tags", JArr [JStr "A"; JStr "B"])]) ["B"; "C"] = ["A"; "B"; "C"].
Proof. reflexivity. Qed.

(** An existing tag that is an object with a key [toString] of its own
    cannot be turned into a string: the merge is given up and the tag
    [keep] is not sent. *)
Example merge_unprintable :
  mergedTags (JObj [("tags", JArr [JStr "keep"; JObj [("toString", JNum "1")]])]) ["B"; "C"]
  = ["B"; "C"].
Proof. reflexivity. Qed.

(** C1, as the code has it.  In the tag-merging variant, for a verified
    event the handler acts on, with a resolved email, a representable
    event time and the CRM settings, and with a tag array (or none) on the
    contact the lookup returned: the contact is read and then written
    once.  When every existing tag can be turned into a string (strings,
    numbers and the like; always so for a list of strings), the tag list
    written is, as a set, the union of the existing tags and the new tags
    after each has been turned into a string and trimmed and the empty
    ones dropped; so every existing tag that is a trimmed non-empty string
    is still there.  When an existing tag cannot be turned into a string
    (an object with a key [toString] of its own), the merge is given up
    and the new tags are written alone.  Every new tag that is a trimmed
    non-empty string is written in both cases. *)
Theorem C1_written_tags_are_cleaned_union
    (env : Env)
    (constructEvent : string -> option string -> option string -> exn + stripe_event)
    (w : world) (s : w_state w) (req : request) (event : stripe_event)
    (k : Dispatch.kind) (email time : string) (items : list jsval) :
  verifies env constructEvent req event ->
  Dispatch.acted_on event = Some k ->
  let look := run w (Dispatch.identity k event) s in
  result look = Returned email -> email <> EmptyString ->
  Webhooks.eventTime event = inr time ->
  configured env ->
  let get := GhlGetContacts (apiKeyOf env) (locationIdOf env) email in
  let existing := contactOf (fst (w_respond w get (final look))) in
  Js.or (Js.opt existing "tags") (JArr []) = JArr items ->
  let r := run w (Webhooks.registerStripeWebhooks env constructEvent req) s in
  exists p : Payload.t,
    written (external (trace r)) = [p]
    /\ (exists before after,
          external (trace r)
          = before ++ [get; GhlPostContacts (apiKeyOf env) (locationIdOf env) p] ++ after
          /\ written before = [] /\ written after = [])
    /\ match cleanTagValues items with
       | inr existingTags =>
           tags_are_union (Payload.tags p)
             existingTags (cleanTags (Dispatch.newTags k event))
           /\ (forall t, JStr t ∈ items -> JsString.trim t = t -> t <> EmptyString ->
                         t ∈ Payload.tags p)
       | inl _ =>
           Payload.tags p = JsString.arrayFromSet (cleanTags (Dispatch.newTags k event))
       end
    /\ (forall tags, items = List.map JStr tags ->
                     tags_are_union (Payload.tags p)
                       (cleanTags tags) (cleanTags (Dispatch.newTags k event)))
    /\ (forall t, t ∈ Dispatch.newTags k event -> JsString.trim t = t ->
                  t <> EmptyString -> t ∈ Payload.tags p).
Proof.
  intros Hv Hact look Hlook Hne Htime Hconf get existing Hitems r.
  subst r. rewrite (route_verified _ _ _ _ Hv).
  destruct (processEvent_written env w event k s email time Hact Hlook Hne Htime Hconf)
    as (Hw & before & after & Htr & _ & Hb & Ha).
  fold look get existing in Hw, Htr.
  eexists. split; [exact Hw|]. split; [eauto|].
  cbn [payloadOf Payload.tags]. rewrite upsertArgs_tags.
  split; [|split].
  - destruct (cleanTagValues items) as [e|existingTags] eqn:Hclean.
    + apply (mergedTags_unreadable existing _ e).
      unfold Webhooks.existingTagsOf. now rewrite Hitems.
    + assert (Hunion : tags_are_union (mergedTags existing (Dispatch.newTags k event))
                         existingTags (cleanTags (Dispatch.newTags k event))).
      { intros t. now apply (mergedTags_union existing items). }
      split; [exact Hunion|].
      intros t Hin Htrim Ht. apply Hunion. left.
      apply (elem_of_cleanTagValues items existingTags t Hclean). split; [exact Ht|].
      exists (JStr t), t. split; [exact Hin|]. split; [reflexivity|]. now rewrite Htrim.
  - intros tags ->. intros t.
    apply (mergedTags_union existing (List.map JStr tags)); [exact Hitems|].
    apply cleanTagValues_strings.
  - intros t Hin Htrim Ht. now apply mergedTags_new.
Qed.

Lemma C1_witness :
  let r := run (Crm.world Sample.customers Crm.healthy)
             (Webhooks.registerStripeWebhooks Sample.env
                (Sample.constructEvent Sample.checkout) Sample.signed)
             Sample.store in
  let get := GhlGetContacts (apiKeyOf Sample.env) (locationIdOf Sample.env) "a@x.com" in
  let items := [JStr " vip "; JStr "fc:trial_checkout"] in
  exists p : Payload.t,
    written (external (trace r)) = [p]
    /\ (exists before after,
          external (trace r)
          = before
            ++ [get; GhlPostContacts (apiKeyOf Sample.env) (locationIdOf Sample.env) p]
            ++ after
          /\ written before = [] /\ written after = [])
    /\ match cleanTagValues items with
       | inr existingTags =>
           tags_are_union (Payload.tags p) existingTags
             (cleanTags (Dispatch.newTags Dispatch.CheckoutCompleted Sample.checkout))
           /\ (forall t, JStr t ∈ items -> JsString.trim t = t -> t <> EmptyString ->
                         t ∈ Payload.tags p)
       | inl _ =>
           Payload.tags p
           = JsString.arrayFromSet
               (cleanTags (Dispatch.newTags Dispatch.CheckoutCompleted Sample.checkout))
       end
    /\ (forall tags, items = List.map JStr tags ->
                     tags_are_union (Payload.tags p) (cleanTags tags)
                       (cleanTags
                          (Dispatch.newTags Dispatch.CheckoutCompleted Sample.checkout)))
    /\ (forall t, t ∈ Dispatch.newTags Dispatch.CheckoutCompleted Sample.checkout ->
                  JsString.trim t = t -> t <> EmptyString -> t ∈ Payload.tags p).
Proof.
  apply (C1_written_tags_are_cleaned_union Sample.env
           (Sample.constructEvent Sample.checkout)
           (Crm.world Sample.customers Crm.healthy) Sample.store Sample.signed
           Sample.checkout Dispatch.CheckoutCompleted "a@x.com"
           "2023-11-14T22:13:20.000Z" [JStr " vip "; JStr "fc:trial_checkout"]).
  - reflexivity.
  - reflexivity.
  - reflexivity.
  - discriminate.
  - reflexivity.
  - exact sample_configured.
  - reflexivity.
Defined.

(** C1 as stated fails twice.  In the tag-merging variant the contact
    read back with tags [" vip "] and [fc:trial_checkout] is written with
    [vip], [fc:trial_checkout] and [evt:cs_cs_1]: the tag [" vip "] that
    existed is not among the tags written, so they are not the union of
    the existing and the new tags.  In the earlier variant the upsert
    called with new tags B, C for a contact holding A, B writes B, C
    alone. *)
Lemma C1_counterexample :
  (let w := Crm.world Sample.customers Crm.healthy in
   let r := run w (Webhooks.registerStripeWebhooks Sample.env
                     (Sample.constructEvent Sample.checkout) Sample.signed)
              Sample.store in
   let read := run w (Webhooks.ghlV1GetContactByEmail Sample.env "a@x.com")
                 Sample.store in
   let existing := [" vip "; "fc:trial_checkout"] in
   result read = Returned (Crm.contactJson "a@x.com" (Crm.make existing []))
   /\ exists p : Payload.t,
        written (external (trace r)) = [p]
        /\ Payload.tags p = ["vip"; "fc:trial_checkout"; "evt:cs_cs_1"]
        /\ ~ tags_are_union (Payload.tags p) existing
               (Dispatch.newTags Dispatch.CheckoutCompleted Sample.checkout))
  /\ (let w := Crm.world Sample.customers Crm.healthy in
      let store : gmap string Crm.contact := {[ "a@x.com" := Crm.make ["A"; "B"] [] ]} in
      let r := run w (WebhooksEarlier.ghlV1UpsertContact Sample.env
                        (Payload.make "a@x.com" None None None ["B"; "C"] []))
                 store in
      written (external (trace r))
      = [Payload.make "a@x.com" None None None ["B"; "C"] []]
      /\ ~ tags_are_union ["B"; "C"] ["A"; "B"] ["B"; "C"]).
Proof.
  split.
  - cbv zeta. split; [reflexivity|].
    exists (Payload.make "a@x.com" (Some "Jane") (Some "Doe") (Some EmptyString)
              ["vip"; "fc:trial_checkout"; "evt:cs_cs_1"]
              [("Last Checkout Session ID", "cs_1");
               ("Stripe Customer ID", "cus_1");
               ("Last Stripe Event Type", "checkout.session.completed");
               ("Last Stripe Event Time", "2023-11-14T22:13:20.000Z")]).
    split; [vm_compute; reflexivity|]. split; [reflexivity|].
    intros H. specialize (H " vip "). cbn [Payload.tags] in H.
    assert (Hin : " vip " ∈ ["vip"; "fc:trial_checkout"; "evt:cs_cs_1"]).
    { apply H. left. apply list_elem_of_here. }
    rewrite !elem_of_cons, elem_of_nil in Hin.
    destruct Hin as [Hin|[Hin|[Hin|[]]]]; discriminate Hin.
  - cbv zeta. split; [vm_compute; reflexivity|].
    intros H. specialize (H "A").
    assert (Hin : "A" ∈ ["B"; "C"]) by (apply H; left; apply list_elem_of_here).
    rewrite !elem_of_cons, elem_of_nil in Hin.
    destruct Hin as [Hin|[Hin|[]]]; discriminate Hin.
Qed.

(** C6. For a verified event the handler acts on, with a resolved email,
    a representable event time and the CRM settings: when the lookup by
    email is rejected by the network, answered with an error status (not
    found included), unreadable, or lists no contact, the contact is
    still written, once, and the tag list written is the new tags as the
    first step of the upsert computes them (each trimmed, empty ones
    dropped, first occurrences kept) and nothing else; for an event whose
    identifiers end in no white space that is the list of newly computed
    tags itself. *)
Theorem C6_lookup_failure_does_not_block_upsert
    (env : Env)
    (constructEvent : string -> option string -> option string -> exn + stripe_event)
    (w : world) (s : w_state w) (req : request) (event : stripe_event)
    (k : Dispatch.kind) (email time : string) :
  verifies env constructEvent req event ->
  Dispatch.acted_on event = Some k ->
  let look := run w (Dispatch.identity k event) s in
  result look = Returned email -> email <> EmptyString ->
  Webhooks.eventTime event = inr time ->
  configured env ->
  let get := GhlGetContacts (apiKeyOf env) (locationIdOf env) email in
  lookup_fails (fst (w_respond w get (final look))) ->
  let r := run w (Webhooks.registerStripeWebhooks env constructEvent req) s in
  exists p : Payload.t,
    written (external (trace r)) = [p]
    /\ (exists before after,
          external (trace r)
          = before ++ [get; GhlPostContacts (apiKeyOf env) (locationIdOf env) p] ++ after
          /\ written before = [] /\ written after = [])
    /\ Payload.email p = email
    /\ Payload.tags p = JsString.arrayFromSet (cleanTags (Dispatch.newTags k event))
    /\ (forall t, t ∈ Payload.tags p <-> t ∈ cleanTags (Dispatch.newTags k event))
    /\ (trimmedIds event -> Payload.tags p = Dispatch.newTags k event).
Proof.
  intros Hv Hact look Hlook Hne Htime Hconf get Hfail r.
  subst r. rewrite (route_verified _ _ _ _ Hv).
  destruct (processEvent_written env w event k s email time Hact Hlook Hne Htime Hconf)
    as (Hw & before & after & Htr & _ & Hb & Ha).
  fold look get in Hw, Htr.
  eexists. split; [exact Hw|]. split; [eauto|].
  cbn [payloadOf Payload.tags Payload.email]. rewrite upsertArgs_tags.
  rewrite (mergedTags_nothing_found _ _ (lookup_fails_no_tags _ Hfail)).
  split; [now destruct k|]. split; [reflexivity|]. split.
  - intros t. apply JsStringFacts.elem_of_arrayFromSet.
  - intros Hids. now apply newTags_normal.
Qed.

Lemma C6_witness :
  let w := Crm.world Sample.customers
             {| Crm.lookup_rejects := true; Crm.write_rejects := false;
                Crm.write_status := 200 |} in
  let r := run w (Webhooks.registerStripeWebhooks Sample.env
                    (Sample.constructEvent Sample.checkout) Sample.signed)
             Sample.store in
  let get := GhlGetContacts (apiKeyOf Sample.env) (locationIdOf Sample.env) "a@x.com" in
  exists p : Payload.t,
    written (external (trace r)) = [p]
    /\ (exists before after,
          external (trace r)
          = before
            ++ [get; GhlPostContacts (apiKeyOf Sample.env) (locationIdOf Sample.env) p]
            ++ after
          /\ written before = [] /\ written after = [])
    /\ Payload.email p = "a@x.com"
    /\ Payload.tags p
       = JsString.arrayFromSet
           (cleanTags (Dispatch.newTags Dispatch.CheckoutCompleted Sample.checkout))
    /\ (forall t, t ∈ Payload.tags p
                  <-> t ∈ cleanTags (Dispatch.newTags Dispatch.CheckoutCompleted
                                       Sample.checkout))
    /\ (trimmedIds Sample.checkout ->
        Payload.tags p = Dispatch.newTags Dispatch.CheckoutCompleted Sample.checkout).
Proof.
  apply (C6_lookup_failure_does_not_block_upsert Sample.env
           (Sample.constructEvent Sample.checkout)
           (Crm.world Sample.customers
              {| Crm.lookup_rejects := true; Crm.write_rejects := false;
                 Crm.write_status := 200 |})
           Sample.store Sample.signed Sample.checkout Dispatch.CheckoutCompleted
           "a@x.com" "2023-11-14T22:13:20.000Z").
  - reflexivity.
  - reflexivity.
  - reflexivity.
  - discriminate.
  - reflexivity.
  - exact sample_configured.
  - apply lookup_rejected.
Defined.

(** With the lookup down, the sample checkout is written with its two new
    tags and none of the tags the contact held. *)
Example lookup_down_checkout :
  written (external (trace (run
    (Crm.world Sample.customers
       {| Crm.lookup_rejects := true; Crm.write_rejects := false;
          Crm.write_status := 200 |})
    (Webhooks.registerStripeWebhooks Sample.env
       (Sample.constructEvent Sample.checkout) Sample.signed)
    Sample.store)))
  = [Payload.make "a@x.com" (Some "Jane") (Some "Doe") (Some EmptyString)
       ["fc:trial_checkout"; "evt:cs_cs_1"]
       [("Last Checkout Session ID", "cs_1");
        ("Stripe Customer ID", "cus_1");
        ("Last Stripe Event Type", "checkout.session.completed");
        ("Last Stripe Event Time", "2023-11-14T22:13:20.000Z")]].
Proof. vm_compute. reflexivity. Qed.

(** ** Failures of the contact write *)

(** An error status on the write is logged by the upsert and the handler
    still answers 200; a write the network rejects is not caught by the
    upsert: it reaches the handler's [catch], which answers 500. *)
Lemma write_failure_outcomes
    (env : Env) (w : world) (s : w_state w) (event : stripe_event)
    (k : Dispatch.kind) (email time : string) :
  Dispatch.acted_on event = Some k ->
  let look := run w (Dispatch.identity k event) s in
  result look = Returned email -> email <> EmptyString ->
  Webhooks.eventTime event = inr time ->
  configured env ->
  let get := GhlGetContacts (apiKeyOf env) (locationIdOf env) email in
  let existing := contactOf (fst (w_respond w get (final look))) in
  let p := payloadOf existing (Dispatch.upsertArgs k event email time) in
  let answer :=
    fst (w_respond w (GhlPostContacts (apiKeyOf env) (locationIdOf env) p)
           (snd (w_respond w get (final look)))) in
  let r := run w (Webhooks.processEvent env event) s in
  match answer with
  | FetchRejects _ => result r = Returned error500
  | FetchResponse _ => result r = Returned ok200
  end.
Proof.
  intros Hact look Hlook Hne Htime Hconf get existing p answer r.
  pose proof (processEvent_upsert env w event k s email time Hact Hlook Hne Htime Hconf)
    as Hup.
  cbv zeta in Hup. fold look get existing p in Hup. fold answer r in Hup.
  destruct answer; tauto.
Qed.

(** C5, at the failing input: the sample checkout against a CRM whose
    contact write is rejected by the network.  The handler answers 500
    with [Server error]; the only error line is the handler's own, none is
    written by the upsert. *)
Lemma C5_rejected_write_answers_500 :
  let w := Crm.world Sample.customers
             {| Crm.lookup_rejects := false; Crm.write_rejects := true;
                Crm.write_status := 200 |} in
  let r := run w (Webhooks.registerStripeWebhooks Sample.env
                    (Sample.constructEvent Sample.checkout) Sample.signed)
             Sample.store in
  result r = Returned {| http_status := 500; http_body_of := BodyText "Server error" |}
  /\ List.filter (fun i => match i with Logged _ _ => true | Called _ => false end)
       (trace r)
     = [Logged LogError "[Webhook handler] Error:"].
Proof. vm_compute. split; reflexivity. Qed.

(** The same checkout when the CRM answers the write with status 503: the
    upsert logs the failure and the handler answers 200. *)
Example error_status_write_answers_200 :
  let w := Crm.world Sample.customers
             {| Crm.lookup_rejects := false; Crm.write_rejects := false;
                Crm.write_status := 503 |} in
  let r := run w (Webhooks.registerStripeWebhooks Sample.env
                    (Sample.constructEvent Sample.checkout) Sample.signed)
             Sample.store in
  result r = Returned ok200
  /\ List.filter (fun i => match i with Logged _ _ => true | Called _ => false end)
       (trace r)
     = [Logged LogError "[GHL upsert] Failed:"].
Proof. vm_compute. split; reflexivity. Qed.

(** ** Re-delivery against the reference CRM *)

Section Redelivery.

Import JsString JsStringFacts.

Variable customers : string -> exn + stripe_customer.
Variable faults : Crm.faults.

Local Abbreviation crm := (Crm.world customers faults).

(** A program that leaves the contacts alone and whose result and CRM
    writes do not depend on them. *)
Definition stable {A : Type} (p : prog A) : Prop :=
  forall store : gmap string Crm.contact,
    final (run crm p store) = store
    /\ forall store' : gmap string Crm.contact,
         result (run crm p store') = result (run crm p store)
         /\ written (external (trace (run crm p store')))
            = written (external (trace (run crm p store))).

(** A program whose second run changes nothing and repeats the result and
    the CRM writes of the first. *)
Definition idempotent {A : Type} (p : prog A) : Prop :=
  forall store : gmap string Crm.contact,
    let once := run crm p store in
    let twice := run crm p (final once) in
    final twice = final once
    /\ result twice = result once
    /\ written (external (trace twice)) = written (external (trace once)).

Lemma stable_idempotent {A : Type} (p : prog A) : stable p -> idempotent p.
Proof.
  intros H store. cbv zeta. destruct (H store) as [Hf Hs].
  rewrite Hf. auto.
Qed.

Lemma stable_ret {A : Type} (a : A) : stable (Ret a).
Proof. intros store. simpl. auto. Qed.

Lemma stable_throw {A : Type} (e : exn) : stable (@Throw A e).
Proof. intros store. simpl. auto. Qed.

Lemma stable_log {A : Type} (level : log_level) (label : string) (k : prog A) :
  stable k -> stable (Log level label k).
Proof.
  intros H store. destruct (H store) as [Hf Hs]. simpl. split; [exact Hf|].
  intros store'. apply Hs.
Qed.

Lemma stable_lift {A : Type} (x : exn + A) : stable (lift x).
Proof. destruct x; [apply stable_throw|apply stable_ret]. Qed.

Lemma stable_bind {A B : Type} (p : prog A) (f : A -> prog B) :
  stable p -> (forall a, stable (f a)) -> stable (bind p f).
Proof.
  intros Hp Hf store. destruct (Hp store) as [Hpf Hps].
  assert (Hgen : forall st,
    final (run crm (bind p f) st) = st
    /\ result (run crm (bind p f) st)
       = match result (run crm p store) with
         | Returned a => result (run crm (f a) store)
         | Threw e => Threw e
         end
    /\ written (external (trace (run crm (bind p f) st)))
       = written (external (trace (run crm p store)))
         ++ match result (run crm p store) with
            | Returned a => written (external (trace (run crm (f a) store)))
            | Threw e => []
            end).
  { intros st. destruct (Hp st) as [Hst _]. destruct (Hps st) as [Hr Hw].
    rewrite run_bind. rewrite Hr.
    destruct (result (run crm p store)) as [a|e]; cbn [final result trace].
    - rewrite Hst. destruct (Hf a st) as [Hfa _]. destruct (Hf a store) as [_ Hfs].
      destruct (Hfs st) as [Hr2 Hw2].
      rewrite external_app, written_app, Hw, Hw2. auto.
    - rewrite app_nil_r. auto. }
  split; [apply Hgen|]. intros store'.
  destruct (Hgen store) as (_ & Hr1 & Hw1). destruct (Hgen store') as (_ & Hr2 & Hw2).
  rewrite Hr1, Hr2, Hw1, Hw2. auto.
Qed.

Lemma stable_try_catch {A : Type} (p : prog A) (h : exn -> prog A) :
  stable p -> (forall e, stable (h e)) -> stable (try_catch p h).
Proof.
  intros Hp Hh store. destruct (Hp store) as [Hpf Hps].
  assert (Hgen : forall st,
    final (run crm (try_catch p h) st) = st
    /\ result (run crm (try_catch p h) st)
       = match result (run crm p store) with
         | Returned a => Returned a
         | Threw e => result (run crm (h e) store)
         end
    /\ written (external (trace (run crm (try_catch p h) st)))
       = written (external (trace (run crm p store)))
         ++ match result (run crm p store) with
            | Returned a => []
            | Threw e => written (external (trace (run crm (h e) store)))
            end).
  { intros st. destruct (Hp st) as [Hst _]. destruct (Hps st) as [Hr Hw].
    rewrite run_try_catch. rewrite Hr.
    destruct (result (run crm p store)) as [a|e]; cbn [final result trace].
    - rewrite app_nil_r. auto.
    - rewrite Hst. destruct (Hh e st) as [Hfa _]. destruct (Hh e store) as [_ Hfs].
      destruct (Hfs st) as [Hr2 Hw2].
      rewrite external_app, written_app, Hw, Hw2. auto. }
  split; [apply Hgen|]. intros store'.
  destruct (Hgen store) as (_ & Hr1 & Hw1). destruct (Hgen store') as (_ & Hr2 & Hw2).
  rewrite Hr1, Hr2, Hw1, Hw2. auto.
Qed.

(** A call the reference CRM answers without looking at the contacts. *)
Lemma stable_do {A : Type} (c : call) (x : resp c) (k : resp c -> prog A) :
  is_crm_write c = false ->
  (forall store, Crm.respond customers faults c store = (x, store)) ->
  stable (k x) -> stable (Do c k).
Proof.
  intros Hc Hx Hk store. destruct (Hk store) as [Hf Hs].
  assert (Hrun : forall st,
    run crm (Do c k) st
    = {| result := result (run crm (k x) st);
         trace := Called c :: trace (run crm (k x) st);
         final := final (run crm (k x) st) |}).
  { intros st. simpl. now rewrite Hx. }
  rewrite !Hrun. cbn [final result trace]. split; [exact Hf|].
  intros store'. rewrite Hrun. cbn [final result trace external].
  destruct (Hs store') as [Hr Hw]. split; [exact Hr|].
  destruct c; try discriminate Hc; simpl; exact Hw.
Qed.

Lemma stable_console (level : log_level) (label : string) : stable (console level label).
Proof. apply stable_log, stable_ret. Qed.

Lemma stable_customerEmail (label : string) (customerId : option string) :
  stable (Webhooks.customerEmail label customerId).
Proof.
  unfold Webhooks.customerEmail. destruct (truthy (or_empty customerId)); [|apply stable_ret].
  apply stable_try_catch.
  - apply stable_bind.
    + apply (stable_do (StripeCustomersRetrieve (or_empty customerId))
               (customers (or_empty customerId))); [reflexivity|reflexivity|apply stable_ret].
    + intros c. apply stable_bind; [apply stable_lift|intros; apply stable_ret].
  - intros e. apply stable_bind; [apply stable_console|intros; apply stable_ret].
Qed.

Lemma stable_identity (k : Dispatch.kind) (event : stripe_event) :
  stable (Dispatch.identity k event).
Proof. destruct k; simpl; try apply stable_ret; apply stable_customerEmail. Qed.

Lemma stable_subscribeTags (key email : string) (tagIds : list string) :
  stable (Webhooks.subscribeTags key email tagIds).
Proof.
  induction tagIds as [|tagId rest IH]; [apply stable_ret|].
  cbn [Webhooks.subscribeTags]. apply stable_bind; [|intros; exact IH].
  apply stable_try_catch; [|intros; apply stable_console].
  apply stable_bind.
  - apply (stable_do (ConvertKitTagSubscribe tagId key email)
             (FetchResponse {| res_status := 200; res_body := JsonBody (JObj []) |}));
      [reflexivity|reflexivity|apply stable_ret].
  - intros [m|r]; [apply stable_throw|apply stable_ret].
Qed.

Lemma stable_convertKitSubscribe (env : Env) (email firstName : string) :
  stable (Webhooks.convertKitSubscribe env email firstName).
Proof.
  unfold Webhooks.convertKitSubscribe.
  destruct (isEmpty (or_empty (CONVERTKIT_API_KEY env))); [apply stable_ret|].
  apply stable_bind; [|intros; apply stable_subscribeTags].
  destruct (truthy (or_empty (CONVERTKIT_FORM_ID env))); [|apply stable_ret].
  apply stable_try_catch; [|intros; apply stable_console].
  apply stable_bind.
  - apply (stable_do (ConvertKitFormSubscribe _ _ _ _)
             (FetchResponse {| res_status := 200; res_body := JsonBody (JObj []) |}));
      [reflexivity|reflexivity|apply stable_ret].
  - intros [m|r]; [apply stable_throw|apply stable_ret].
Qed.

Lemma stable_afterUpsert (env : Env) (k : Dispatch.kind) (event : stripe_event)
    (email : string) :
  stable (Dispatch.afterUpsert env k event email).
Proof. destruct k; simpl; try apply stable_ret. apply stable_convertKitSubscribe. Qed.

Lemma idempotent_bind_l {A B : Type} (p : prog A) (f : A -> prog B) :
  stable p -> (forall a, idempotent (f a)) -> idempotent (bind p f).
Proof.
  intros Hp Hf store. cbv zeta.
  assert (Hrun : forall st,
    run crm (bind p f) st
    = match result (run crm p store) with
      | Returned a =>
          {| result := result (run crm (f a) st);
             trace := trace (run crm p st) ++ trace (run crm (f a) st);
             final := final (run crm (f a) st) |}
      | Threw e => {| result := Threw e; trace := trace (run crm p st); final := st |}
      end).
  { intros st. destruct (Hp st) as [Hst _]. destruct (Hp store) as [_ Hps].
    destruct (Hps st) as [Hr _]. rewrite run_bind, Hr, Hst.
    now destruct (result (run crm p store)). }
  assert (Hw : forall st, written (external (trace (run crm p st)))
                          = written (external (trace (run crm p store)))).
  { intros st. destruct (Hp store) as [_ Hps]. apply Hps. }
  revert Hrun. destruct (result (run crm p store)) as [a|e]; intros Hrun.
  - rewrite !Hrun. cbn [final result trace]. rewrite ?Hrun. cbn [final result trace].
    destruct (Hf a store) as (H1 & H2 & H3). cbv zeta in H1, H2, H3.
    rewrite !external_app, !written_app, H3, !Hw. auto.
  - rewrite !Hrun. cbn [final result trace]. rewrite ?Hrun. cbn [final result trace].
    auto.
Qed.

Lemma idempotent_bind_r {A B : Type} (p : prog A) (f : A -> prog B) :
  idempotent p -> (forall a, stable (f a)) -> idempotent (bind p f).
Proof.
  intros Hp Hf store. cbv zeta.
  destruct (Hp store) as (H1 & H2 & H3). cbv zeta in H1, H2, H3.
  assert (Hfin : final (run crm (bind p f) store) = final (run crm p store)).
  { rewrite run_bind. destruct (result (run crm p store)) as [a|e]; cbn [final]; [|reflexivity].
    apply Hf. }
  rewrite Hfin. rewrite (run_bind crm p f (final (run crm p store))), H2, H1.
  rewrite (run_bind crm p f store).
  destruct (result (run crm p store)) as [a|e]; cbn [final result trace].
  - destruct (Hf a (final (run crm p store))) as [Hst _]. rewrite Hst.
    rewrite !external_app, !written_app, H3. auto.
  - auto.
Qed.

Lemma idempotent_try_catch {A : Type} (p : prog A) (h : exn -> prog A) :
  idempotent p -> (forall e, stable (h e)) -> idempotent (try_catch p h).
Proof.
  intros Hp Hh store. cbv zeta.
  destruct (Hp store) as (H1 & H2 & H3). cbv zeta in H1, H2, H3.
  assert (Hfin : final (run crm (try_catch p h) store) = final (run crm p store)).
  { rewrite run_try_catch.
    destruct (result (run crm p store)) as [a|e]; cbn [final]; [reflexivity|]. apply Hh. }
  rewrite Hfin. rewrite (run_try_catch crm p h (final (run crm p store))), H2, H1.
  rewrite (run_try_catch crm p h store).
  destruct (result (run crm p store)) as [a|e]; cbn [final result trace].
  - auto.
  - destruct (Hh e (final (run crm p store))) as [Hst _]. rewrite Hst.
    rewrite !external_app, !written_app, H3. auto.
Qed.

End Redelivery.

Section RedeliveryUpsert.

Import JsString JsStringFacts.

Variable customers : string -> exn + stripe_customer.
Variable env : Env.
Variable faults : Crm.faults.

(** The lookup of the reference CRM is answered. *)
Hypothesis Hlookup : Crm.lookup_rejects faults = false.

Local Abbreviation crm := (Crm.world customers faults).

(** The contact the lookup finds in the reference CRM. *)
Definition stored (email : string) (store : gmap string Crm.contact) : jsval :=
  match store !! email with
  | Some c => Crm.contactJson email c
  | None => JUndefined
  end.

(** The cleaned tags stored for [email]. *)
Definition storedTags (email : string) (store : gmap string Crm.contact) : list string :=
  match store !! email with
  | Some c => cleanTags (Crm.tags c)
  | None => []
  end.

(** The reference CRM stores what is written to it. *)
Definition accepted (faults : Crm.faults) : bool :=
  negb (Crm.write_rejects faults)
  && ((200 <=? Crm.write_status faults) && (Crm.write_status faults <=? 299)).

Lemma crm_lookup (apiKey locationId email : string) (store : gmap string Crm.contact) :
  contactOf (fst (w_respond crm (GhlGetContacts apiKey locationId email) store))
  = stored email store
  /\ snd (w_respond crm (GhlGetContacts apiKey locationId email) store) = store.
Proof. unfold stored. simpl. rewrite Hlookup. now destruct (store !! email). Qed.

Lemma crm_write_final (p : Payload.t) (store : gmap string Crm.contact) :
  snd (Crm.write faults p store)
  = if accepted faults
    then <[Payload.email p := Crm.make (Payload.tags p) (Payload.customFields p)]> store
    else store.
Proof.
  unfold Crm.write, accepted. destruct (Crm.write_rejects faults); [reflexivity|].
  now destruct (_ && _).
Qed.

Lemma crm_write_answer (p : Payload.t) (store store' : gmap string Crm.contact) :
  fst (Crm.write faults p store') = fst (Crm.write faults p store).
Proof.
  unfold Crm.write. destruct (Crm.write_rejects faults); [reflexivity|].
  now destruct (_ && _).
Qed.

Lemma crm_write_responds (p : Payload.t) (store : gmap string Crm.contact) :
  accepted faults = true -> exists r, fst (Crm.write faults p store) = FetchResponse r.
Proof.
  unfold Crm.write, accepted. destruct (Crm.write_rejects faults); [discriminate|].
  cbn [negb andb]. intros ->. eauto.
Qed.

(** The tags merged into the stored contact are the stored tags and the
    new ones, cleaned. *)
Lemma elem_of_mergedTags_stored (email : string) (store : gmap string Crm.contact)
    (tags : list string) (t : string) :
  t ∈ mergedTags (stored email store) tags
  <-> t ∈ storedTags email store \/ t ∈ cleanTags tags.
Proof.
  unfold stored, storedTags. destruct (store !! email) as [c|].
  - apply (mergedTags_union _ (List.map JStr (Crm.tags c))); [reflexivity|].
    apply cleanTagValues_strings.
  - apply (mergedTags_union _ []); reflexivity.
Qed.

(** Merging into what the previous delivery wrote gives the same list. *)
Lemma mergedTags_again (existing : jsval) (tags : list string) (email : string)
    (fields : list (string * string)) :
  mergedTags (Crm.contactJson email (Crm.make (mergedTags existing tags) fields)) tags
  = mergedTags existing tags.
Proof.
  destruct (mergedTags_wellformed existing tags) as [Hnd Hclean].
  set (T := mergedTags existing tags) in *.
  unfold mergedTags at 1. unfold Webhooks.existingTagsOf. simpl.
  rewrite cleanTagValues_strings.
  rewrite cleanTags_fixed.
  - apply arrayFromSet_absorb; [exact Hnd|].
    intros x Hx. subst T. unfold mergedTags.
    destruct (Webhooks.existingTagsOf existing); [exact Hx|].
    apply elem_of_arrayFromSet, elem_of_app. now right.
  - apply Forall_forall. intros t Ht. destruct (Hclean t Ht) as (H1 & H2 & _). auto.
Qed.

(** One upsert against the reference CRM: the stored contact is read, one
    body is posted, and the CRM answers the write. *)
Lemma crm_upsert_run (args : Payload.t) (store : gmap string Crm.contact) :
  configured env -> Payload.email args <> EmptyString ->
  let p := payloadOf (stored (Payload.email args) store) args in
  let r := run crm (Webhooks.ghlV1UpsertContact env args) store in
  external (trace r)
  = [GhlGetContacts (apiKeyOf env) (locationIdOf env) (Payload.email args);
     GhlPostContacts (apiKeyOf env) (locationIdOf env) p]
  /\ final r = snd (Crm.write faults p store)
  /\ result r
     = match fst (Crm.write faults p store) with
       | FetchRejects m => Threw (FetchError m)
       | FetchResponse r0 =>
           Returned
             (if res_ok r0
              then match res_body r0 with
                   | JsonBody json => json
                   | TextBody text => JObj [("raw", JStr text)]
                   end
              else JUndefined)
       end.
Proof.
  intros Hc He. cbv zeta.
  destruct (upsert_run env crm store args Hc He) as (Htr & Hfin & Hres).
  destruct (crm_lookup (apiKeyOf env) (locationIdOf env) (Payload.email args) store)
    as [Hex Hst].
  cbv zeta in Htr, Hfin, Hres. rewrite Hex in Htr, Hfin, Hres. rewrite Hst in Hfin, Hres.
  split; [exact Htr|]. split; [exact Hfin|exact Hres].
Qed.

(** Against the reference CRM the upsert is idempotent: the second run
    posts the same body and leaves the contacts as the first run did. *)
Lemma idempotent_upsert (args : Payload.t) :
  idempotent customers faults (Webhooks.ghlV1UpsertContact env args).
Proof.
  destruct (decide (Payload.email args = EmptyString)) as [He|He].
  { apply stable_idempotent. unfold Webhooks.ghlV1UpsertContact.
    apply isEmpty_true in He. rewrite He.
    apply stable_bind; [apply stable_console|intros; apply stable_ret]. }
  destruct (configured_dec env) as [Hc|Hc].
  2:{ apply stable_idempotent. unfold Webhooks.ghlV1UpsertContact.
      apply isEmpty_false in He. rewrite He. fold (apiKeyOf env) (locationIdOf env).
      destruct (isEmpty (apiKeyOf env)) eqn:Hk;
        [apply stable_bind; [apply stable_console|intros; apply stable_ret]|].
      destruct (isEmpty (locationIdOf env)) eqn:Hl;
        [apply stable_bind; [apply stable_console|intros; apply stable_ret]|].
      exfalso. apply Hc. split; now apply isEmpty_false. }
  intros store. cbv zeta.
  destruct (crm_upsert_run args store Hc He) as (Htr1 & Hfin1 & Hres1).
  set (once := run crm (Webhooks.ghlV1UpsertContact env args) store) in *.
  destruct (crm_upsert_run args (final once) Hc He) as (Htr2 & Hfin2 & Hres2).
  cbv zeta in Htr1, Hfin1, Hres1, Htr2, Hfin2, Hres2.
  assert (Hsame : payloadOf (stored (Payload.email args) (final once)) args
                  = payloadOf (stored (Payload.email args) store) args).
  { rewrite Hfin1, crm_write_final. destruct (accepted faults); [|reflexivity].
    unfold payloadOf. f_equal. unfold stored at 1.
    cbn [Payload.email Payload.tags Payload.customFields].
    rewrite (lookup_insert_eq (M := gmap string)). apply mergedTags_again. }
  rewrite Hsame in Htr2, Hfin2, Hres2.
  split; [|split].
  - rewrite Hfin2, Hfin1, !crm_write_final. destruct (accepted faults); [|reflexivity].
    exact (insert_insert_eq (M := gmap string) store _ _ _).
  - rewrite Hres2, Hres1. now rewrite (crm_write_answer _ store (final once)).
  - rewrite Htr2, Htr1. reflexivity.
Qed.

(** The handler's [switch] is idempotent against the reference CRM. *)
Lemma idempotent_processEvent (event : stripe_event) :
  idempotent customers faults (Webhooks.processEvent env event).
Proof.
  unfold Webhooks.processEvent.
  apply idempotent_try_catch.
  2:{ intros e. apply stable_bind; [apply stable_console|intros; apply stable_ret]. }
  apply idempotent_bind_r; [|intros; apply stable_ret].
  rewrite Dispatch.table_correct. unfold Dispatch.table.
  destruct (Dispatch.acted_on event) as [k|]; [|apply stable_idempotent, stable_ret].
  apply idempotent_bind_l; [apply stable_identity|].
  intros email. destruct (isEmpty email); [apply stable_idempotent, stable_console|].
  apply idempotent_bind_l; [apply stable_lift|].
  intros time. apply idempotent_bind_r; [apply idempotent_upsert|].
  intros _. apply stable_afterUpsert.
Qed.

(** The handler is idempotent against the reference CRM, whatever the
    request. *)
Lemma idempotent_route
    (constructEvent : string -> option string -> option string -> exn + stripe_event)
    (req : request) :
  idempotent customers faults (Webhooks.registerStripeWebhooks env constructEvent req).
Proof.
  unfold Webhooks.registerStripeWebhooks.
  destruct (constructEvent _ _ _) as [err|event].
  - apply stable_idempotent.
    apply stable_bind; [apply stable_console|intros; apply stable_ret].
  - apply idempotent_processEvent.
Qed.

(** The identity of the event is looked up without touching the
    contacts. *)
Lemma identity_keeps_contacts (k : Dispatch.kind) (event : stripe_event)
    (store : gmap string Crm.contact) :
  final (run crm (Dispatch.identity k event) store) = store.
Proof. apply (stable_identity customers faults k event store). Qed.

(** What a delivery writes against the reference CRM: one body, for the
    email of the event, with the audit fields of the event and the tags
    merged into the stored contact. *)
Lemma crm_delivery (event : stripe_event) (k : Dispatch.kind) (email time : string)
    (store : gmap string Crm.contact) :
  Dispatch.acted_on event = Some k ->
  result (run crm (Dispatch.identity k event) store) = Returned email ->
  email <> EmptyString ->
  Webhooks.eventTime event = inr time ->
  configured env ->
  let p := payloadOf (stored email store) (Dispatch.upsertArgs k event email time) in
  let r := run crm (Webhooks.processEvent env event) store in
  written (external (trace r)) = [p]
  /\ (accepted faults = true ->
      result r = Returned ok200
      /\ final r
         = <[email := Crm.make (Payload.tags p) (Payload.customFields p)]> store).
Proof.
  intros Hact Hlook Hne Htime Hc. cbv zeta.
  destruct (processEvent_written env crm event k store email time Hact Hlook Hne Htime Hc)
    as [Hw _].
  pose proof (processEvent_upsert env crm event k store email time Hact Hlook Hne Htime Hc)
    as Hup.
  cbv zeta in Hw, Hup. rewrite identity_keeps_contacts in Hw, Hup.
  destruct (crm_lookup (apiKeyOf env) (locationIdOf env) email store) as [Hex Hst].
  rewrite Hex in Hw, Hup. rewrite Hst in Hup.
  split; [exact Hw|]. intros Hacc.
  set (p := payloadOf (stored email store) (Dispatch.upsertArgs k event email time)) in *.
  change (w_respond crm (GhlPostContacts (apiKeyOf env) (locationIdOf env) p) store)
    with (Crm.write faults p store) in Hup.
  destruct (crm_write_responds p store Hacc) as [r0 Hr0].
  match type of Hup with
  | match ?x with _ => _ end => change x with (fst (Crm.write faults p store)) in Hup
  end.
  rewrite Hr0 in Hup.
  destruct Hup as (Hres & _ & Hfin). split; [exact Hres|].
  rewrite Hfin.
  destruct (stable_afterUpsert customers faults env k event email (snd (Crm.write faults p store)))
    as [Hkeep _].
  transitivity (snd (Crm.write faults p store)); [exact Hkeep|].
  rewrite crm_write_final, Hacc.
  assert (Hemail : Payload.email p = email) by (subst p; now destruct k).
  now rewrite Hemail.
Qed.

End RedeliveryUpsert.


(** C2, as the code has it.  Against the reference CRM (contacts keyed by
    email; a write that is accepted stores the tags and fields it
    carries; the lookup returns what is stored), as long as the lookup is
    answered: delivering a request a second time leaves every contact,
    and so every tag set, as the first delivery left it; the handler
    gives the same answer and writes the same contact bodies.  For a
    verified event the handler acts on, with a resolved email, a
    representable event time and the CRM settings, each of the two
    deliveries writes exactly one body, the same one: it is for the email
    of the event, its custom fields are the audit fields of the event,
    and its tags are, as a set, the cleaned stored tags together with the
    cleaned new tags; when the CRM accepts the write, both deliveries are
    answered 200 and the contact holds these tags and fields after the
    first delivery and after the second. *)
Theorem C2_redelivery_is_idempotent
    (env : Env)
    (constructEvent : string -> option string -> option string -> exn + stripe_event)
    (customers : string -> exn + stripe_customer) (faults : Crm.faults)
    (req : request) (store : gmap string Crm.contact) :
  Crm.lookup_rejects faults = false ->
  let crm := Crm.world customers faults in
  let handler := Webhooks.registerStripeWebhooks env constructEvent req in
  let once := run crm handler store in
  let twice := run crm handler (final once) in
  (final twice = final once
   /\ result twice = result once
   /\ written (external (trace twice)) = written (external (trace once)))
  /\ forall (event : stripe_event) (k : Dispatch.kind) (email time : string),
       verifies env constructEvent req event ->
       Dispatch.acted_on event = Some k ->
       result (run crm (Dispatch.identity k event) store) = Returned email ->
       email <> EmptyString ->
       Webhooks.eventTime event = inr time ->
       configured env ->
       exists p : Payload.t,
         written (external (trace once)) = [p]
         /\ written (external (trace twice)) = [p]
         /\ Payload.email p = email
         /\ Payload.customFields p = Dispatch.auditFields k event time
         /\ (forall t, t ∈ Payload.tags p
                       <-> t ∈ storedTags email store
                           \/ t ∈ cleanTags (Dispatch.newTags k event))
         /\ (accepted faults = true ->
             result once = Returned ok200
             /\ result twice = Returned ok200
             /\ final once
                = <[email := Crm.make (Payload.tags p) (Payload.customFields p)]> store
             /\ final twice = final once).
Proof.
  intros Hlookup. cbv zeta.
  destruct (idempotent_route customers env faults Hlookup constructEvent req store)
    as (H1 & H2 & H3).
  cbv zeta in H1, H2, H3.
  split; [auto|].
  intros event k email time Hv Hact Hlook Hne Htime Hc.
  rewrite H3. rewrite H1, H2. rewrite (route_verified _ _ _ _ Hv).
  destruct (crm_delivery customers env faults Hlookup event k email time store
              Hact Hlook Hne Htime Hc) as [Hw Hacc].
  cbv zeta in Hw, Hacc.
  eexists. split; [exact Hw|]. split; [exact Hw|].
  split; [now destruct k|]. split; [now destruct k|].
  split.
  - intros t. cbn [payloadOf Payload.tags]. rewrite upsertArgs_tags.
    apply elem_of_mergedTags_stored.
  - intros Ha. destruct (Hacc Ha) as [Hres Hfin]. auto.
Qed.

Lemma C2_witness :
  let crm := Crm.world Sample.customers Crm.healthy in
  let handler := Webhooks.registerStripeWebhooks Sample.env
                   (Sample.constructEvent Sample.checkout) Sample.signed in
  let once := run crm handler Sample.store in
  let twice := run crm handler (final once) in
  (final twice = final once
   /\ result twice = result once
   /\ written (external (trace twice)) = written (external (trace once)))
  /\ forall (event : stripe_event) (k : Dispatch.kind) (email time : string),
       verifies Sample.env (Sample.constructEvent Sample.checkout) Sample.signed event ->
       Dispatch.acted_on event = Some k ->
       result (run crm (Dispatch.identity k event) Sample.store) = Returned email ->
       email <> EmptyString ->
       Webhooks.eventTime event = inr time ->
       configured Sample.env ->
       exists p : Payload.t,
         written (external (trace once)) = [p]
         /\ written (external (trace twice)) = [p]
         /\ Payload.email p = email
         /\ Payload.customFields p = Dispatch.auditFields k event time
         /\ (forall t, t ∈ Payload.tags p
                       <-> t ∈ storedTags email Sample.store
                           \/ t ∈ cleanTags (Dispatch.newTags k event))
         /\ (accepted Crm.healthy = true ->
             result once = Returned ok200
             /\ result twice = Returned ok200
             /\ final once
                = <[email := Crm.make (Payload.tags p) (Payload.customFields p)]>
                    Sample.store
             /\ final twice = final once).
Proof.
  apply (C2_redelivery_is_idempotent Sample.env (Sample.constructEvent Sample.checkout)
           Sample.customers Crm.healthy Sample.signed Sample.store).
  reflexivity.
Defined.

(** C2 as stated fails when the lookup of the second delivery is not
    answered.  The sample checkout is delivered to a CRM that holds the
    tag [" vip "] for the customer: the contact then holds [vip],
    [fc:trial_checkout] and [evt:cs_cs_1].  It is delivered again while
    the lookup is rejected by the network: the handler answers 200 again,
    but the body written holds the new tags alone, and the contact ends
    without [vip]. *)
Lemma C2_counterexample :
  let handler := Webhooks.registerStripeWebhooks Sample.env
                   (Sample.constructEvent Sample.checkout) Sample.signed in
  let lookupDown :=
    {| Crm.lookup_rejects := true; Crm.write_rejects := false; Crm.write_status := 200 |} in
  let once := run (Crm.world Sample.customers Crm.healthy) handler Sample.store in
  let twice := run (Crm.world Sample.customers lookupDown) handler (final once) in
  verifies Sample.env (Sample.constructEvent Sample.checkout) Sample.signed Sample.checkout
  /\ result once = Returned ok200
  /\ result twice = Returned ok200
  /\ List.map Payload.tags (written (external (trace once)))
     = [["vip"; "fc:trial_checkout"; "evt:cs_cs_1"]]
  /\ List.map Payload.tags (written (external (trace twice)))
     = [["fc:trial_checkout"; "evt:cs_cs_1"]]
  /\ Crm.tags <$> (final once !! "a@x.com")
     = Some ["vip"; "fc:trial_checkout"; "evt:cs_cs_1"]
  /\ Crm.tags <$> (final twice !! "a@x.com")
     = Some ["fc:trial_checkout"; "evt:cs_cs_1"]
  /\ final twice <> final once.
Proof.
  cbv zeta. split; [reflexivity|].
  assert (H1 : Crm.tags <$> (final (run (Crm.world Sample.customers Crm.healthy)
                 (Webhooks.registerStripeWebhooks Sample.env
                    (Sample.constructEvent Sample.checkout) Sample.signed)
                 Sample.store) !! "a@x.com")
               = Some ["vip"; "fc:trial_checkout"; "evt:cs_cs_1"])
    by (vm_compute; reflexivity).
  assert (H2 : Crm.tags <$> (final (run (Crm.world Sample.customers
                   {| Crm.lookup_rejects := true; Crm.write_rejects := false;
                      Crm.write_status := 200 |})
                 (Webhooks.registerStripeWebhooks Sample.env
                    (Sample.constructEvent Sample.checkout) Sample.signed)
                 (final (run (Crm.world Sample.customers Crm.healthy)
                    (Webhooks.registerStripeWebhooks Sample.env
                       (Sample.constructEvent Sample.checkout) Sample.signed)
                    Sample.store))) !! "a@x.com")
               = Some ["fc:trial_checkout"; "evt:cs_cs_1"])
    by (vm_compute; reflexivity).
  split; [vm_compute; reflexivity|]. split; [vm_compute; reflexivity|].
  split; [vm_compute; reflexivity|]. split; [vm_compute; reflexivity|].
  split; [exact H1|]. split; [exact H2|].
  intros Heq.
  pose proof (f_equal (fun m : gmap string Crm.contact => Crm.tags <$> (m !! "a@x.com"))
                Heq) as H.
  cbv beta in H. discriminate (eq_trans (eq_sym H2) (eq_trans H H1)).
Qed.

(** The sample checkout delivered twice: the first delivery merges the
    tags into the stored contact, the second leaves it as it is. *)
Example redelivery_sample :
  let crm := Crm.world Sample.customers Crm.healthy in
  let handler := Webhooks.registerStripeWebhooks Sample.env
                   (Sample.constructEvent Sample.checkout) Sample.signed in
  let once := run crm handler Sample.store in
  let twice := run crm handler (final once) in
  Crm.tags <$> (final once !! "a@x.com")
  = Some ["vip"; "fc:trial_checkout"; "evt:cs_cs_1"]
  /\ Crm.tags <$> (final twice !! "a@x.com")
     = Some ["vip"; "fc:trial_checkout"; "evt:cs_cs_1"]
  /\ List.map Payload.customFields (written (external (trace twice)))
     = [[("Last Checkout Session ID", "cs_1");
         ("Stripe Customer ID", "cus_1");
         ("Last Stripe Event Type", "checkout.session.completed");
         ("Last Stripe Event Time", "2023-11-14T22:13:20.000Z")]].
Proof. vm_compute. repeat split; reflexivity. Qed.

(** ** The stage resolver *)

Section ResolverFacts.

Import JsString JsStringFacts.

(** A program that awaits nothing. *)
Inductive quiet {A : Type} : prog A -> Prop :=
| quiet_ret (a : A) : quiet (Ret a)
| quiet_throw (e : exn) : quiet (Throw e)
| quiet_log (level : log_level) (label : string) (k : prog A) :
    quiet k -> quiet (Log level label k).

Lemma quiet_bind {A B : Type} (p : prog A) (f : A -> prog B) :
  quiet p -> (forall a, quiet (f a)) -> quiet (bind p f).
Proof. induction 1; intros Hf; simpl; [apply Hf|constructor|constructor; auto]. Qed.

Lemma quiet_lift {A : Type} (x : exn + A) : quiet (lift x).
Proof. destruct x; constructor. Qed.

Lemma quiet_console (level : log_level) (label : string) : quiet (console level label).
Proof. repeat constructor. Qed.

Lemma quiet_run {A : Type} (w : world) (p : prog A) (s : w_state w) :
  quiet p -> external (trace (run w p s)) = [] /\ final (run w p s) = s.
Proof. induction 1; simpl; auto. Qed.

Variable env : Env.
Variable w : world.

(** The shape every probe has: one request inside a [try] whose [catch]
    logs and gives up; what follows the request awaits nothing. *)
Lemma probe_run (c : call) (k : resp c -> prog (option jsval)) (label : string)
    (s : w_state w) :
  (forall x, quiet (k x)) ->
  let r := run w (try_catch (bind (await c) k)
                    (fun _ => bind (console LogWarn label) (fun _ => Ret None))) s in
  external (trace r) = [c]
  /\ final r = snd (w_respond w c s)
  /\ exists found, result r = Returned found.
Proof.
  intros Hk. cbv zeta. rewrite run_try_catch. simpl.
  destruct (w_respond w c s) as [x s']. simpl.
  destruct (quiet_run w (k x) s' (Hk x)) as [Ht Hf].
  destruct (result (run w (k x) s')) as [found|e]; simpl.
  - rewrite Ht, Hf. eauto.
  - rewrite external_app, Ht, Hf. simpl. eauto.
Qed.

Lemma quiet_returnIfTruthy (v : jsval) (label : string) :
  quiet (Server.returnIfTruthy v label).
Proof. unfold Server.returnIfTruthy. destruct (Js.truthy v); repeat constructor. Qed.

Lemma quiet_afterFetch (res : fetch_outcome) (warn : string)
    (onOk : response -> prog (option jsval)) :
  (forall r, quiet (onOk r)) -> quiet (Server.afterFetch res warn onOk).
Proof.
  intros H. unfold Server.afterFetch. destruct res as [m|r]; [constructor|].
  destruct (res_ok r); [apply H|repeat constructor].
Qed.

Lemma tryFiltered_run (v1Key loc : string) (pipelineId : option string)
    (stageName : string) (s : w_state w) :
  let c := GhlGetOpportunities v1Key loc (Some (Server.template pipelineId)) in
  let r := run w (Server.tryFiltered v1Key loc pipelineId stageName) s in
  external (trace r) = [c]
  /\ final r = snd (w_respond w c s)
  /\ exists found, result r = Returned found.
Proof.
  apply probe_run. intros x. apply quiet_afterFetch. intros r.
  apply quiet_bind; [apply quiet_lift|]. intros hit. apply quiet_returnIfTruthy.
Qed.

Lemma tryUnfiltered_run (v1Key loc : string) (pipelineId : option string)
    (stageName : string) (s : w_state w) :
  let c := GhlGetOpportunities v1Key loc None in
  let r := run w (Server.tryUnfiltered v1Key loc pipelineId stageName) s in
  external (trace r) = [c]
  /\ final r = snd (w_respond w c s)
  /\ exists found, result r = Returned found.
Proof.
  apply probe_run. intros x. apply quiet_afterFetch. intros r.
  apply quiet_bind; [apply quiet_lift|]. intros both.
  apply quiet_bind.
  - destruct (Js.truthy both); [constructor|apply quiet_lift].
  - intros hit2. apply quiet_returnIfTruthy.
Qed.

Lemma tryPipeline_run (v1Key loc : string) (pipelineId : option string)
    (stageName : string) (s : w_state w) :
  let c := GhlGetPipeline v1Key loc (Server.template pipelineId) in
  let r := run w (Server.tryPipeline v1Key loc pipelineId stageName) s in
  external (trace r) = [c]
  /\ final r = snd (w_respond w c s)
  /\ exists found, result r = Returned found.
Proof.
  apply probe_run. intros x. apply quiet_afterFetch. intros r.
  apply quiet_bind.
  - destruct (Js.isArray _); [apply quiet_lift|constructor].
  - intros st. apply quiet_bind; [apply quiet_returnIfTruthy|].
    intros [v|]; repeat constructor.
Qed.

End ResolverFacts.

(** ** Well-formed answers to the probes *)

(** An opportunity as the CRM lists it, with the three fields the
    resolver reads. *)
Record opportunity : Type := {
  opp_pipelineId : string;
  opp_stageName : string;
  opp_stageId : string
}.

Definition opportunityJson (o : opportunity) : jsval :=
  JObj [("pipelineId", JStr (opp_pipelineId o));
        ("stageName", JStr (opp_stageName o));
        ("stageId", JStr (opp_stageId o))].

(** The opportunity is in pipeline [pipelineId] and its stage is named
    [stageName], letter case apart. *)
Definition inPipelineAtStage (pipelineId stageName : string) (o : opportunity) : bool :=
  String.eqb (opp_pipelineId o) pipelineId
  && String.eqb (JsString.toLowerCase (opp_stageName o)) (JsString.toLowerCase stageName).

Section UnfilteredProbe.

Lemma opportunity_fields (o : opportunity) :
  Js.prop (opportunityJson o) "pipelineId" = inr (JStr (opp_pipelineId o))
  /\ Js.prop (opportunityJson o) "stageName" = inr (JStr (opp_stageName o))
  /\ Js.opt (opportunityJson o) "stageId" = JStr (opp_stageId o)
  /\ Js.truthy (opportunityJson o) = true.
Proof. repeat split; reflexivity. Qed.

Lemma matchName_string (stageName x : string) :
  Server.matchName stageName (JStr x)
  = inr (String.eqb (JsString.toLowerCase x) (JsString.toLowerCase stageName)).
Proof. now destruct x. Qed.

Lemma find_first (pred : jsval -> exn + bool) (before after : list jsval) (hit : jsval) :
  Forall (fun x => pred x = inr false) before ->
  pred hit = inr true ->
  Server.find pred (before ++ hit :: after) = inr hit.
Proof.
  intros Hb Hh. induction Hb as [|x rest Hx _ IH]; simpl.
  - now rewrite Hh.
  - now rewrite Hx.
Qed.

Lemma run_await (w : world) (c : call) (s : w_state w) :
  run w (await c) s
  = {| result := Returned (fst (w_respond w c s));
       trace := [Called c];
       final := snd (w_respond w c s) |}.
Proof. simpl. now destruct (w_respond w c s). Qed.

End UnfilteredProbe.

(** A stage as a pipeline object lists it, with the two fields the
    resolver reads. *)
Record stage : Type := {
  stage_name : string;
  stage_id : string
}.

Definition stageJson (st : stage) : jsval :=
  JObj [("name", JStr (stage_name st)); ("id", JStr (stage_id st))].

(** The three places where the answer to an opportunity request may hold
    its list: the body itself, its [opportunities] or its [data]. *)
Inductive listing : Type := Bare | UnderOpportunities | UnderData.

Definition opportunitiesJson (shape : listing) (opps : list opportunity) : jsval :=
  let items := JArr (List.map opportunityJson opps) in
  match shape with
  | Bare => items
  | UnderOpportunities => JObj [("opportunities", items)]
  | UnderData => JObj [("data", items)]
  end.

(** The three places where a pipeline object may hold its stages:
    [stages], [pipeline.stages] or [data.stages]. *)
Inductive staging : Type := UnderStages | UnderPipelineStages | UnderDataStages.

Definition pipelineJson (shape : staging) (stages : list stage) : jsval :=
  let items := JArr (List.map stageJson stages) in
  match shape with
  | UnderStages => JObj [("stages", items)]
  | UnderPipelineStages => JObj [("pipeline", JObj [("stages", items)])]
  | UnderDataStages => JObj [("data", JObj [("stages", items)])]
  end.

(** The request is answered with a 2xx response whose text parses to
    [json]. *)
Definition answers (answer : fetch_outcome) (json : jsval) : Prop :=
  exists r, answer = FetchResponse r /\ res_ok r = true /\ res_body r = JsonBody json.

(** The request fails, is answered outside 2xx, or with a text that is no
    JSON. *)
Definition unusable (answer : fetch_outcome) : Prop :=
  match answer with
  | FetchRejects _ => True
  | FetchResponse r => res_ok r = false \/ exists text, res_body r = TextBody text
  end.

(** The opportunity is at the stage named [stageName], letter case apart. *)
Definition atStage (stageName : string) (o : opportunity) : bool :=
  String.eqb (JsString.toLowerCase (opp_stageName o)) (JsString.toLowerCase stageName).

(** The stage is named [stageName], letter case apart. *)
Definition isNamed (stageName : string) (st : stage) : bool :=
  String.eqb (JsString.toLowerCase (stage_name st)) (JsString.toLowerCase stageName).

(** The opportunity the second probe settles on: the first one in the
    pipeline and at the stage, else the first one at the stage. *)
Definition preferred (pipelineId : option string) (stageName : string)
    (opps : list opportunity) : option opportunity :=
  match pipelineId with
  | Some p =>
      match List.find (inPipelineAtStage p stageName) opps with
      | Some o => Some o
      | None => List.find (atStage stageName) opps
      end
  | None => List.find (atStage stageName) opps
  end.

(** A stage id that is not the empty string. *)
Definition usableId (id : option string) : option jsval :=
  match id with
  | Some x => if JsString.isEmpty x then None else Some (JStr x)
  | None => None
  end.

Section ProbeAnswers.

Variable w : world.

Lemma find_listed {A : Type} (json : A -> jsval) (pred : jsval -> exn + bool)
    (f : A -> bool) (l : list A) :
  (forall x, pred (json x) = inr (f x)) ->
  Server.find pred (List.map json l)
  = inr (match List.find f l with Some x => json x | None => JUndefined end).
Proof.
  intros H. induction l as [|x rest IH]; simpl; [reflexivity|].
  rewrite H. now destruct (f x).
Qed.

Lemma find_never {A : Type} (l : list A) : List.find (fun _ => false) l = None.
Proof. induction l as [|x rest IH]; [reflexivity|exact IH]. Qed.

Lemma opportunitiesOf_listed (shape : listing) (opps : list opportunity) :
  Server.opportunitiesOf (opportunitiesJson shape opps)
  = JArr (List.map opportunityJson opps).
Proof. now destruct shape. Qed.

Lemma stagesOf_listed (shape : staging) (stages : list stage) :
  Server.stagesOf (pipelineJson shape stages) = JArr (List.map stageJson stages).
Proof. now destruct shape. Qed.

Lemma nameMatches_opportunity (stageName : string) (o : opportunity) :
  Server.nameMatches stageName "stageName" (opportunityJson o) = inr (atStage stageName o).
Proof.
  unfold Server.nameMatches.
  destruct (opportunity_fields o) as (_ & -> & _). apply matchName_string.
Qed.

Lemma nameMatches_stage (stageName : string) (st : stage) :
  Server.nameMatches stageName "name" (stageJson st) = inr (isNamed stageName st).
Proof. unfold Server.nameMatches. cbn [Js.prop stageJson Js.opt Js.assoc String.eqb Ascii.eqb Bool.eqb]. apply matchName_string. Qed.

(** The [stageId] of a well-formed opportunity is returned unless empty. *)
Ltac settle_id o :=
  rewrite ?(proj1 (proj2 (proj2 (opportunity_fields o))));
  unfold Server.returnIfTruthy, usableId; cbn [Js.truthy]; unfold JsString.truthy;
  now destruct (JsString.isEmpty (opp_stageId o)).

Lemma usable_response (r : response) :
  unusable (FetchResponse r) -> res_ok r = true -> res_json r = None.
Proof.
  intros [H|[text H]] Hok; [congruence|]. unfold res_json. now rewrite H.
Qed.

Lemma tryFiltered_listed (v1Key loc : string) (pipelineId : option string)
    (stageName : string) (s : w_state w) (shape : listing) (opps : list opportunity) :
  answers (fst (w_respond w (GhlGetOpportunities v1Key loc
                               (Some (Server.template pipelineId))) s))
    (opportunitiesJson shape opps) ->
  result (run w (Server.tryFiltered v1Key loc pipelineId stageName) s)
  = Returned (usableId (option_map opp_stageId (List.find (atStage stageName) opps))).
Proof.
  intros (r & Ha & Hok & Hbody). unfold Server.tryFiltered.
  rewrite run_try_catch, run_bind, run_await. cbn [result trace final].
  rewrite Ha. cbn [Server.afterFetch]. rewrite Hok. unfold res_json. rewrite Hbody.
  cbv zeta. rewrite opportunitiesOf_listed. cbn [Server.findIn].
  rewrite (find_listed opportunityJson _ (atStage stageName))
    by apply nameMatches_opportunity.
  cbn [lift bind].
  destruct (List.find _ opps) as [o|]; cbn [option_map]; [|reflexivity].
  settle_id o.
Qed.

Lemma tryFiltered_unusable (v1Key loc : string) (pipelineId : option string)
    (stageName : string) (s : w_state w) :
  unusable (fst (w_respond w (GhlGetOpportunities v1Key loc
                                (Some (Server.template pipelineId))) s)) ->
  result (run w (Server.tryFiltered v1Key loc pipelineId stageName) s) = Returned None.
Proof.
  intros H. unfold Server.tryFiltered.
  rewrite run_try_catch, run_bind, run_await. cbn [result trace final].
  destruct (fst (w_respond w _ s)) as [m|r]; [reflexivity|].
  cbn [Server.afterFetch]. destruct (res_ok r) eqn:Hok; [|reflexivity].
  now rewrite (usable_response r H Hok).
Qed.

Lemma tryUnfiltered_listed (v1Key loc : string) (pipelineId : option string)
    (stageName : string) (s : w_state w) (shape : listing) (opps : list opportunity) :
  answers (fst (w_respond w (GhlGetOpportunities v1Key loc None) s))
    (opportunitiesJson shape opps) ->
  result (run w (Server.tryUnfiltered v1Key loc pipelineId stageName) s)
  = Returned (usableId (option_map opp_stageId (preferred pipelineId stageName opps))).
Proof.
  intros (r & Ha & Hok & Hbody). unfold Server.tryUnfiltered.
  rewrite run_try_catch, run_bind, run_await. cbn [result trace final].
  rewrite Ha. cbn [Server.afterFetch]. rewrite Hok. unfold res_json. rewrite Hbody.
  cbv zeta. rewrite opportunitiesOf_listed. cbn [Server.findIn].
  rewrite (find_listed opportunityJson _
             (fun o => match pipelineId with
                       | Some p => inPipelineAtStage p stageName o
                       | None => false
                       end)).
  2:{ intros o. destruct (opportunity_fields o) as (-> & _ & _ & _).
      rewrite nameMatches_opportunity. unfold inPipelineAtStage, atStage.
      destruct pipelineId as [p|]; cbn [Server.strictEq Js.strictEqStr]; [|reflexivity].
      now destruct (String.eqb (opp_pipelineId o) p). }
  rewrite (find_listed opportunityJson _ (atStage stageName))
    by apply nameMatches_opportunity.
  cbn [lift bind]. unfold preferred.
  destruct pipelineId as [p|].
  - destruct (List.find (fun o => inPipelineAtStage p stageName o) opps) as [o|] eqn:Hp.
    + destruct (opportunity_fields o) as (_ & _ & _ & ->). cbn [bind option_map].
      settle_id o.
    + cbn [Js.truthy bind lift].
      destruct (List.find (atStage stageName) opps) as [o|]; cbn [option_map];
        [settle_id o|reflexivity].
  - rewrite find_never. cbn [Js.truthy bind lift].
    destruct (List.find (atStage stageName) opps) as [o|]; cbn [option_map];
      [settle_id o|reflexivity].
Qed.

Lemma tryUnfiltered_unusable (v1Key loc : string) (pipelineId : option string)
    (stageName : string) (s : w_state w) :
  unusable (fst (w_respond w (GhlGetOpportunities v1Key loc None) s)) ->
  result (run w (Server.tryUnfiltered v1Key loc pipelineId stageName) s) = Returned None.
Proof.
  intros H. unfold Server.tryUnfiltered.
  rewrite run_try_catch, run_bind, run_await. cbn [result trace final].
  destruct (fst (w_respond w _ s)) as [m|r]; [reflexivity|].
  cbn [Server.afterFetch]. destruct (res_ok r) eqn:Hok; [|reflexivity].
  now rewrite (usable_response r H Hok).
Qed.

Lemma tryPipeline_listed (v1Key loc : string) (pipelineId : option string)
    (stageName : string) (s : w_state w) (shape : staging) (stages : list stage) :
  answers (fst (w_respond w (GhlGetPipeline v1Key loc (Server.template pipelineId)) s))
    (pipelineJson shape stages) ->
  result (run w (Server.tryPipeline v1Key loc pipelineId stageName) s)
  = Returned (usableId (option_map stage_id (List.find (isNamed stageName) stages))).
Proof.
  intros (r & Ha & Hok & Hbody). unfold Server.tryPipeline.
  rewrite run_try_catch, run_bind, run_await. cbn [result trace final].
  rewrite Ha. cbn [Server.afterFetch]. rewrite Hok. unfold res_json. rewrite Hbody.
  cbv zeta. rewrite stagesOf_listed. cbn [Js.isArray Server.findIn].
  rewrite (find_listed stageJson _ (isNamed stageName)) by apply nameMatches_stage.
  cbn [lift bind]. unfold Server.returnIfTruthy, usableId.
  destruct (List.find _ stages) as [st|]; cbn [option_map]; [|reflexivity].
  cbn [stageJson Js.opt Js.assoc String.eqb Ascii.eqb Bool.eqb Js.truthy].
  unfold JsString.truthy. now destruct (JsString.isEmpty (stage_id st)).
Qed.

Lemma tryPipeline_unusable (v1Key loc : string) (pipelineId : option string)
    (stageName : string) (s : w_state w) :
  unusable (fst (w_respond w (GhlGetPipeline v1Key loc (Server.template pipelineId)) s)) ->
  result (run w (Server.tryPipeline v1Key loc pipelineId stageName) s) = Returned None.
Proof.
  intros H. unfold Server.tryPipeline.
  rewrite run_try_catch, run_bind, run_await. cbn [result trace final].
  destruct (fst (w_respond w _ s)) as [m|r]; [reflexivity|].
  cbn [Server.afterFetch]. destruct (res_ok r) eqn:Hok; [|reflexivity].
  now rewrite (usable_response r H Hok).
Qed.

End ProbeAnswers.

(** A CRM whose filtered opportunity list is missing (404) and whose
    unfiltered list holds two opportunities. *)
Definition opportunitiesWorld : world :=
  {| w_state := unit;
     w_respond := fun c s =>
       match c as c0 return resp c0 * unit with
       | StripeCustomersRetrieve _ => (inl (StripeError "No such customer"), s)
       | GhlGetOpportunities _ _ (Some _) =>
           (FetchResponse {| res_status := 404; res_body := TextBody "Not Found" |}, s)
       | GhlGetOpportunities _ _ None =>
           (FetchResponse
              {| res_status := 200;
                 res_body :=
                   JsonBody
                     (JObj [("opportunities",
                             JArr [JObj [("pipelineId", JStr "p2");
                                         ("stageName", JStr "Trial");
                                         ("stageId", JStr "st_other")];
                                   JObj [("pipelineId", JStr "p1");
                                         ("stageName", JStr "trial");
                                         ("stageId", JStr "st_9")]])]) |}, s)
       | _ => (FetchRejects "fetch failed", s)
       end |}.

(** C9. A call of the resolver whose key is cached returns the cached id
    and awaits nothing.  On a miss with the CRM settings present, the
    three probes run in order (filtered opportunities, unfiltered
    opportunities, pipeline object), each with exactly one request to its
    endpoint.  A probe whose request fails, is answered outside 2xx or
    with a text that is no JSON resolves nothing.  When its request is
    answered with a well-formed list, the first probe resolves the stage
    id of the first opportunity at the stage (letter case apart), the
    second that of the first opportunity in the pipeline and at the
    stage, else of the first at the stage, the third the id of the first
    stage of that name; an empty id resolves nothing.  The first probe
    that resolves an id ends the call, with that id returned and stored
    under the key and no later probe attempted; if none resolves, the
    call throws [Could not resolve v1 stageId for "<stage name>"] after
    the three requests.  Whatever a call returns is what every later call
    with the same pair returns from the cache it left, without any call;
    and a call never changes or removes an entry the cache already holds,
    so this stays true after calls for other pairs. *)
Theorem C9_stage_resolver
    (env : Env) (w : world) (s : w_state w)
    (pipelineId : option string) (stageName : string)
    (_stageIdCache : gmap string jsval) :
  let key := Server.cacheKey pipelineId stageName in
  let v1Key := apiKeyOf env in
  let loc := locationIdOf env in
  let P1 := GhlGetOpportunities v1Key loc (Some (Server.template pipelineId)) in
  let P2 := GhlGetOpportunities v1Key loc None in
  let P3 := GhlGetPipeline v1Key loc (Server.template pipelineId) in
  let r := run w (Server.resolveV1StageIdByName env pipelineId stageName _stageIdCache) s in
  (forall cached, _stageIdCache !! key = Some cached ->
     r = {| result := Returned (cached, _stageIdCache); trace := []; final := s |})
  /\ (_stageIdCache !! key = None -> configured env ->
      let r1 := run w (Server.tryFiltered v1Key loc pipelineId stageName) s in
      let r2 := run w (Server.tryUnfiltered v1Key loc pipelineId stageName) (final r1) in
      let r3 := run w (Server.tryPipeline v1Key loc pipelineId stageName) (final r2) in
      let a1 := fst (w_respond w P1 s) in
      let a2 := fst (w_respond w P2 (final r1)) in
      let a3 := fst (w_respond w P3 (final r2)) in
      (external (trace r1) = [P1] /\ final r1 = snd (w_respond w P1 s)
       /\ (unusable a1 -> result r1 = Returned None)
       /\ (forall shape opps,
             answers a1 (opportunitiesJson shape opps) ->
             result r1
             = Returned (usableId (option_map opp_stageId
                                     (List.find (atStage stageName) opps)))))
      /\ (external (trace r2) = [P2] /\ final r2 = snd (w_respond w P2 (final r1))
          /\ (unusable a2 -> result r2 = Returned None)
          /\ (forall shape opps,
                answers a2 (opportunitiesJson shape opps) ->
                result r2
                = Returned (usableId (option_map opp_stageId
                                        (preferred pipelineId stageName opps)))))
      /\ (external (trace r3) = [P3] /\ final r3 = snd (w_respond w P3 (final r2))
          /\ (unusable a3 -> result r3 = Returned None)
          /\ (forall shape stages,
                answers a3 (pipelineJson shape stages) ->
                result r3
                = Returned (usableId (option_map stage_id
                                        (List.find (isNamed stageName) stages)))))
      /\ match result r1 with
         | Returned (Some stageId) =>
             result r = Returned (stageId, <[key := stageId]> _stageIdCache)
             /\ external (trace r) = [P1]
         | _ =>
             match result r2 with
             | Returned (Some stageId) =>
                 result r = Returned (stageId, <[key := stageId]> _stageIdCache)
                 /\ external (trace r) = [P1; P2]
             | _ =>
                 match result r3 with
                 | Returned (Some stageId) =>
                     result r = Returned (stageId, <[key := stageId]> _stageIdCache)
                     /\ external (trace r) = [P1; P2; P3]
                 | _ =>
                     result r = Threw (Error (Server.unresolved stageName))
                     /\ external (trace r) = [P1; P2; P3]
                 end
             end
         end)
  /\ (forall stageId cache',
        result r = Returned (stageId, cache') ->
        cache' !! key = Some stageId
        /\ (forall (w' : world) (s' : w_state w'),
              run w' (Server.resolveV1StageIdByName env pipelineId stageName cache') s'
              = {| result := Returned (stageId, cache'); trace := []; final := s' |})
        /\ (forall other held, _stageIdCache !! other = Some held ->
                               cache' !! other = Some held)).
Proof.
  intros key v1Key loc P1 P2 P3 r. subst v1Key loc.
  assert (Hhit : forall cache cached (w0 : world) (s0 : w_state w0),
            cache !! key = Some cached ->
            run w0 (Server.resolveV1StageIdByName env pipelineId stageName cache) s0
            = {| result := Returned (cached, cache); trace := []; final := s0 |}).
  { intros cache cached w0 s0 H. unfold Server.resolveV1StageIdByName.
    fold key. rewrite H. reflexivity. }
  pose (r1 := run w (Server.tryFiltered (apiKeyOf env) (locationIdOf env)
                       pipelineId stageName) s).
  pose (r2 := run w (Server.tryUnfiltered (apiKeyOf env) (locationIdOf env)
                       pipelineId stageName) (final r1)).
  pose (r3 := run w (Server.tryPipeline (apiKeyOf env) (locationIdOf env)
                       pipelineId stageName) (final r2)).
  destruct (tryFiltered_run w (apiKeyOf env) (locationIdOf env) pipelineId stageName s)
    as (Ht1 & Hf1 & f1 & Hr1).
  destruct (tryUnfiltered_run w (apiKeyOf env) (locationIdOf env) pipelineId stageName
              (final r1)) as (Ht2 & Hf2 & f2 & Hr2).
  destruct (tryPipeline_run w (apiKeyOf env) (locationIdOf env) pipelineId stageName
              (final r2)) as (Ht3 & Hf3 & f3 & Hr3).
  cbv zeta in Ht1, Ht2, Ht3, Hf1, Hf2, Hf3, Hr1, Hr2, Hr3.
  fold r1 in Ht1, Hf1, Hr1. fold r2 in Ht2, Hf2, Hr2. fold r3 in Ht3, Hf3, Hr3.
  fold P1 in Ht1, Hf1. fold P2 in Ht2, Hf2. fold P3 in Ht3, Hf3.
  assert (Hchain : _stageIdCache !! key = None -> configured env ->
      match result r1 with
      | Returned (Some stageId) =>
          result r = Returned (stageId, <[key := stageId]> _stageIdCache)
          /\ external (trace r) = [P1]
      | _ =>
          match result r2 with
          | Returned (Some stageId) =>
              result r = Returned (stageId, <[key := stageId]> _stageIdCache)
              /\ external (trace r) = [P1; P2]
          | _ =>
              match result r3 with
              | Returned (Some stageId) =>
                  result r = Returned (stageId, <[key := stageId]> _stageIdCache)
                  /\ external (trace r) = [P1; P2; P3]
              | _ =>
                  result r = Threw (Error (Server.unresolved stageName))
                  /\ external (trace r) = [P1; P2; P3]
              end
          end
      end).
  { intros Hnone [Hk Hl].
    subst r. unfold Server.resolveV1StageIdByName. fold key. rewrite Hnone.
    apply JsStringFacts.isEmpty_false in Hk, Hl.
    fold (apiKeyOf env) (locationIdOf env). rewrite Hk, Hl. cbn [orb].
    rewrite run_bind. fold r1. rewrite Hr1. cbv zeta. cbn [result trace final].
    destruct f1 as [id1|].
    { cbn [run result trace final]. rewrite app_nil_r. auto. }
    rewrite run_bind. fold r2. rewrite Hr2. cbv zeta. cbn [result trace final].
    destruct f2 as [id2|].
    { cbn [run result trace final]. rewrite app_nil_r, external_app, Ht1, Ht2. auto. }
    rewrite run_bind. fold r3. rewrite Hr3. cbv zeta. cbn [result trace final].
    destruct f3 as [id3|];
      cbn [run result trace final];
      rewrite app_nil_r, !external_app, Ht1, Ht2, Ht3; auto. }
  split; [intros cached H; apply Hhit, H|]. split.
  { intros Hnone Hconf. cbv zeta. fold r1 r2 r3.
    split; [|split; [|split; [|exact (Hchain Hnone Hconf)]]].
    - split; [exact Ht1|]. split; [exact Hf1|]. split.
      + apply tryFiltered_unusable.
      + intros shape opps. apply tryFiltered_listed.
    - split; [exact Ht2|]. split; [exact Hf2|]. split.
      + apply tryUnfiltered_unusable.
      + intros shape opps. apply tryUnfiltered_listed.
    - split; [exact Ht3|]. split; [exact Hf3|]. split.
      + apply tryPipeline_unusable.
      + intros shape stages. apply tryPipeline_listed. }
  intros stageId cache' Hres.
  assert (Hform : (cache' = _stageIdCache /\ _stageIdCache !! key = Some stageId)
                  \/ (cache' = <[key := stageId]> _stageIdCache
                      /\ _stageIdCache !! key = None)).
  { destruct (_stageIdCache !! key) as [cached|] eqn:Hlook.
    - subst r. rewrite (Hhit _ _ w s Hlook) in Hres. cbn [result] in Hres.
      injection Hres as <- <-. now left.
    - right. destruct (configured_dec env) as [Hc|Hc].
      + pose proof (Hchain eq_refl Hc) as H.
        repeat match type of H with
               | match ?x with _ => _ end => destruct x
               end;
          destruct H as [H _]; rewrite H in Hres; try discriminate Hres;
          injection Hres as <- <-; auto.
      + exfalso. subst r. unfold Server.resolveV1StageIdByName in Hres.
        fold key in Hres. rewrite Hlook in Hres.
        fold (apiKeyOf env) (locationIdOf env) in Hres.
        destruct (JsString.isEmpty (apiKeyOf env)) eqn:Hk; [discriminate Hres|].
        destruct (JsString.isEmpty (locationIdOf env)) eqn:Hl; [discriminate Hres|].
        apply Hc. split; now apply JsStringFacts.isEmpty_false. }
  assert (Hcached : cache' !! key = Some stageId).
  { destruct Hform as [[-> H]|[-> _]]; [exact H|apply lookup_insert_eq]. }
  split; [exact Hcached|]. split; [intros w' s'; now apply Hhit|].
  intros other held Hheld. destruct Hform as [[-> _]|[-> Hnone]]; [exact Hheld|].
  rewrite lookup_insert_ne; [exact Hheld|]. intros <-. congruence.
Qed.

(** C9 at [opportunitiesWorld]: the filtered list is answered 404, the
    unfiltered list holds an opportunity of another pipeline at the stage
    and one of pipeline [p1]; [Trial] in [p1] resolves to the latter's
    [st_9] after two requests, and the id is stored. *)
Lemma C9_witness :
  let r := run opportunitiesWorld
             (Server.resolveV1StageIdByName Sample.env (Some "p1") "Trial" ∅) tt in
  result r
  = Returned (JStr "st_9", <[Server.cacheKey (Some "p1") "Trial" := JStr "st_9"]> ∅)
  /\ external (trace r)
     = [GhlGetOpportunities (apiKeyOf Sample.env) (locationIdOf Sample.env) (Some "p1");
        GhlGetOpportunities (apiKeyOf Sample.env) (locationIdOf Sample.env) None].
Proof.
  destruct (C9_stage_resolver Sample.env opportunitiesWorld tt (Some "p1") "Trial" ∅)
    as (_ & Hmiss & _).
  specialize (Hmiss (lookup_empty _) sample_configured). cbv zeta in Hmiss.
  destruct Hmiss as ((_ & _ & Hno1 & _) & (_ & _ & _ & Hlist2) & _ & Hchain).
  rewrite (Hno1 (or_introl eq_refl)) in Hchain.
  rewrite (Hlist2 UnderOpportunities
             [{| opp_pipelineId := "p2"; opp_stageName := "Trial";
                 opp_stageId := "st_other" |};
              {| opp_pipelineId := "p1"; opp_stageName := "trial";
                 opp_stageId := "st_9" |}]
             (ex_intro _ _ (conj eq_refl (conj eq_refl eq_refl)))) in Hchain.
  exact Hchain.
Defined.

(** The resolver against [opportunitiesWorld]: the filtered list fails,
    the unfiltered list resolves [Trial] in pipeline [p1] to [st_9] after
    two requests, and the next call answers from the cache. *)
Example resolver_sample :
  let first := run opportunitiesWorld
                 (Server.resolveV1StageIdByName Sample.env (Some "p1") "Trial" ∅) tt in
  external (trace first)
  = [GhlGetOpportunities "v1-key" "loc-1" (Some "p1");
     GhlGetOpportunities "v1-key" "loc-1" None]
  /\ result first = Returned (JStr "st_9", {[ "p1::Trial" := JStr "st_9" ]})
  /\ run opportunitiesWorld
       (Server.resolveV1StageIdByName Sample.env (Some "p1") "Trial"
          {[ "p1::Trial" := JStr "st_9" ]}) tt
     = {| result := Returned (JStr "st_9", {[ "p1::Trial" := JStr "st_9" ]});
          trace := []; final := tt |}.
Proof. vm_compute. repeat split; reflexivity. Qed.

(** ** Further properties *)

(** The failed-invoice scenario of the specification: an
    [invoice.payment_failed] event with customer email [a@x.com], invoice
    [in_1] and subscription [sub_1] calls the upsert with the tags
    [fc:payment_failed], [evt:in_in_1] and [evt:sub_sub_1], and no names;
    with a representable event time and the CRM settings, the one body
    written holds the three tags. *)
Theorem invoice_failed_scenario
    (env : Env) (created : Z)
    (details : option Details.t) (customer status : option string) :
  let event :=
    {| ev_type := "invoice.payment_failed";
       ev_created := created;
       ev_object :=
         Obj.make details (Some "a@x.com") customer (Some "in_1") (Some "sub_1") status |} in
  Webhooks.dispatch env event
  = bind (lift (Webhooks.eventTime event))
      (fun time =>
         bind
           (Webhooks.ghlV1UpsertContact env
              (Payload.make "a@x.com" None None None
                 ["fc:payment_failed"; "evt:in_in_1"; "evt:sub_sub_1"]
                 [("Last Invoice ID", "in_1");
                  ("Last Subscription ID", "sub_1");
                  ("Stripe Customer ID", or_empty customer);
                  ("Last Stripe Event Type", "invoice.payment_failed");
                  ("Last Stripe Event Time", time)]))
           (fun _ => Ret tt))
  /\ forall (w : world) (s : w_state w) (time : string),
       Webhooks.eventTime event = inr time ->
       configured env ->
       exists p : Payload.t,
         written (external (trace (run w (Webhooks.processEvent env event) s))) = [p]
         /\ Payload.email p = "a@x.com"
         /\ "fc:payment_failed" ∈ Payload.tags p
         /\ "evt:in_in_1" ∈ Payload.tags p
         /\ "evt:sub_sub_1" ∈ Payload.tags p.
Proof.
  cbv zeta. split; [reflexivity|].
  intros w s time Htime Hconf.
  match goal with
  | |- context [Webhooks.processEvent env ?e] => set (event := e) in *
  end.
  assert (Hne : "a@x.com" <> EmptyString) by discriminate.
  destruct (processEvent_written env w event Dispatch.InvoiceFailed s
              "a@x.com" time eq_refl eq_refl Hne Htime Hconf) as [Hw _].
  eexists. split; [exact Hw|]. repeat split;
    tag_is_sent.
Qed.

Lemma cacheKey_regroup (a b c : string) :
  Server.cacheKey (Some a) (b +:+ "::" +:+ c)
  = Server.cacheKey (Some (a +:+ "::" +:+ b)) c.
Proof.
  unfold Server.cacheKey, Server.template.
  induction a as [|ch a IH]; [reflexivity|].
  exact (f_equal (String ch) IH).
Qed.

(** The cache key joins the pipeline id and the stage name with [::], so
    two different pairs share a key whenever the text can be cut at
    another [::]: for all texts [a], [b], [c], an entry stored for pipeline
    [a::b] and stage [c] answers a call for pipeline [a] and stage [b::c],
    without any request. *)
Theorem stage_cache_key_collision
    (env : Env) (w : world) (s : w_state w) (a b c : string) (stageId : jsval)
    (_stageIdCache : gmap string jsval) :
  _stageIdCache !! Server.cacheKey (Some (a +:+ "::" +:+ b)) c = Some stageId ->
  (Some (a +:+ "::" +:+ b), c) <> (Some a, b +:+ "::" +:+ c)
  /\ run w (Server.resolveV1StageIdByName env (Some a) (b +:+ "::" +:+ c) _stageIdCache) s
     = {| result := Returned (stageId, _stageIdCache); trace := []; final := s |}.
Proof.
  intros Hheld.
  assert (Hlen : forall x y : string,
            String.length (x +:+ y) = (String.length x + String.length y)%nat).
  { intros x y. induction x as [|ch x IH]; simpl; [reflexivity|now rewrite IH]. }
  split.
  - intros H. injection H as H1 H2.
    apply (f_equal String.length) in H1. rewrite !Hlen in H1. simpl in H1. lia.
  - unfold Server.resolveV1StageIdByName.
    now rewrite cacheKey_regroup, Hheld.
Qed.

Lemma stage_cache_key_collision_witness :
  (Some ("p1" +:+ "::" +:+ "Sales"), "Trial") <> (Some "p1", "Sales" +:+ "::" +:+ "Trial")
  /\ run opportunitiesWorld
       (Server.resolveV1StageIdByName Sample.env (Some "p1") ("Sales" +:+ "::" +:+ "Trial")
          {[ Server.cacheKey (Some "p1::Sales") "Trial" := JStr "st_1" ]}) tt
     = {| result :=
            Returned (JStr "st_1",
                      {[ Server.cacheKey (Some "p1::Sales") "Trial" := JStr "st_1" ]});
          trace := []; final := tt |}.
Proof.
  apply (stage_cache_key_collision Sample.env opportunitiesWorld tt "p1" "Sales" "Trial"
           (JStr "st_1") {[ Server.cacheKey (Some "p1::Sales") "Trial" := JStr "st_1" ]}).
  apply lookup_singleton_eq.
Defined.

(** A contact whose [tags] is a truthy value other than an array (a
    string, a number, an object), whatever its other fields, makes the
    merge step throw inside its [try]: the upsert still posts, with the
    cleaned new tags alone. *)
Theorem malformed_tags_fall_back_to_new
    (env : Env) (w : world) (s : w_state w) (args : Payload.t) :
  let existing :=
    contactOf (fst (w_respond w
      (GhlGetContacts (apiKeyOf env) (locationIdOf env) (Payload.email args)) s)) in
  configured env -> Payload.email args <> EmptyString ->
  Js.truthy (Js.opt existing "tags") = true ->
  Js.isArray (Js.opt existing "tags") = false ->
  exists p : Payload.t,
    written (external (trace (run w (Webhooks.ghlV1UpsertContact env args) s))) = [p]
    /\ Payload.tags p = JsString.arrayFromSet (cleanTags (Payload.tags args)).
Proof.
  intros existing Hc He Htruthy Harray.
  destruct (upsert_run env w s args Hc He) as (Htr & _). cbv zeta in Htr.
  rewrite Htr. fold existing. eexists. split; [reflexivity|].
  cbn [payloadOf Payload.tags]. unfold mergedTags, Webhooks.existingTagsOf, Js.or.
  rewrite Htruthy. now destruct (Js.opt existing "tags").
Qed.

(** A world whose contact lookup answers with one contact whose [tags] is
    the text [a,b]. *)
Definition textTagsWorld : world :=
  {| w_state := unit;
     w_respond := fun c s =>
       match c as c0 return resp c0 * unit with
       | StripeCustomersRetrieve _ => (inl (StripeError "No such customer"), s)
       | GhlGetContacts _ _ _ =>
           (FetchResponse
              {| res_status := 200;
                 res_body :=
                   JsonBody
                     (JObj [("contacts",
                             JArr [JObj [("id", JStr "c_1");
                                         ("email", JStr "a@x.com");
                                         ("tags", JStr "a,b")]])]) |}, s)
       | _ => (FetchResponse {| res_status := 200; res_body := JsonBody (JObj []) |}, s)
       end |}.

Lemma malformed_tags_witness :
  exists p : Payload.t,
    written (external (trace (run textTagsWorld
      (Webhooks.ghlV1UpsertContact Sample.env
         (Payload.make "a@x.com" None None None [" x "; "y"] [])) tt))) = [p]
    /\ Payload.tags p = JsString.arrayFromSet (cleanTags [" x "; "y"]).
Proof.
  apply (malformed_tags_fall_back_to_new Sample.env textTagsWorld tt
           (Payload.make "a@x.com" None None None [" x "; "y"] [])).
  - exact sample_configured.
  - discriminate.
  - reflexivity.
  - reflexivity.
Defined.

(** The handler never throws: whatever the request, the event and the
    world, it answers, and only with status 200, 400 or 500. *)
Theorem handler_always_answers
    (env : Env)
    (constructEvent : string -> option string -> option string -> exn + stripe_event)
    (w : world) (s : w_state w) (req : request) :
  exists res : http_response,
    result (run w (Webhooks.registerStripeWebhooks env constructEvent req) s)
    = Returned res
    /\ (http_status res = 200 \/ http_status res = 400 \/ http_status res = 500).
Proof.
  unfold Webhooks.registerStripeWebhooks.
  destruct (constructEvent _ _ _) as [err|event].
  - simpl. eauto.
  - unfold Webhooks.processEvent. rewrite run_try_catch, run_bind.
    destruct (result (run w (Webhooks.dispatch env event) s)) as [[]|e]; simpl; eauto.
Qed.

(** A verified event of a type without a [case] of its own is
    acknowledged with 200 and nothing else happens. *)
Theorem other_event_types_are_ignored
    (env : Env)
    (constructEvent : string -> option string -> option string -> exn + stripe_event)
    (w : world) (s : w_state w) (req : request) (event : stripe_event) :
  verifies env constructEvent req event ->
  Dispatch.recognized (ev_type event) = None ->
  run w (Webhooks.registerStripeWebhooks env constructEvent req) s
  = {| result := Returned ok200; trace := []; final := s |}.
Proof.
  intros Hv Hnone. rewrite (route_verified _ _ _ _ Hv).
  apply processEvent_ignored. unfold Dispatch.acted_on. now rewrite Hnone.
Qed.

Lemma other_event_types_witness :
  let event :=
    {| ev_type := "customer.subscription.created";
       ev_created := 1700000000;
       ev_object := Sample.noObject |} in
  run (Crm.world Sample.customers Crm.healthy)
    (Webhooks.registerStripeWebhooks Sample.env (Sample.constructEvent event) Sample.signed)
    Sample.store
  = {| result := Returned ok200; trace := []; final := Sample.store |}.
Proof.
  apply (other_event_types_are_ignored Sample.env
           (Sample.constructEvent
              {| ev_type := "customer.subscription.created";
                 ev_created := 1700000000;
                 ev_object := Sample.noObject |})
           (Crm.world Sample.customers Crm.healthy) Sample.store Sample.signed
           {| ev_type := "customer.subscription.created";
              ev_created := 1700000000;
              ev_object := Sample.noObject |}); reflexivity.
Defined.

(** ** The handler's calls to the CRM *)

(** A call to the CRM (GoHighLevel). *)
Definition is_ghl (c : call) : bool :=
  match c with
  | GhlGetContacts _ _ _ | GhlPostContacts _ _ _ | GhlPostContactsUpsert _ _ _
  | GhlGetOpportunities _ _ _ | GhlGetPipeline _ _ _ => true
  | _ => false
  end.

(** Every contact write of a call sequence comes right after the lookup
    of the same contact, made with the same credentials. *)
Fixpoint reads_guard_writes (prev : option call) (calls : list call) : bool :=
  match calls with
  | [] => true
  | c :: rest =>
      match c with
      | GhlPostContacts apiKey locationId p =>
          match prev with
          | Some (GhlGetContacts apiKey' locationId' query) =>
              String.eqb apiKey apiKey' && String.eqb locationId locationId'
              && String.eqb query (Payload.email p)
          | _ => false
          end
      | GhlPostContactsUpsert _ _ _ => false
      | _ => true
      end && reads_guard_writes (Some c) rest
  end.

Section HandlerCalls.

Import JsString JsStringFacts.

Variable env : Env.
Variable w : world.

Lemma guard_without_writes (calls : list call) (prev : option call) :
  written calls = [] -> reads_guard_writes prev calls = true.
Proof.
  revert prev. induction calls as [|c rest IH]; intros prev H; [reflexivity|].
  destruct c; simpl in *; try discriminate H; now apply IH.
Qed.

Lemma guard_read_write (before after : list call) (apiKey locationId email : string)
    (p : Payload.t) (prev : option call) :
  Payload.email p = email ->
  written before = [] -> written after = [] ->
  reads_guard_writes prev
    (before ++ [GhlGetContacts apiKey locationId email;
                GhlPostContacts apiKey locationId p] ++ after) = true.
Proof.
  intros <- Hb Ha. revert prev. induction before as [|c rest IH]; intros prev.
  - simpl. rewrite !String.eqb_refl. simpl. now apply guard_without_writes.
  - destruct c; simpl in *; try discriminate Hb; now apply IH.
Qed.

(** The upsert with the CRM settings missing: one error line, no call. *)
Lemma upsert_unconfigured_run (s : w_state w) (args : Payload.t) :
  Payload.email args <> EmptyString -> ~ configured env ->
  run w (Webhooks.ghlV1UpsertContact env args) s
  = {| result := Returned JUndefined;
       trace := [Logged LogError "[GHL upsert] Missing GHL_V1_API_KEY or GHL_LOCATION_ID"];
       final := s |}.
Proof.
  intros He Hc. unfold Webhooks.ghlV1UpsertContact.
  apply isEmpty_false in He. rewrite He. fold (apiKeyOf env) (locationIdOf env).
  destruct (isEmpty (apiKeyOf env)) eqn:Hk; [reflexivity|].
  destruct (isEmpty (locationIdOf env)) eqn:Hl; [reflexivity|].
  exfalso. apply Hc. split; now apply isEmpty_false.
Qed.

(** The handler's [switch] with the CRM settings missing. *)
Lemma processEvent_unconfigured (event : stripe_event) (k : Dispatch.kind)
    (s : w_state w) (email time : string) :
  Dispatch.acted_on event = Some k ->
  let look := run w (Dispatch.identity k event) s in
  result look = Returned email -> email <> EmptyString ->
  Webhooks.eventTime event = inr time ->
  ~ configured env ->
  let after := run w (Dispatch.afterUpsert env k event email) (final look) in
  run w (Webhooks.processEvent env event) s
  = {| result := Returned ok200;
       trace := trace look
                ++ [Logged LogError "[GHL upsert] Missing GHL_V1_API_KEY or GHL_LOCATION_ID"]
                ++ trace after;
       final := final after |}.
Proof.
  intros Hact look Hlook Hne Htime Hconf after.
  assert (Hargs : Payload.email (Dispatch.upsertArgs k event email time) = email)
    by now destruct k.
  unfold Webhooks.processEvent.
  rewrite Dispatch.table_correct. unfold Dispatch.table. rewrite Hact.
  rewrite run_try_catch, run_bind, run_bind. fold look. rewrite Hlook.
  pose proof Hne as He. apply isEmpty_false in He.
  cbv zeta. cbn [result final trace]. rewrite He.
  rewrite run_bind, Htime. cbn [lift run result final trace app].
  rewrite run_bind, upsert_unconfigured_run by (rewrite ?Hargs; assumption).
  cbn [result final trace]. fold after.
  destruct (afterUpsert_run env w k event email (final look)) as [Hr _].
  cbv zeta in Hr. fold after in Hr. rewrite Hr. cbn [result final trace run].
  now rewrite app_nil_r.
Qed.

Lemma stripe_only_no_ghl (calls : list call) (customerId : string) :
  calls = [] \/ calls = [StripeCustomersRetrieve customerId] ->
  List.filter is_ghl calls = [] /\ written calls = [].
Proof. intros [->| ->]; auto. Qed.

Lemma subscribeTags_calls (key email : string) (tagIds : list string) (s : w_state w) :
  external (trace (run w (Webhooks.subscribeTags key email tagIds) s))
  = List.map (fun tagId => ConvertKitTagSubscribe tagId key email) tagIds.
Proof.
  revert s. induction tagIds as [|tagId rest IH]; intros s; [reflexivity|].
  cbn [Webhooks.subscribeTags List.map]. rewrite run_bind. simpl.
  destruct (w_respond w (ConvertKitTagSubscribe tagId key email) s) as [[m|r] s'];
    simpl; specialize (IH s');
    destruct (run w (Webhooks.subscribeTags key email rest) s') as [[?|?] ? ?];
    simpl in *; now rewrite IH.
Qed.

End HandlerCalls.

(** Whatever the request, the event and the answers of the services, the
    handler writes at most one contact, and every contact write comes
    right after the lookup of the same email with the same credentials:
    the tags of a contact are never written without having been read. *)
Theorem handler_reads_before_single_write
    (env : Env)
    (constructEvent : string -> option string -> option string -> exn + stripe_event)
    (w : world) (s : w_state w) (req : request) :
  let r := run w (Webhooks.registerStripeWebhooks env constructEvent req) s in
  (length (written (external (trace r))) <= 1)%nat
  /\ reads_guard_writes None (external (trace r)) = true.
Proof.
  cbv zeta. unfold Webhooks.registerStripeWebhooks.
  destruct (constructEvent _ _ _) as [err|event]; [simpl; auto|].
  destruct (Dispatch.acted_on event) as [k|] eqn:Hact;
    [|rewrite (processEvent_ignored env w event s Hact); simpl; auto].
  destruct (identity_run w k event s) as [[email Hlook] _].
  destruct (identity_writes_nothing w k event s) as [Hw0 _].
  cbv zeta in Hlook, Hw0.
  destruct (decide (email = EmptyString)) as [->|Hne].
  { rewrite (processEvent_no_email env w event k s Hact Hlook). cbn [trace].
    rewrite external_app, written_app, Hw0. simpl. split; [lia|].
    rewrite app_nil_r. now apply guard_without_writes. }
  destruct (Webhooks.eventTime event) as [e|time] eqn:Htime.
  { rewrite (processEvent_bad_time env w event k s email e Hact Hlook Hne Htime).
    cbn [trace]. rewrite external_app, written_app, Hw0. simpl. split; [lia|].
    rewrite app_nil_r. now apply guard_without_writes. }
  destruct (configured_dec env) as [Hc|Hc].
  - pose proof (processEvent_upsert env w event k s email time Hact Hlook Hne Htime Hc)
      as Hrun.
    cbv zeta in Hrun.
    assert (Hargs : Payload.email (Dispatch.upsertArgs k event email time) = email)
      by now destruct k.
    set (p := payloadOf _ _) in Hrun.
    assert (Hp : Payload.email p = email) by (subst p; exact Hargs).
    destruct (fst (w_respond w (GhlPostContacts _ _ p) _)) as [m|r0].
    + destruct Hrun as (_ & Htr & _). rewrite Htr, written_app, Hw0. simpl.
      split; [lia|].
      exact (guard_read_write _ [] _ _ _ p None Hp Hw0 eq_refl).
    + destruct Hrun as (_ & Htr & _).
      match type of Htr with
      | _ = _ ++ _ ++ external (trace (run w _ ?st)) =>
          destruct (afterUpsert_run env w k event email st) as [_ Hwa]
      end.
      cbv zeta in Hwa. rewrite Htr, !written_app, Hw0, Hwa. split; [simpl; lia|].
      exact (guard_read_write _ _ _ _ _ p None Hp Hw0 Hwa).
  - rewrite (processEvent_unconfigured env w event k s email time Hact Hlook Hne Htime Hc).
    cbn [trace].
    destruct (afterUpsert_run env w k event email
                (final (run w (Dispatch.identity k event) s))) as [_ Hwa].
    cbv zeta in Hwa.
    rewrite !external_app, !written_app, Hw0, Hwa. simpl. split; [lia|].
    apply guard_without_writes. now rewrite written_app, Hw0, Hwa.
Qed.

Lemma afterUpsert_no_ghl (env : Env) (w : world) (k : Dispatch.kind)
    (event : stripe_event) (email : string) (s : w_state w) :
  List.filter is_ghl (external (trace (run w (Dispatch.afterUpsert env k event email) s)))
  = [].
Proof.
  assert (Htags : forall key tagIds s',
            List.filter is_ghl
              (external (trace (run w (Webhooks.subscribeTags key email tagIds) s'))) = []).
  { intros key tagIds s'. rewrite subscribeTags_calls.
    induction tagIds as [|tagId rest IH]; [reflexivity|exact IH]. }
  destruct k; try reflexivity.
  unfold Dispatch.afterUpsert, Webhooks.convertKitSubscribe.
  destruct (JsString.isEmpty (or_empty (CONVERTKIT_API_KEY env))); [reflexivity|].
  rewrite run_bind.
  destruct (JsString.truthy (or_empty (CONVERTKIT_FORM_ID env))); simpl.
  - destruct (w_respond w _ s) as [[m|r] s']; simpl;
      rewrite ?app_nil_r, ?external_app; simpl; apply Htags.
  - apply Htags.
Qed.

(** Without the CRM key or the location id the handler never calls the
    CRM, whatever the request: an event with an email and a representable
    time logs the missing settings, and every verified event with a
    representable time is still answered 200. *)
Theorem missing_crm_settings_make_no_crm_call
    (env : Env)
    (constructEvent : string -> option string -> option string -> exn + stripe_event)
    (w : world) (s : w_state w) (req : request) :
  ~ configured env ->
  let r := run w (Webhooks.registerStripeWebhooks env constructEvent req) s in
  List.filter is_ghl (external (trace r)) = []
  /\ written (external (trace r)) = []
  /\ forall (event : stripe_event) (time : string),
       verifies env constructEvent req event ->
       Webhooks.eventTime event = inr time ->
       result r = Returned ok200
       /\ forall (k : Dispatch.kind) (email : string),
            Dispatch.acted_on event = Some k ->
            result (run w (Dispatch.identity k event) s) = Returned email ->
            email <> EmptyString ->
            In (Logged LogError "[GHL upsert] Missing GHL_V1_API_KEY or GHL_LOCATION_ID")
              (trace r).
Proof.
  intros Hc. cbv zeta. unfold verifies, Webhooks.registerStripeWebhooks.
  destruct (constructEvent _ _ _) as [err|event].
  { simpl. split; [reflexivity|]. split; [reflexivity|]. intros ? ? H. discriminate H. }
  destruct (Dispatch.acted_on event) as [k|] eqn:Hact.
  2:{ rewrite (processEvent_ignored env w event s Hact). simpl.
      split; [reflexivity|]. split; [reflexivity|].
      intros event' time H _. injection H as <-. split; [reflexivity|].
      intros k email Hk. congruence. }
  destruct (identity_run w k event s) as [[email Hlook] Hcalls].
  cbv zeta in Hlook, Hcalls.
  apply stripe_only_no_ghl in Hcalls. destruct Hcalls as [Hg0 Hw0].
  destruct (decide (email = EmptyString)) as [->|Hne].
  { rewrite (processEvent_no_email env w event k s Hact Hlook). cbn [trace result].
    rewrite external_app, List.filter_app, written_app, Hg0, Hw0. simpl.
    split; [reflexivity|]. split; [reflexivity|].
    intros event' time H _. injection H as <-. split; [reflexivity|].
    intros k' email' Hk' Hid Hne'. congruence. }
  destruct (Webhooks.eventTime event) as [e|time] eqn:Htime.
  { rewrite (processEvent_bad_time env w event k s email e Hact Hlook Hne Htime).
    cbn [trace result].
    rewrite external_app, List.filter_app, written_app, Hg0, Hw0. simpl.
    split; [reflexivity|]. split; [reflexivity|].
    intros event' time H Ht. injection H as <-. congruence. }
  rewrite (processEvent_unconfigured env w event k s email time Hact Hlook Hne Htime Hc).
  cbn [trace result].
  destruct (afterUpsert_run env w k event email
              (final (run w (Dispatch.identity k event) s))) as [_ Hwa].
  cbv zeta in Hwa.
  rewrite !external_app, !List.filter_app, !written_app, Hg0, Hw0, Hwa, afterUpsert_no_ghl.
  simpl. split; [reflexivity|]. split; [reflexivity|].
  intros event' time' _ _. split; [reflexivity|].
  intros _ _ _ _ _. apply in_or_app. right. now left.
Qed.

Lemma missing_crm_settings_witness :
  let env :=
    {| GHL_V1_API_KEY := Some "  ";
       GHL_LOCATION_ID := Some "loc-1";
       CONVERTKIT_API_KEY := None;
       CONVERTKIT_FORM_ID := None;
       CONVERTKIT_TAG_IDS := None;
       STRIPE_WEBHOOK_SECRET := Some "whsec_test" |} in
  let r := run (Crm.world Sample.customers Crm.healthy)
             (Webhooks.registerStripeWebhooks env
                (Sample.constructEvent Sample.checkout) Sample.signed) Sample.store in
  List.filter is_ghl (external (trace r)) = []
  /\ written (external (trace r)) = []
  /\ result r = Returned ok200.
Proof.
  pose proof (missing_crm_settings_make_no_crm_call
                {| GHL_V1_API_KEY := Some "  ";
                   GHL_LOCATION_ID := Some "loc-1";
                   CONVERTKIT_API_KEY := None;
                   CONVERTKIT_FORM_ID := None;
                   CONVERTKIT_TAG_IDS := None;
                   STRIPE_WEBHOOK_SECRET := Some "whsec_test" |}
                (Sample.constructEvent Sample.checkout)
                (Crm.world Sample.customers Crm.healthy) Sample.store Sample.signed)
    as H.
  cbv zeta in *.
  destruct H as (Hg & Hw & Hres).
  - intros [Hk _]. apply Hk. reflexivity.
  - split; [exact Hg|]. split; [exact Hw|].
    destruct (Hres Sample.checkout "2023-11-14T22:13:20.000Z" eq_refl eq_refl) as [H _].
    exact H.
Defined.

(** When the billing provider rejects the customer lookup of a
    subscription event, the error is swallowed: the handler logs the two
    warnings, drops the event without touching the CRM and answers 200. *)
Theorem customer_lookup_failure_drops_event
    (env : Env)
    (constructEvent : string -> option string -> option string -> exn + stripe_event)
    (w : world) (s : w_state w) (req : request) (event : stripe_event)
    (k : Dispatch.kind) (customerId : string) (err : exn) :
  verifies env constructEvent req event ->
  Dispatch.acted_on event = Some k ->
  k = Dispatch.SubscriptionDeleted \/ k = Dispatch.SubscriptionUpdated ->
  Obj.customer (ev_object event) = Some customerId -> customerId <> EmptyString ->
  fst (w_respond w (StripeCustomersRetrieve customerId) s) = inl err ->
  run w (Webhooks.registerStripeWebhooks env constructEvent req) s
  = {| result := Returned ok200;
       trace := [Called (StripeCustomersRetrieve customerId);
                 Logged LogWarn
                   (match k with
                    | Dispatch.SubscriptionDeleted => "[Canceled] Could not fetch customer email"
                    | _ => "[Sub Active] Could not fetch customer email"
                    end);
                 Logged LogWarn (Dispatch.missingEmail k)];
       final := snd (w_respond w (StripeCustomersRetrieve customerId) s) |}.
Proof.
  intros Hv Hact Hk Hcust Hne Herr. rewrite (route_verified _ _ _ _ Hv).
  assert (Hlook : forall label,
            run w (Webhooks.customerEmail label (Obj.customer (ev_object event))) s
            = {| result := Returned EmptyString;
                 trace := [Called (StripeCustomersRetrieve customerId); Logged LogWarn label];
                 final := snd (w_respond w (StripeCustomersRetrieve customerId) s) |}).
  { intros label. unfold Webhooks.customerEmail. rewrite Hcust. cbn [or_empty].
    apply JsStringFacts.isEmpty_false in Hne. unfold JsString.truthy. rewrite Hne. simpl.
    destruct (w_respond w (StripeCustomersRetrieve customerId) s) as [x s'].
    simpl in Herr. now subst x. }
  destruct Hk as [-> | ->].
  - erewrite processEvent_no_email by (try exact Hact; cbn [Dispatch.identity]; now rewrite Hlook).
    cbn [Dispatch.identity]. now rewrite Hlook.
  - erewrite processEvent_no_email by (try exact Hact; cbn [Dispatch.identity]; now rewrite Hlook).
    cbn [Dispatch.identity]. now rewrite Hlook.
Qed.

Lemma customer_lookup_failure_witness :
  let event :=
    {| ev_type := "customer.subscription.deleted";
       ev_created := 1700000000;
       ev_object := Obj.make None None (Some "cus_9") (Some "sub_1") None None |} in
  run (Crm.world Sample.customers Crm.healthy)
    (Webhooks.registerStripeWebhooks Sample.env (Sample.constructEvent event) Sample.signed)
    Sample.store
  = {| result := Returned ok200;
       trace := [Called (StripeCustomersRetrieve "cus_9");
                 Logged LogWarn "[Canceled] Could not fetch customer email";
                 Logged LogWarn "[Canceled] Missing email; skip upsert."];
       final := Sample.store |}.
Proof.
  apply (customer_lookup_failure_drops_event Sample.env
           (Sample.constructEvent
              {| ev_type := "customer.subscription.deleted";
                 ev_created := 1700000000;
                 ev_object := Obj.make None None (Some "cus_9") (Some "sub_1") None None |})
           (Crm.world Sample.customers Crm.healthy) Sample.store Sample.signed
           {| ev_type := "customer.subscription.deleted";
              ev_created := 1700000000;
              ev_object := Obj.make None None (Some "cus_9") (Some "sub_1") None None |}
           Dispatch.SubscriptionDeleted "cus_9" (StripeError "No such customer")).
  - reflexivity.
  - reflexivity.
  - now left.
  - reflexivity.
  - discriminate.
  - reflexivity.
Defined.

(** The mailing-list subscription never throws, and its calls do not
    depend on how the service answers: without an API key none; otherwise
    the form subscription when a form id is set, then one tag subscription
    per non-empty trimmed entry of the comma-separated tag ids, in order.
    A failed call never stops the ones that follow. *)
Theorem convertKit_call_sequence
    (env : Env) (w : world) (s : w_state w) (email firstName : string) :
  let key := or_empty (CONVERTKIT_API_KEY env) in
  let formId := or_empty (CONVERTKIT_FORM_ID env) in
  let tagIds :=
    JsString.filterBoolean
      (List.map JsString.trim (JsString.split_on "," (or_empty (CONVERTKIT_TAG_IDS env)))) in
  let r := run w (Webhooks.convertKitSubscribe env email firstName) s in
  result r = Returned tt
  /\ external (trace r)
     = if JsString.isEmpty key then []
       else (if JsString.isEmpty formId then []
             else [ConvertKitFormSubscribe formId key email firstName])
            ++ List.map (fun tagId => ConvertKitTagSubscribe tagId key email) tagIds.
Proof.
  cbv zeta. split; [apply convertKitSubscribe_run|].
  unfold Webhooks.convertKitSubscribe, JsString.truthy.
  destruct (JsString.isEmpty (or_empty (CONVERTKIT_API_KEY env))); [reflexivity|].
  rewrite run_bind.
  destruct (JsString.isEmpty (or_empty (CONVERTKIT_FORM_ID env))); simpl.
  - apply subscribeTags_calls.
  - destruct (w_respond w _ s) as [[m|r] s']; simpl;
      rewrite ?app_nil_r, ?external_app; simpl; now rewrite subscribeTags_calls.
Qed.

(** ** Names *)

Section SplitName.

Import JsString JsStringFacts.

(** A word: not empty, and free of white space. *)
Definition isWord (s : string) : Prop := s <> EmptyString /\ noWhiteSpace s = true.

(** A gap between words: not empty, and white space only. *)
Definition isGap (s : string) : Prop := s <> EmptyString /\ whitespaceOnly s = true.

(** The words of [rest], each after its gap, followed by [tail]. *)
Fixpoint spaced (rest : list (string * string)) (tail : string) : string :=
  match rest with
  | [] => tail
  | (gap, word) :: more => gap +:+ word +:+ spaced more tail
  end.

Lemma append_nil (x : string) : EmptyString +:+ x = x.
Proof. reflexivity. Qed.

Lemma append_cons (c : ascii) (r x : string) : String c r +:+ x = String c (r +:+ x).
Proof. reflexivity. Qed.

Lemma trimEnd_whitespaceOnly (s : string) : whitespaceOnly s = true -> trimEnd s = EmptyString.
Proof.
  induction s as [|c r IH]; simpl; [reflexivity|].
  intros [Hc Hr]%andb_true_iff. now rewrite Hc, (IH Hr).
Qed.

Lemma trimEnd_kept (p x : string) :
  trimEnd x <> EmptyString -> trimEnd (p +:+ x) = p +:+ trimEnd x.
Proof.
  intros Hx. induction p as [|c r IH]; [reflexivity|].
  rewrite !append_cons. cbn [trimEnd]. rewrite IH.
  destruct r as [|d r]; rewrite ?append_nil, ?append_cons.
  - destruct (trimEnd x); [contradiction|]. cbn [isEmpty]. now rewrite andb_false_r.
  - cbn [isEmpty]. now rewrite andb_false_r.
Qed.

Lemma trimEnd_spaced (rest : list (string * string)) (trail : string) :
  Forall (fun gw => isGap (fst gw) /\ isWord (snd gw)) rest ->
  whitespaceOnly trail = true ->
  trimEnd (spaced rest trail) = spaced rest EmptyString.
Proof.
  intros Hrest Htrail. induction Hrest as [|[gap word] more [_ [Hne Hw]] _ IH]; cbn [spaced].
  - now apply trimEnd_whitespaceOnly.
  - cbn [fst snd] in *. rewrite trimEnd_kept.
    + now rewrite trimEnd_prefix, IH.
    + rewrite trimEnd_prefix by assumption.
      destruct word; [contradiction|]. rewrite append_cons. discriminate.
Qed.

Lemma trimStart_lead (lead x : string) :
  whitespaceOnly lead = true -> trimStart (lead +:+ x) = trimStart x.
Proof.
  induction lead as [|c r IH]; [reflexivity|]. cbn [whitespaceOnly].
  intros [Hc Hr]%andb_true_iff. rewrite append_cons. cbn [trimStart]. now rewrite Hc, IH.
Qed.

Lemma append_snoc (cur : string) (c : ascii) (x : string) :
  (cur +:+ String c EmptyString) +:+ x = cur +:+ String c x.
Proof.
  induction cur as [|d r IH]; [reflexivity|].
  rewrite !append_cons. now rewrite IH.
Qed.

Lemma split_word (in_run : bool) (cur word x : string) :
  isWord word ->
  split_ws_from in_run cur (word +:+ x) = split_ws_from false (cur +:+ word) x.
Proof.
  intros [Hne Hw]. destruct word as [|c r]; [contradiction|]. clear Hne.
  revert in_run cur c Hw. induction r as [|d r IH]; intros in_run cur c Hw;
    cbn [noWhiteSpace] in Hw; apply andb_true_iff in Hw as [Hc Hr];
    apply negb_true_iff in Hc; rewrite append_cons; cbn [split_ws_from]; rewrite Hc.
  - reflexivity.
  - rewrite (IH false _ d Hr). now rewrite append_snoc.
Qed.

Lemma split_in_run (cur gap x : string) :
  whitespaceOnly gap = true ->
  split_ws_from true cur (gap +:+ x) = split_ws_from true cur x.
Proof.
  induction gap as [|c r IH]; [reflexivity|]. cbn [whitespaceOnly].
  intros [Hc Hr]%andb_true_iff. rewrite append_cons. cbn [split_ws_from].
  now rewrite Hc, IH.
Qed.

Lemma split_gap (cur gap x : string) :
  isGap gap ->
  split_ws_from false cur (gap +:+ x) = cur :: split_ws_from true EmptyString x.
Proof.
  intros [Hne Hg]. destruct gap as [|c r]; [contradiction|]. cbn [whitespaceOnly] in Hg.
  apply andb_true_iff in Hg as [Hc Hr]. rewrite append_cons. cbn [split_ws_from].
  rewrite Hc. now rewrite split_in_run.
Qed.

Lemma split_spaced (cur : string) (rest : list (string * string)) :
  Forall (fun gw => isGap (fst gw) /\ isWord (snd gw)) rest ->
  split_ws_from false cur (spaced rest EmptyString) = cur :: List.map snd rest.
Proof.
  intros Hrest. revert cur.
  induction Hrest as [|[gap word] more [Hg Hw] _ IH]; intros cur; [reflexivity|].
  cbn [fst snd spaced List.map] in *.
  rewrite split_gap, split_word by assumption. rewrite append_nil. now rewrite IH.
Qed.

Lemma splitName_blank (full : string) :
  whitespaceOnly full = true -> splitName full = (EmptyString, EmptyString).
Proof. intros H. unfold splitName. now rewrite trim_whitespaceOnly. Qed.

End SplitName.

(** A full name is cut into its words wherever white space stands, and
    the white space itself is normalised: leading and trailing white
    space is dropped, the first word is the first name, and the other
    words, joined by single spaces, are the last name; neither name
    begins or ends with white space. *)
Theorem splitName_words
    (lead first : string) (rest : list (string * string)) (trail : string) :
  JsStringFacts.whitespaceOnly lead = true ->
  isWord first ->
  Forall (fun gw => isGap (fst gw) /\ isWord (snd gw)) rest ->
  JsStringFacts.whitespaceOnly trail = true ->
  splitName (lead +:+ first +:+ spaced rest trail)
  = (first, JsString.join " " (List.map snd rest)).
Proof.
  intros Hlead Hfirst Hrest Htrail. unfold splitName, JsString.trim.
  pose proof Hfirst as [Hne Hw].
  rewrite trimStart_lead by assumption.
  rewrite JsStringFacts.trimStart_fixed
    by (destruct first as [|c r]; [contradiction|];
        simpl in *; now apply andb_true_iff in Hw as [Hc _]).
  rewrite trimEnd_prefix, trimEnd_spaced by assumption.
  unfold JsString.split_ws. rewrite split_word by assumption. rewrite append_nil.
  rewrite split_spaced by assumption.
  assert (Hall : JsString.filterBoolean (first :: List.map snd rest)
                 = first :: List.map snd rest).
  { unfold JsString.filterBoolean. apply forallb_filter_id. simpl.
    apply andb_true_iff. split.
    - now apply JsStringFacts.truthy_nonempty.
    - apply forallb_forall. intros word Hin. apply in_map_iff in Hin as [gw [<- Hin]].
      rewrite Forall_forall in Hrest.
      apply JsStringFacts.truthy_nonempty.
      apply (Hrest gw). now apply list_elem_of_In. }
  rewrite Hall. reflexivity.
Qed.

Lemma splitName_words_witness :
  splitName ("  " +:+ "Mary" +:+ spaced [("   ", "Ann"); (String "009" " ", "Smith")] " ")
  = ("Mary", "Ann Smith").
Proof.
  apply (splitName_words "  " "Mary" [("   ", "Ann"); (String "009" " ", "Smith")] " ").
  - reflexivity.
  - split; [discriminate|reflexivity].
  - repeat constructor; simpl; discriminate.
  - reflexivity.
Defined.

(** ** Successive upserts against the reference CRM *)

Section Accumulation.

Import JsString JsStringFacts.

Variable customers : string -> exn + stripe_customer.
Variable env : Env.

Local Abbreviation crm := (Crm.world customers Crm.healthy).

Lemma crm_upsert_final (args : Payload.t) (store : gmap string Crm.contact) :
  configured env -> Payload.email args <> EmptyString ->
  final (run crm (Webhooks.ghlV1UpsertContact env args) store)
  = <[Payload.email args :=
        Crm.make (mergedTags (stored (Payload.email args) store) (Payload.tags args))
          (Payload.customFields args)]> store.
Proof.
  intros Hc He.
  destruct (upsert_run env crm store args Hc He) as (_ & Hfin & _).
  destruct (crm_lookup customers Crm.healthy eq_refl (apiKeyOf env) (locationIdOf env)
              (Payload.email args) store) as [Hex _].
  cbv zeta in Hfin. rewrite Hex in Hfin. rewrite Hfin. reflexivity.
Qed.

Lemma cleanTags_mergedTags (existing : jsval) (tags : list string) :
  cleanTags (mergedTags existing tags) = mergedTags existing tags.
Proof.
  apply cleanTags_fixed, Forall_forall. intros t Ht.
  destruct (mergedTags_wellformed existing tags) as [_ Hclean].
  destruct (Hclean t Ht) as (H1 & H2 & _). auto.
Qed.

End Accumulation.

(** Two upserts for the same email against the reference CRM: the
    contact ends with, as a set, the tags it had (cleaned) together with
    the cleaned tags of both calls, so no tag is ever removed and the
    order of the two calls does not matter for the tags; the custom
    fields are those of the second call; every other contact is left as
    it was. *)
Theorem upserts_accumulate_tags
    (customers : string -> exn + stripe_customer) (env : Env)
    (store : gmap string Crm.contact) (args1 args2 : Payload.t) :
  configured env ->
  Payload.email args1 <> EmptyString ->
  Payload.email args2 = Payload.email args1 ->
  let crm := Crm.world customers Crm.healthy in
  let one := run crm (Webhooks.ghlV1UpsertContact env args1) store in
  let two := run crm (Webhooks.ghlV1UpsertContact env args2) (final one) in
  (exists c : Crm.contact,
     final two !! Payload.email args1 = Some c
     /\ NoDup (Crm.tags c)
     /\ (forall t, t ∈ Crm.tags c
                   <-> t ∈ storedTags (Payload.email args1) store
                       \/ t ∈ cleanTags (Payload.tags args1)
                       \/ t ∈ cleanTags (Payload.tags args2))
     /\ Crm.customFields c = Payload.customFields args2)
  /\ forall other : string,
       other <> Payload.email args1 -> final two !! other = store !! other.
Proof.
  intros Hc He1 Hsame. cbv zeta.
  assert (He2 : Payload.email args2 <> EmptyString) by now rewrite Hsame.
  rewrite (crm_upsert_final customers env args2 _ Hc He2).
  rewrite (crm_upsert_final customers env args1 _ Hc He1).
  rewrite Hsame. split.
  - eexists. split; [exact (lookup_insert_eq (M := gmap string) _ _ _)|].
    cbn [Crm.tags Crm.customFields].
    split; [apply mergedTags_wellformed|]. split; [|reflexivity].
    intros t. rewrite elem_of_mergedTags_stored.
    unfold storedTags at 1.
    rewrite (lookup_insert_eq (M := gmap string)). cbn [Crm.tags].
    rewrite cleanTags_mergedTags, elem_of_mergedTags_stored. tauto.
  - intros other Hne.
    change (w_state (Crm.world customers Crm.healthy)) with (gmap string Crm.contact).
    rewrite !lookup_insert_ne by congruence. reflexivity.
Qed.

Lemma upserts_accumulate_tags_witness :
  let crm := Crm.world Sample.customers Crm.healthy in
  let args1 := Payload.make "a@x.com" None None None ["fc:trial_checkout"] [("k", "1")] in
  let args2 := Payload.make "a@x.com" None None None ["fc:payment_failed"] [("k", "2")] in
  let one := run crm (Webhooks.ghlV1UpsertContact Sample.env args1) Sample.store in
  let two := run crm (Webhooks.ghlV1UpsertContact Sample.env args2) (final one) in
  (exists c : Crm.contact,
     final two !! "a@x.com" = Some c
     /\ NoDup (Crm.tags c)
     /\ (forall t, t ∈ Crm.tags c
                   <-> t ∈ storedTags "a@x.com" Sample.store
                       \/ t ∈ cleanTags ["fc:trial_checkout"]
                       \/ t ∈ cleanTags ["fc:payment_failed"])
     /\ Crm.customFields c = [("k", "2")])
  /\ forall other : string,
       other <> "a@x.com" -> final two !! other = Sample.store !! other.
Proof.
  apply (upserts_accumulate_tags Sample.customers Sample.env Sample.store
           (Payload.make "a@x.com" None None None ["fc:trial_checkout"] [("k", "1")])
           (Payload.make "a@x.com" None None None ["fc:payment_failed"] [("k", "2")])).
  - exact sample_configured.
  - discriminate.
  - reflexivity.
Defined.

(** ** What the resolver returns and caches *)

Section ResolverResults.

(** Every value a program can return satisfies [P]. *)
Inductive returns_only {A : Type} (P : A -> Prop) : prog A -> Prop :=
| ro_ret (a : A) : P a -> returns_only P (Ret a)
| ro_throw (e : exn) : returns_only P (Throw e)
| ro_do (c : call) (k : resp c -> prog A) :
    (forall x, returns_only P (k x)) -> returns_only P (Do c k)
| ro_log (level : log_level) (label : string) (k : prog A) :
    returns_only P k -> returns_only P (Log level label k).

Lemma ro_bind {A B : Type} (Q : A -> Prop) (P : B -> Prop) (p : prog A) (f : A -> prog B) :
  returns_only Q p -> (forall a, Q a -> returns_only P (f a)) -> returns_only P (bind p f).
Proof.
  intros Hp Hf. induction Hp as [a Ha|e|c k _ IH|level label k _ IH]; simpl.
  - now apply Hf.
  - constructor.
  - constructor. exact IH.
  - constructor. exact IH.
Qed.

Lemma ro_try_catch {A : Type} (P : A -> Prop) (p : prog A) (h : exn -> prog A) :
  returns_only P p -> (forall e, returns_only P (h e)) -> returns_only P (try_catch p h).
Proof.
  intros Hp Hh. induction Hp as [a Ha|e|c k _ IH|level label k _ IH]; simpl.
  - now constructor.
  - apply Hh.
  - constructor. exact IH.
  - constructor. exact IH.
Qed.

Lemma ro_run {A : Type} (P : A -> Prop) (w : world) (p : prog A) (s : w_state w) (a : A) :
  returns_only P p -> result (run w p s) = Returned a -> P a.
Proof.
  intros Hp. revert s. induction Hp as [a' Ha|e|c k _ IH|level label k _ IH]; intros s; simpl.
  - now intros [= <-].
  - discriminate.
  - destruct (w_respond w c s) as [x s']. simpl. apply IH.
  - apply IH.
Qed.

(** A stage id a probe returns is truthy. *)
Definition truthyId (found : option jsval) : Prop :=
  forall v, found = Some v -> Js.truthy v = true.

Lemma ro_returnIfTruthy (v : jsval) (label : string) :
  returns_only truthyId (Server.returnIfTruthy v label).
Proof.
  unfold Server.returnIfTruthy. destruct (Js.truthy v) eqn:Hv.
  - repeat constructor. now intros ? [= <-].
  - constructor. discriminate.
Qed.

Lemma ro_any {A : Type} (p : prog A) : returns_only (fun _ => True) p.
Proof. induction p; constructor; auto. Qed.

Lemma ro_probe (c : call) (k : resp c -> prog (option jsval)) (label : string) :
  (forall x, returns_only truthyId (k x)) ->
  returns_only truthyId
    (try_catch (bind (await c) k)
       (fun _ => bind (console LogWarn label) (fun _ => Ret None))).
Proof.
  intros H. apply ro_try_catch.
  - simpl. constructor. exact H.
  - intros e. repeat constructor. discriminate.
Qed.

Lemma ro_afterFetch (res : fetch_outcome) (warn : string)
    (onOk : response -> prog (option jsval)) :
  (forall r, returns_only truthyId (onOk r)) ->
  returns_only truthyId (Server.afterFetch res warn onOk).
Proof.
  intros H. destruct res as [m|r]; simpl; [constructor|].
  destruct (res_ok r); [apply H|]. repeat constructor. discriminate.
Qed.

Lemma ro_tryFiltered (v1Key loc : string) (pipelineId : option string) (stageName : string) :
  returns_only truthyId (Server.tryFiltered v1Key loc pipelineId stageName).
Proof.
  apply ro_probe. intros x. apply ro_afterFetch. intros r.
  apply (ro_bind (fun _ => True)); [apply ro_any|]. intros hit _. apply ro_returnIfTruthy.
Qed.

Lemma ro_tryUnfiltered (v1Key loc : string) (pipelineId : option string)
    (stageName : string) :
  returns_only truthyId (Server.tryUnfiltered v1Key loc pipelineId stageName).
Proof.
  apply ro_probe. intros x. apply ro_afterFetch. intros r.
  apply (ro_bind (fun _ => True)); [apply ro_any|]. intros both _.
  apply (ro_bind (fun _ => True)); [apply ro_any|]. intros hit2 _. apply ro_returnIfTruthy.
Qed.

Lemma ro_tryPipeline (v1Key loc : string) (pipelineId : option string) (stageName : string) :
  returns_only truthyId (Server.tryPipeline v1Key loc pipelineId stageName).
Proof.
  apply ro_probe. intros x. apply ro_afterFetch. intros r.
  apply (ro_bind (fun _ => True)); [apply ro_any|]. intros st _.
  apply (ro_bind truthyId); [apply ro_returnIfTruthy|].
  intros [v|] Hv; repeat constructor; [exact Hv|discriminate].
Qed.

(** A cache whose stage ids are all truthy. *)
Definition truthyCache (cache : gmap string jsval) : Prop :=
  forall key v, cache !! key = Some v -> Js.truthy v = true.

Lemma ro_resolve (env : Env) (pipelineId : option string) (stageName : string)
    (_stageIdCache : gmap string jsval) :
  truthyCache _stageIdCache ->
  returns_only (fun out => Js.truthy (fst out) = true /\ truthyCache (snd out))
    (Server.resolveV1StageIdByName env pipelineId stageName _stageIdCache).
Proof.
  intros Hcache. unfold Server.resolveV1StageIdByName.
  assert (Hstore : forall stageId,
            Js.truthy stageId = true ->
            truthyCache (<[Server.cacheKey pipelineId stageName := stageId]> _stageIdCache)).
  { intros stageId Hid key v. destruct (decide (key = Server.cacheKey pipelineId stageName))
      as [->|Hne].
    - rewrite lookup_insert_eq. now intros [= <-].
    - rewrite lookup_insert_ne by congruence. apply Hcache. }
  destruct (_stageIdCache !! Server.cacheKey pipelineId stageName) as [cached|] eqn:Hlook.
  { constructor. split; [exact (Hcache _ _ Hlook)|exact Hcache]. }
  destruct (_ || _); [constructor|].
  apply (ro_bind truthyId); [apply ro_tryFiltered|].
  intros [id1|] H1; [constructor; simpl; auto|].
  apply (ro_bind truthyId); [apply ro_tryUnfiltered|].
  intros [id2|] H2; [constructor; simpl; auto|].
  apply (ro_bind truthyId); [apply ro_tryPipeline|].
  intros [id3|] H3; [constructor; simpl; auto|constructor].
Qed.

End ResolverResults.

(** The resolver never returns or caches a falsy stage id (an empty
    string, [null], [undefined], [0], [false]): from a cache that holds
    truthy ids only, the id a call returns is truthy and the cache it
    leaves holds truthy ids only, whatever the CRM answers.  A resolved id
    therefore always passes the caller's [if (... && v1StageId)]. *)
Theorem resolver_ids_are_truthy
    (env : Env) (w : world) (s : w_state w)
    (pipelineId : option string) (stageName : string)
    (_stageIdCache cache' : gmap string jsval) (stageId : jsval) :
  truthyCache _stageIdCache ->
  result (run w (Server.resolveV1StageIdByName env pipelineId stageName _stageIdCache) s)
  = Returned (stageId, cache') ->
  Js.truthy stageId = true /\ truthyCache cache'.
Proof.
  intros Hcache Hres.
  exact (ro_run _ w _ s (stageId, cache')
           (ro_resolve env pipelineId stageName _stageIdCache Hcache) Hres).
Qed.

Lemma resolver_ids_are_truthy_witness :
  Js.truthy (JStr "st_9") = true /\ truthyCache {[ "p1::Trial" := JStr "st_9" ]}.
Proof.
  apply (resolver_ids_are_truthy Sample.env opportunitiesWorld tt (Some "p1") "Trial"
           ∅ {[ "p1::Trial" := JStr "st_9" ]} (JStr "st_9")).
  - intros key v H. rewrite lookup_empty in H. discriminate H.
  - vm_compute. reflexivity.
Defined.

(** The only exceptions the resolver throws are [Error]s of its own: on
    a miss without the CRM settings [Missing GHL_V1_API_KEY or
    GHL_LOCATION_ID], before any request, and with the settings the
    final [Error] after the three probes; a network failure or a
    malformed answer inside a probe never escapes. *)
Theorem resolver_errors
    (env : Env) (w : world) (s : w_state w)
    (pipelineId : option string) (stageName : string)
    (_stageIdCache : gmap string jsval) (e : exn) :
  let r := run w (Server.resolveV1StageIdByName env pipelineId stageName _stageIdCache) s in
  result r = Threw e ->
  _stageIdCache !! Server.cacheKey pipelineId stageName = None
  /\ ((~ configured env
       /\ e = Error "Missing GHL_V1_API_KEY or GHL_LOCATION_ID"
       /\ trace r = [] /\ final r = s)
      \/ (configured env
          /\ (exists message, e = Error message)
          /\ external (trace r)
             = [GhlGetOpportunities (apiKeyOf env) (locationIdOf env)
                  (Some (Server.template pipelineId));
                GhlGetOpportunities (apiKeyOf env) (locationIdOf env) None;
                GhlGetPipeline (apiKeyOf env) (locationIdOf env)
                  (Server.template pipelineId)])).
Proof.
  cbv zeta. unfold Server.resolveV1StageIdByName.
  destruct (_stageIdCache !! Server.cacheKey pipelineId stageName) as [cached|];
    [discriminate|].
  fold (apiKeyOf env) (locationIdOf env).
  destruct (JsString.isEmpty (apiKeyOf env)) eqn:Hk.
  { simpl. intros [= <-]. split; [reflexivity|]. left. repeat split.
    intros [H _]. now apply JsStringFacts.isEmpty_false in H; congruence. }
  destruct (JsString.isEmpty (locationIdOf env)) eqn:Hl.
  { simpl. intros [= <-]. split; [reflexivity|]. left. repeat split.
    intros [_ H]. now apply JsStringFacts.isEmpty_false in H; congruence. }
  cbn [orb]. intros Hres. split; [reflexivity|]. right.
  split; [split; now apply JsStringFacts.isEmpty_false|].
  revert Hres.
  destruct (tryFiltered_run w (apiKeyOf env) (locationIdOf env) pipelineId stageName s)
    as (Ht1 & _ & f1 & Hr1).
  cbv zeta in Ht1, Hr1.
  rewrite run_bind, Hr1. cbv zeta. cbn [result trace final].
  destruct f1 as [id1|]; [discriminate|].
  match goal with
  | |- context [run w (bind (Server.tryUnfiltered ?a ?b ?c ?d) _) ?st] =>
      destruct (tryUnfiltered_run w a b c d st) as (Ht2 & _ & f2 & Hr2)
  end.
  cbv zeta in Ht2, Hr2.
  rewrite run_bind, Hr2. cbv zeta. cbn [result trace final].
  destruct f2 as [id2|]; [discriminate|].
  match goal with
  | |- context [run w (bind (Server.tryPipeline ?a ?b ?c ?d) _) ?st] =>
      destruct (tryPipeline_run w a b c d st) as (Ht3 & _ & f3 & Hr3)
  end.
  cbv zeta in Ht3, Hr3.
  rewrite run_bind, Hr3. cbv zeta. cbn [result trace final].
  destruct f3 as [id3|]; [discriminate|].
  cbn [run result trace]. intros [= <-]. split; [eauto|].
  now rewrite app_nil_r, !external_app, Ht1, Ht2, Ht3.
Qed.

Lemma resolver_errors_witness :
  let r := run opportunitiesWorld
             (Server.resolveV1StageIdByName Sample.env (Some "p1") "Paid" ∅) tt in
  (∅ : gmap string jsval) !! Server.cacheKey (Some "p1") "Paid" = None
  /\ ((~ configured Sample.env
       /\ match result r with
          | Threw e => e
          | Returned _ => Error EmptyString
          end = Error "Missing GHL_V1_API_KEY or GHL_LOCATION_ID"
       /\ trace r = [] /\ final r = tt)
      \/ (configured Sample.env
          /\ (exists message,
                match result r with
                | Threw e => e
                | Returned _ => Error EmptyString
                end = Error message)
          /\ external (trace r)
             = [GhlGetOpportunities (apiKeyOf Sample.env) (locationIdOf Sample.env)
                  (Some (Server.template (Some "p1")));
                GhlGetOpportunities (apiKeyOf Sample.env) (locationIdOf Sample.env) None;
                GhlGetPipeline (apiKeyOf Sample.env) (locationIdOf Sample.env)
                  (Server.template (Some "p1"))])).
Proof.
  apply (resolver_errors Sample.env opportunitiesWorld tt (Some "p1") "Paid" ∅).
  vm_compute. reflexivity.
Defined.

(** ** The unfiltered probe on well-formed opportunities *)


(** The second probe prefers the pipeline asked for.  When the unfiltered
    list is well formed, the first opportunity that is in the pipeline
    and at the stage (letter case apart) decides the answer, even when
    an opportunity of another pipeline with that stage name comes before
    it: its stage id is returned, or nothing when that id is empty. *)
Theorem unfiltered_probe_prefers_pipeline
    (w : world) (s : w_state w) (v1Key loc pipelineId stageName : string)
    (r : response) (j : jsval) (before after : list opportunity) (hit : opportunity) :
  fst (w_respond w (GhlGetOpportunities v1Key loc None) s) = FetchResponse r ->
  res_ok r = true ->
  res_json r = Some j ->
  Server.opportunitiesOf j = JArr (List.map opportunityJson (before ++ hit :: after)) ->
  Forall (fun o => inPipelineAtStage pipelineId stageName o = false) before ->
  inPipelineAtStage pipelineId stageName hit = true ->
  result (run w (Server.tryUnfiltered v1Key loc (Some pipelineId) stageName) s)
  = Returned (if JsString.isEmpty (opp_stageId hit) then None
              else Some (JStr (opp_stageId hit))).
Proof.
  intros Hres Hok Hjson Hopps Hbefore Hhit.
  unfold Server.tryUnfiltered.
  rewrite run_try_catch, run_bind, run_await. cbn [result trace final].
  rewrite Hres. cbn [Server.afterFetch]. rewrite Hok, Hjson, Hopps.
  cbn [Server.findIn]. rewrite List.map_app. cbn [List.map].
  rewrite (find_first _ _ _ (opportunityJson hit)).
  - destruct (opportunity_fields hit) as (_ & _ & Hid & Htruthy).
    cbn [lift bind]. rewrite Htruthy. cbn [bind]. unfold Server.returnIfTruthy.
    rewrite Hid. cbn [Js.truthy]. unfold JsString.truthy.
    destruct (JsString.isEmpty (opp_stageId hit)); reflexivity.
  - apply Forall_forall. intros x Hx.
    change (List.map opportunityJson before) with (opportunityJson <$> before) in Hx.
    apply list_elem_of_fmap in Hx as (o & -> & Ho).
    rewrite Forall_forall in Hbefore. specialize (Hbefore o Ho).
    unfold inPipelineAtStage in Hbefore.
    destruct (opportunity_fields o) as (Hp & Hn & _).
    unfold Server.nameMatches. rewrite Hp, Hn, matchName_string.
    cbn [Server.strictEq Js.strictEqStr].
    destruct (String.eqb (opp_pipelineId o) pipelineId); [|reflexivity].
    cbn [andb] in Hbefore. now rewrite Hbefore.
  - unfold inPipelineAtStage in Hhit. apply andb_true_iff in Hhit as [Hp Hn].
    destruct (opportunity_fields hit) as (Hp' & Hn' & _).
    unfold Server.nameMatches. rewrite Hp', Hn', matchName_string.
    cbn [Server.strictEq Js.strictEqStr]. rewrite Hp, Hn. reflexivity.
Qed.

Lemma unfiltered_probe_witness :
  result (run opportunitiesWorld
            (Server.tryUnfiltered "v1-key" "loc-1" (Some "p1") "TRIAL") tt)
  = Returned (Some (JStr "st_9")).
Proof.
  apply (unfiltered_probe_prefers_pipeline opportunitiesWorld tt "v1-key" "loc-1" "p1" "TRIAL"
           {| res_status := 200;
              res_body :=
                JsonBody
                  (JObj [("opportunities",
                          JArr [JObj [("pipelineId", JStr "p2");
                                      ("stageName", JStr "Trial");
                                      ("stageId", JStr "st_other")];
                                JObj [("pipelineId", JStr "p1");
                                      ("stageName", JStr "trial");
                                      ("stageId", JStr "st_9")]])]) |}
           (JObj [("opportunities",
                   JArr [JObj [("pipelineId", JStr "p2");
                               ("stageName", JStr "Trial");
                               ("stageId", JStr "st_other")];
                         JObj [("pipelineId", JStr "p1");
                               ("stageName", JStr "trial");
                               ("stageId", JStr "st_9")]])])
           [{| opp_pipelineId := "p2"; opp_stageName := "Trial"; opp_stageId := "st_other" |}]
           []
           {| opp_pipelineId := "p1"; opp_stageName := "trial"; opp_stageId := "st_9" |}).
  - reflexivity.
  - reflexivity.
  - reflexivity.
  - reflexivity.
  - repeat constructor.
  - reflexivity.
Defined.

(** ** Letter case of stage names *)

Section StageNameCase.

Variable w : world.
Variables a b : string.
Hypothesis Hcase : JsString.toLowerCase a = JsString.toLowerCase b.

Lemma nameMatches_case (key : string) (o : jsval) :
  Server.nameMatches a key o = Server.nameMatches b key o.
Proof.
  unfold Server.nameMatches, Server.matchName. now rewrite Hcase.
Qed.

Lemma find_ext (pred pred' : jsval -> exn + bool) (arr : list jsval) :
  (forall x, pred x = pred' x) -> Server.find pred arr = Server.find pred' arr.
Proof.
  intros H. induction arr as [|x rest IH]; simpl; [reflexivity|].
  now rewrite H, IH.
Qed.

Lemma findIn_ext (v : jsval) (pred pred' : jsval -> exn + bool) :
  (forall x, pred x = pred' x) -> Server.findIn v pred = Server.findIn v pred'.
Proof. intros H. destruct v; simpl; auto using find_ext. Qed.

Lemma tryFiltered_case (v1Key loc : string) (pipelineId : option string) (s : w_state w) :
  run w (Server.tryFiltered v1Key loc pipelineId a) s
  = run w (Server.tryFiltered v1Key loc pipelineId b) s.
Proof.
  unfold Server.tryFiltered. rewrite !run_try_catch, !run_bind, !run_await.
  cbn [result trace final].
  destruct (fst (w_respond w _ s)) as [m|r]; [reflexivity|].
  cbn [Server.afterFetch]. destruct (res_ok r); [|reflexivity]. cbv zeta.
  now rewrite (findIn_ext _ _ _ (nameMatches_case "stageName")).
Qed.

Lemma tryUnfiltered_case (v1Key loc : string) (pipelineId : option string) (s : w_state w) :
  run w (Server.tryUnfiltered v1Key loc pipelineId a) s
  = run w (Server.tryUnfiltered v1Key loc pipelineId b) s.
Proof.
  unfold Server.tryUnfiltered. rewrite !run_try_catch, !run_bind, !run_await.
  cbn [result trace final].
  destruct (fst (w_respond w _ s)) as [m|r]; [reflexivity|].
  cbn [Server.afterFetch]. destruct (res_ok r); [|reflexivity]. cbv zeta.
  assert (Hboth : forall v,
            Server.findIn v
              (fun o => match Js.prop o "pipelineId" with
                        | inl e => inl e
                        | inr p =>
                            if Server.strictEq p pipelineId
                            then Server.nameMatches a "stageName" o
                            else inr false
                        end)
            = Server.findIn v
                (fun o => match Js.prop o "pipelineId" with
                          | inl e => inl e
                          | inr p =>
                              if Server.strictEq p pipelineId
                              then Server.nameMatches b "stageName" o
                              else inr false
                          end)).
  { intros v. apply findIn_ext. intros x.
    destruct (Js.prop x "pipelineId") as [e|p]; [reflexivity|].
    now rewrite nameMatches_case. }
  rewrite Hboth.
  now rewrite (findIn_ext _ _ _ (nameMatches_case "stageName")).
Qed.

Lemma tryPipeline_case (v1Key loc : string) (pipelineId : option string) (s : w_state w) :
  run w (Server.tryPipeline v1Key loc pipelineId a) s
  = run w (Server.tryPipeline v1Key loc pipelineId b) s.
Proof.
  unfold Server.tryPipeline. rewrite !run_try_catch, !run_bind, !run_await.
  cbn [result trace final].
  destruct (fst (w_respond w _ s)) as [m|r]; [reflexivity|].
  cbn [Server.afterFetch]. destruct (res_ok r); [|reflexivity]. cbv zeta.
  now rewrite (findIn_ext _ _ _ (nameMatches_case "name")).
Qed.

End StageNameCase.

(** Stage names are matched without regard to letter case, but cached
    with it: for two names that differ in letter case only, neither of
    them cached, the resolver makes the same requests, logs the same
    lines and resolves the same stage id; each call stores the id under
    its own spelling. *)
Theorem stage_names_match_case_insensitively
    (env : Env) (w : world) (s : w_state w) (pipelineId : option string)
    (a b : string) (_stageIdCache : gmap string jsval) :
  JsString.toLowerCase a = JsString.toLowerCase b ->
  _stageIdCache !! Server.cacheKey pipelineId a = None ->
  _stageIdCache !! Server.cacheKey pipelineId b = None ->
  let ra := run w (Server.resolveV1StageIdByName env pipelineId a _stageIdCache) s in
  let rb := run w (Server.resolveV1StageIdByName env pipelineId b _stageIdCache) s in
  trace ra = trace rb
  /\ final ra = final rb
  /\ forall stageId cache',
       result ra = Returned (stageId, cache') ->
       cache' = <[Server.cacheKey pipelineId a := stageId]> _stageIdCache
       /\ result rb
          = Returned (stageId, <[Server.cacheKey pipelineId b := stageId]> _stageIdCache).
Proof.
  intros Hcase Ha Hb. cbv zeta. unfold Server.resolveV1StageIdByName.
  rewrite Ha, Hb.
  destruct (_ || _).
  { split; [reflexivity|]. split; [reflexivity|]. intros stageId cache' H. discriminate H. }
  rewrite !run_bind, (tryFiltered_case w a b Hcase).
  destruct (result (run w (Server.tryFiltered _ _ pipelineId b) s)) as [[id1|]|e1];
    cbv zeta; cbn [run result trace final].
  { split; [reflexivity|]. split; [reflexivity|]. intros stageId cache' [= <- <-]. auto. }
  2:{ split; [reflexivity|]. split; [reflexivity|]. intros stageId cache' H. discriminate H. }
  rewrite !run_bind, (tryUnfiltered_case w a b Hcase).
  destruct (result (run w (Server.tryUnfiltered _ _ pipelineId b) _)) as [[id2|]|e2];
    cbv zeta; cbn [run result trace final].
  { split; [reflexivity|]. split; [reflexivity|]. intros stageId cache' [= <- <-]. auto. }
  2:{ split; [reflexivity|]. split; [reflexivity|]. intros stageId cache' H. discriminate H. }
  rewrite !run_bind, (tryPipeline_case w a b Hcase).
  destruct (result (run w (Server.tryPipeline _ _ pipelineId b) _)) as [[id3|]|e3];
    cbv zeta; cbn [run result trace final].
  - split; [reflexivity|]. split; [reflexivity|]. intros stageId cache' [= <- <-]. auto.
  - split; [reflexivity|]. split; [reflexivity|]. intros stageId cache' H. discriminate H.
  - split; [reflexivity|]. split; [reflexivity|]. intros stageId cache' H. discriminate H.
Qed.

Lemma stage_names_case_witness :
  let ra := run opportunitiesWorld
              (Server.resolveV1StageIdByName Sample.env (Some "p1") "Trial" ∅) tt in
  let rb := run opportunitiesWorld
              (Server.resolveV1StageIdByName Sample.env (Some "p1") "TRIAL" ∅) tt in
  trace ra = trace rb
  /\ final ra = final rb
  /\ forall stageId cache',
       result ra = Returned (stageId, cache') ->
       cache' = <[Server.cacheKey (Some "p1") "Trial" := stageId]> ∅
       /\ result rb
          = Returned (stageId, <[Server.cacheKey (Some "p1") "TRIAL" := stageId]> ∅).
Proof.
  apply (stage_names_match_case_insensitively Sample.env opportunitiesWorld tt (Some "p1")
           "Trial" "TRIAL" ∅).
  - reflexivity.
  - apply lookup_empty.
  - apply lookup_empty.
Defined.

(** ** Fenced answers *)

Section FenceFacts.

Import JsString JsStringFacts.

Lemma append_assoc3 (a b c : string) : (a +:+ b) +:+ c = a +:+ b +:+ c.
Proof.
  induction a as [|ch a IH]; [reflexivity|].
  rewrite !append_cons. now rewrite IH.
Qed.

Lemma length_toLowerCase (s : string) : String.length (toLowerCase s) = String.length s.
Proof. induction s as [|c r IH]; simpl; [reflexivity|now rewrite IH]. Qed.

Lemma toLowerCase_append (a b : string) :
  toLowerCase (a +:+ b) = toLowerCase a +:+ toLowerCase b.
Proof.
  induction a as [|c r IH]; [reflexivity|].
  rewrite append_cons. cbn [toLowerCase]. now rewrite IH, append_cons.
Qed.

Lemma startsWith_append (p x : string) : Fence.startsWith (p +:+ x) p = true.
Proof.
  induction p as [|c r IH]; [reflexivity|].
  rewrite append_cons. cbn [Fence.startsWith]. now rewrite Ascii.eqb_refl, IH.
Qed.

Lemma slice_append (p x : string) : Fence.slice (String.length p) (p +:+ x) = x.
Proof.
  induction p as [|c r IH]; [now destruct x|].
  rewrite append_cons. exact IH.
Qed.

(** A tag written in any letter case is consumed. *)
Lemma skipTag_written (tag written x : string) :
  toLowerCase written = tag -> Fence.skipTag tag (written +:+ x) = x.
Proof.
  intros <-. unfold Fence.skipTag.
  rewrite toLowerCase_append, startsWith_append, length_toLowerCase.
  apply slice_append.
Qed.

Lemma replaceOpening_fence (tag : string) (eatSpace : bool) (x : string) :
  Fence.replaceOpening tag eatSpace (Fence.fence +:+ x)
  = if eatSpace then trimStart (Fence.skipTag tag x) else Fence.skipTag tag x.
Proof. reflexivity. Qed.

(** The closing fence: what stands before a final fence is what is
    left. *)
Lemma replaceClosing_final (x : string) :
  Fence.replaceClosing (x +:+ Fence.fence) = x.
Proof.
  induction x as [|c r IH]; [reflexivity|].
  rewrite append_cons. cbn [Fence.replaceClosing].
  destruct (String.eqb (String c (r +:+ Fence.fence)) Fence.fence) eqn:E.
  - apply String.eqb_eq in E. apply (f_equal String.length) in E.
    assert (Hlen : forall y : string,
              String.length (y +:+ Fence.fence) = (String.length y + 3)%nat).
    { intros y. induction y as [|d y IHy]; [reflexivity|].
      rewrite append_cons. simpl. now rewrite IHy. }
    simpl in E. rewrite Hlen in E. lia.
  - now rewrite IH.
Qed.

Lemma trimStart_before_fence (x : string) :
  trimStart (x +:+ Fence.fence) = trimStart x +:+ Fence.fence.
Proof.
  induction x as [|c r IH]; [reflexivity|].
  rewrite append_cons. cbn [trimStart].
  destruct (isWhiteSpace c); [exact IH|now rewrite append_cons].
Qed.

Lemma trim_trimStart (x : string) : trim (trimStart x) = trim x.
Proof.
  unfold trim. rewrite (trimStart_fixed (trimStart x)); [reflexivity|].
  apply trimStart_starts_clean.
Qed.

(** Trimming a fenced text with white space around it leaves the fenced
    text. *)
Lemma trim_fenced (lead x trail : string) :
  whitespaceOnly lead = true -> whitespaceOnly trail = true ->
  trim (lead +:+ Fence.fence +:+ x +:+ Fence.fence +:+ trail)
  = Fence.fence +:+ x +:+ Fence.fence.
Proof.
  intros Hlead Htrail. unfold trim. rewrite trimStart_lead by assumption.
  rewrite trimStart_fixed by reflexivity.
  rewrite (trimEnd_prefix Fence.fence) by reflexivity. f_equal.
  rewrite trimEnd_kept.
  - f_equal. rewrite (trimEnd_prefix Fence.fence) by reflexivity.
    now rewrite trimEnd_whitespaceOnly.
  - rewrite (trimEnd_prefix Fence.fence) by reflexivity. discriminate.
Qed.

End FenceFacts.

(** Unwrapping a fenced answer gives back its body, trimmed: for a text
    made of a fence, the language tag of the route in any letter case, a
    body and a closing fence, with optional white space around, what the
    route goes on with is the trimmed body, whatever the body holds
    (fences included). *)
Theorem unfence_fenced_body
    (tag written lead body trail : string) (eatSpace : bool) :
  JsString.toLowerCase written = tag ->
  JsStringFacts.whitespaceOnly lead = true ->
  JsStringFacts.whitespaceOnly trail = true ->
  Fence.unfence tag eatSpace
    (lead +:+ Fence.fence +:+ (written +:+ body) +:+ Fence.fence +:+ trail)
  = JsString.trim body.
Proof.
  intros Htag Hlead Htrail. unfold Fence.unfence.
  rewrite trim_fenced by assumption.
  rewrite startsWith_append.
  rewrite replaceOpening_fence.
  rewrite append_assoc3, (skipTag_written tag written _ Htag).
  destruct eatSpace.
  - rewrite trimStart_before_fence, replaceClosing_final. apply trim_trimStart.
  - now rewrite replaceClosing_final.
Qed.

Lemma unfence_fenced_body_witness :
  Fence.metadataText
    (" " +:+ Fence.fence +:+ ("JSON" +:+ String "010" "{}" +:+ String "010" "")
     +:+ Fence.fence +:+ String "010" "")
  = "{}".
Proof.
  apply (unfence_fenced_body "json" "JSON" " " (String "010" "{}" +:+ String "010" "")
           (String "010" "") true).
  - reflexivity.
  - reflexivity.
  - reflexivity.
Defined.

(** ** The earlier route handler *)

Section EarlierFacts.

Import JsString JsStringFacts.

Variable env : Env.
Variable w : world.

Local Open Scope prog_scope.

(** The earlier [switch] along the dispatch table. *)
Lemma earlier_table (event : stripe_event) :
  EarlierHandler.dispatch env event
  = match Dispatch.acted_on event with
    | None => Ret tt
    | Some k =>
        email <- Dispatch.identity k event ;;
        if isEmpty email then console LogWarn (Dispatch.missingEmail k)
        else
          time <- lift (Webhooks.eventTime event) ;;
          WebhooksEarlier.ghlV1UpsertContact env (Dispatch.upsertArgs k event email time) ;;
          Ret tt
    end.
Proof.
  unfold EarlierHandler.dispatch, Dispatch.acted_on, Dispatch.recognized.
  repeat (match goal with
          | |- context [String.eqb ?a ?b] => destruct (String.eqb a b)
          end; try reflexivity).
Qed.

(** The earlier upsert with an email and both settings: one request,
    carrying the arguments as they are. *)
Lemma earlier_upsert_run (args : Payload.t) (s : w_state w) :
  Payload.email args <> EmptyString ->
  or_empty (GHL_V1_API_KEY env) <> EmptyString ->
  or_empty (GHL_LOCATION_ID env) <> EmptyString ->
  let post :=
    GhlPostContactsUpsert (or_empty (GHL_V1_API_KEY env)) (or_empty (GHL_LOCATION_ID env))
      args in
  let r := run w (WebhooksEarlier.ghlV1UpsertContact env args) s in
  external (trace r) = [post]
  /\ final r = snd (w_respond w post s)
  /\ match fst (w_respond w post s) with
     | FetchRejects m => result r = Threw (FetchError m)
     | FetchResponse _ => exists data, result r = Returned data
     end.
Proof.
  intros He Hk Hl. cbv zeta. unfold WebhooksEarlier.ghlV1UpsertContact.
  apply isEmpty_false in He, Hk, Hl. rewrite He, Hk, Hl. cbn [orb].
  assert (Heta : Payload.make (Payload.email args) (Payload.firstName args)
                   (Payload.lastName args) (Payload.phone args) (Payload.tags args)
                   (Payload.customFields args) = args) by now destruct args.
  rewrite Heta. simpl.
  destruct (w_respond w _ s) as [[m|r0] s']; simpl; [auto|].
  destruct (res_ok r0); simpl; eauto.
Qed.

End EarlierFacts.

(** The earlier handler overwrites: for a verified event it acts on,
    with an email, a representable event time and both CRM settings, it
    makes one request to the upsert endpoint whose body carries exactly
    the newly computed tags; the contact is not read, so tags it already
    has are not sent again, and the mailing list is not called.  A
    rejected request is answered 500, any response 200. *)
Theorem earlier_handler_sends_new_tags_only
    (env : Env)
    (constructEvent : string -> option string -> option string -> exn + stripe_event)
    (w : world) (s : w_state w) (req : request) (event : stripe_event)
    (k : Dispatch.kind) (email time : string) :
  verifies env constructEvent req event ->
  Dispatch.acted_on event = Some k ->
  let look := run w (Dispatch.identity k event) s in
  result look = Returned email -> email <> EmptyString ->
  Webhooks.eventTime event = inr time ->
  or_empty (GHL_V1_API_KEY env) <> EmptyString ->
  or_empty (GHL_LOCATION_ID env) <> EmptyString ->
  let post :=
    GhlPostContactsUpsert (or_empty (GHL_V1_API_KEY env)) (or_empty (GHL_LOCATION_ID env))
      (Dispatch.upsertArgs k event email time) in
  let r := run w (EarlierHandler.registerStripeWebhooks env constructEvent req) s in
  external (trace r) = external (trace look) ++ [post]
  /\ List.map Payload.tags (written (external (trace r))) = [Dispatch.newTags k event]
  /\ final r = snd (w_respond w post (final look))
  /\ result r
     = Returned (match fst (w_respond w post (final look)) with
                 | FetchRejects _ => error500
                 | FetchResponse _ => ok200
                 end).
Proof.
  intros Hv Hact look Hlook Hne Htime Hk Hl post r.
  assert (Hargs : Payload.email (Dispatch.upsertArgs k event email time) = email)
    by now destruct k.
  assert (Htags : Payload.tags (Dispatch.upsertArgs k event email time)
                  = Dispatch.newTags k event) by now destruct k.
  destruct (earlier_upsert_run env w (Dispatch.upsertArgs k event email time) (final look))
    as (Htr & Hfin & Hres); [now rewrite Hargs|assumption|assumption|].
  cbv zeta in Htr, Hfin, Hres. fold post in Htr, Hfin, Hres.
  destruct (identity_writes_nothing w k event s) as [Hw0 _]. fold look in Hw0.
  subst r. unfold EarlierHandler.registerStripeWebhooks.
  unfold verifies in Hv. rewrite Hv. unfold EarlierHandler.processEvent.
  rewrite earlier_table, Hact.
  rewrite run_try_catch, run_bind, run_bind. fold look. rewrite Hlook.
  pose proof Hne as He. apply JsStringFacts.isEmpty_false in He.
  cbv zeta. cbn [result final trace]. rewrite He.
  rewrite run_bind, Htime. cbn [lift run result final trace app].
  rewrite run_bind.
  destruct (fst (w_respond w post (final look))) as [m|r0].
  - rewrite Hres. cbn [result final trace run console bind].
    rewrite !external_app, Htr. cbn [external app].
    rewrite ?app_nil_r, !written_app, Hw0. subst post. cbn [written List.map app].
    rewrite Htags, Hfin. auto.
  - destruct Hres as [data Hres]. rewrite Hres. cbv zeta. cbn [result final trace run].
    rewrite !external_app, Htr. cbn [external app].
    rewrite ?app_nil_r, !written_app, Hw0. subst post. cbn [written List.map app].
    rewrite Htags, Hfin. auto.
Qed.

Lemma earlier_handler_witness :
  let w := Crm.world Sample.customers Crm.healthy in
  let post :=
    GhlPostContactsUpsert "v1-key" "loc-1"
      (Dispatch.upsertArgs Dispatch.CheckoutCompleted Sample.checkout "a@x.com"
         "2023-11-14T22:13:20.000Z") in
  let r := run w (EarlierHandler.registerStripeWebhooks Sample.env
                    (Sample.constructEvent Sample.checkout) Sample.signed) Sample.store in
  external (trace r) = [post]
  /\ List.map Payload.tags (written (external (trace r)))
     = [["fc:trial_checkout"; "evt:cs_cs_1"]]
  /\ final r = snd (w_respond w post Sample.store)
  /\ result r = Returned ok200.
Proof.
  apply (earlier_handler_sends_new_tags_only Sample.env
           (Sample.constructEvent Sample.checkout)
           (Crm.world Sample.customers Crm.healthy) Sample.store Sample.signed
           Sample.checkout Dispatch.CheckoutCompleted "a@x.com"
           "2023-11-14T22:13:20.000Z").
  - reflexivity.
  - reflexivity.
  - reflexivity.
  - discriminate.
  - reflexivity.
  - discriminate.
  - discriminate.
Defined.

(** ** The contact the lookup returns *)

(** The lookup takes the first contact the CRM lists for the query and
    does not compare its email with the one asked for: when that contact
    belongs to another email, whatever its other fields, its tags (each
    of which can be turned into a string) are merged all the same into
    the body written for the email of the event. *)
Theorem first_listed_contact_is_merged_unchecked
    (env : Env) (w : world) (s : w_state w) (args : Payload.t)
    (r : response) (json contact : jsval) (other : string)
    (items more : list jsval) (existingTags : list string) :
  configured env -> Payload.email args <> EmptyString ->
  other <> Payload.email args ->
  fst (w_respond w
         (GhlGetContacts (apiKeyOf env) (locationIdOf env) (Payload.email args)) s)
  = FetchResponse r ->
  res_ok r = true ->
  res_json r = Some json ->
  Js.opt json "contacts" = JArr (contact :: more) ->
  Js.opt contact "email" = JStr other ->
  Js.opt contact "tags" = JArr items ->
  cleanTagValues items = inr existingTags ->
  exists p : Payload.t,
    written (external (trace (run w (Webhooks.ghlV1UpsertContact env args) s))) = [p]
    /\ Payload.email p = Payload.email args
    /\ forall t, t ∈ Payload.tags p
                 <-> t ∈ existingTags \/ t ∈ cleanTags (Payload.tags args).
Proof.
  intros Hc He Hother Hanswer Hok Hjson Hcontacts Hemail Htags Hclean.
  destruct (upsert_run env w s args Hc He) as (Htr & _). cbv zeta in Htr.
  rewrite Htr, Hanswer. cbn [written]. eexists. split; [reflexivity|].
  split; [reflexivity|]. intros t. cbn [payloadOf Payload.tags].
  apply (mergedTags_union _ items); [|exact Hclean].
  unfold contactOf. rewrite Hok, Hjson, Hcontacts. cbn [Js.first].
  now rewrite Htags.
Qed.

(** A world whose contact lookup lists one contact, of [b@x.com], with
    the tags [vip] and the number 7. *)
Definition otherContactWorld : world :=
  {| w_state := unit;
     w_respond := fun c s =>
       match c as c0 return resp c0 * unit with
       | StripeCustomersRetrieve _ => (inl (StripeError "No such customer"), s)
       | GhlGetContacts _ _ _ =>
           (FetchResponse
              {| res_status := 200;
                 res_body :=
                   JsonBody
                     (JObj [("contacts",
                             JArr [JObj [("id", JStr "c_2");
                                         ("email", JStr "b@x.com");
                                         ("tags", JArr [JStr "vip"; JNum "7"])]])]) |}, s)
       | _ => (FetchResponse {| res_status := 200; res_body := JsonBody (JObj []) |}, s)
       end |}.

Lemma first_listed_contact_witness :
  exists p : Payload.t,
    written (external (trace (run otherContactWorld
      (Webhooks.ghlV1UpsertContact Sample.env
         (Payload.make "a@x.com" None None None ["fc:trial_checkout"] [])) tt))) = [p]
    /\ Payload.email p = "a@x.com"
    /\ forall t, t ∈ Payload.tags p
                 <-> t ∈ ["vip"; "7"] \/ t ∈ cleanTags ["fc:trial_checkout"].
Proof.
  apply (first_listed_contact_is_merged_unchecked Sample.env otherContactWorld tt
           (Payload.make "a@x.com" None None None ["fc:trial_checkout"] [])
           {| res_status := 200;
              res_body :=
                JsonBody
                  (JObj [("contacts",
                          JArr [JObj [("id", JStr "c_2");
                                      ("email", JStr "b@x.com");
                                      ("tags", JArr [JStr "vip"; JNum "7"])]])]) |}
           (JObj [("contacts",
                   JArr [JObj [("id", JStr "c_2");
                               ("email", JStr "b@x.com");
                               ("tags", JArr [JStr "vip"; JNum "7"])]])])
           (JObj [("id", JStr "c_2");
                  ("email", JStr "b@x.com");
                  ("tags", JArr [JStr "vip"; JNum "7"])])
           "b@x.com" [JStr "vip"; JNum "7"] [] ["vip"; "7"]).
  - exact sample_configured.
  - discriminate.
  - discriminate.
  - reflexivity.
  - reflexivity.
  - reflexivity.
  - reflexivity.
  - reflexivity.
  - reflexivity.
  - reflexivity.
Defined.

(** ** The trial opportunity *)

(** A request of the stage resolver. *)
Definition is_probe (c : call) : bool :=
  match c with
  | GhlGetOpportunities _ _ _ | GhlGetPipeline _ _ _ => true
  | _ => false
  end.

(** Requests of the resolver, then at most one opportunity request, which
    is the last call. *)
Fixpoint probes_then_opportunity (calls : list Legacy.lcall) : bool :=
  match calls with
  | [] => true
  | Legacy.Base c :: rest => is_probe c && probes_then_opportunity rest
  | Legacy.GhlPostOpportunity _ _ _ :: rest =>
      match rest with [] => true | _ :: _ => false end
  | _ :: _ => false
  end.

(** No call at all, or the contact request first and then
    [probes_then_opportunity]. *)
Definition contact_first (calls : list Legacy.lcall) : bool :=
  match calls with
  | [] => true
  | Legacy.GhlPostContact _ _ _ :: rest => probes_then_opportunity rest
  | _ :: _ => false
  end.

Section LegacyRun.

Import Legacy.

Context {A B : Type} (w : lworld).

Lemma lrun_bind (p : lprog A) (f : A -> lprog B) (s : lw_state w) :
  lrun w (lbind p f) s =
  match lresult (lrun w p s) with
  | Returned a =>
      let r' := lrun w (f a) (lfinal (lrun w p s)) in
      {| lresult := lresult r';
         ltrace := ltrace (lrun w p s) ++ ltrace r';
         lfinal := lfinal r' |}
  | Threw e =>
      {| lresult := Threw e; ltrace := ltrace (lrun w p s); lfinal := lfinal (lrun w p s) |}
  end.
Proof.
  revert s. induction p as [a|e|c k IH|level label k IH]; intros s; simpl.
  - now destruct (lrun w (f a) s).
  - reflexivity.
  - destruct (lw_respond w c s) as [x s']. rewrite IH.
    now destruct (lresult (lrun w (k x) s')).
  - rewrite IH. now destruct (lresult (lrun w k s)).
Qed.

Lemma lrun_try_catch (p : lprog A) (h : exn -> lprog A) (s : lw_state w) :
  lrun w (ltry_catch p h) s =
  match lresult (lrun w p s) with
  | Returned a =>
      {| lresult := Returned a; ltrace := ltrace (lrun w p s);
         lfinal := lfinal (lrun w p s) |}
  | Threw e =>
      let r' := lrun w (h e) (lfinal (lrun w p s)) in
      {| lresult := lresult r';
         ltrace := ltrace (lrun w p s) ++ ltrace r';
         lfinal := lfinal r' |}
  end.
Proof.
  revert s. induction p as [a|e|c k IH|level label k IH]; intros s; simpl.
  - reflexivity.
  - now destruct (lrun w (h e) s).
  - destruct (lw_respond w c s) as [x s']. rewrite IH.
    now destruct (lresult (lrun w (k x) s')).
  - rewrite IH. now destruct (lresult (lrun w k s)).
Qed.

End LegacyRun.

Section LegacyEmbed.

Import Legacy.

Variable w : lworld.

(** The world the resolver sees. *)
Definition base_world : world :=
  {| w_state := lw_state w; w_respond := fun c s => lw_respond w (Base c) s |}.

Definition inject (i : item) : litem :=
  match i with
  | Called c => LCalled (Base c)
  | Logged level label => LLogged level label
  end.

Lemma lrun_embed {A : Type} (p : prog A) (s : lw_state w) :
  lrun w (embed p) s
  = {| lresult := result (run base_world p s);
       ltrace := List.map inject (trace (run base_world p s));
       lfinal := final (run base_world p s) |}.
Proof.
  revert s. induction p as [a|e|c k IH|level label k IH]; intros s; simpl.
  - reflexivity.
  - reflexivity.
  - destruct (lw_respond w (Base c) s) as [x s']. now rewrite IH.
  - now rewrite IH.
Qed.

Lemma lexternal_app (t1 t2 : list litem) :
  lexternal (t1 ++ t2) = lexternal t1 ++ lexternal t2.
Proof.
  induction t1 as [|[c|level label] r IH]; simpl; [reflexivity| |exact IH].
  now rewrite IH.
Qed.

Lemma lexternal_inject (tr : list item) :
  lexternal (List.map inject tr) = List.map Base (external tr).
Proof.
  induction tr as [|[c|level label] r IH]; simpl; [reflexivity| |exact IH].
  now rewrite IH.
Qed.

Lemma probes_then_tail (probes : list call) (tail : list lcall) :
  forallb is_probe probes = true ->
  probes_then_opportunity (List.map Base probes ++ tail) = probes_then_opportunity tail.
Proof.
  induction probes as [|c rest IH]; simpl; [reflexivity|].
  intros [Hc Hr]%andb_true_iff. now rewrite Hc, IH.
Qed.

End LegacyEmbed.

Section ResolverCalls.

Variable env : Env.
Variable w : world.

(** The requests of a resolver call are a prefix of the three probes,
    and a call that returns has kept what the cache held. *)
Lemma resolve_run_cases (s : w_state w) (pipelineId : option string) (stageName : string)
    (_stageIdCache : gmap string jsval) :
  let r := run w (Server.resolveV1StageIdByName env pipelineId stageName _stageIdCache) s in
  (exists n,
     external (trace r)
     = firstn n
         [GhlGetOpportunities (apiKeyOf env) (locationIdOf env)
            (Some (Server.template pipelineId));
          GhlGetOpportunities (apiKeyOf env) (locationIdOf env) None;
          GhlGetPipeline (apiKeyOf env) (locationIdOf env) (Server.template pipelineId)])
  /\ forall stageId cache',
       result r = Returned (stageId, cache') ->
       forall key held, _stageIdCache !! key = Some held -> cache' !! key = Some held.
Proof.
  cbv zeta. unfold Server.resolveV1StageIdByName.
  destruct (_stageIdCache !! Server.cacheKey pipelineId stageName) as [cached|] eqn:Hlook.
  { simpl. split; [now exists 0%nat|]. now intros ? ? [= <- <-]. }
  assert (Hkept : forall stageId key held,
            _stageIdCache !! key = Some held ->
            <[Server.cacheKey pipelineId stageName := stageId]> _stageIdCache !! key
            = Some held).
  { intros stageId key held H. rewrite lookup_insert_ne; [exact H|]. intros <-. congruence. }
  fold (apiKeyOf env) (locationIdOf env).
  destruct (_ || _); [simpl; split; [now exists 0%nat|discriminate]|].
  destruct (tryFiltered_run w (apiKeyOf env) (locationIdOf env) pipelineId stageName s)
    as (Ht1 & _ & f1 & Hr1).
  cbv zeta in Ht1, Hr1.
  rewrite run_bind, Hr1. cbv zeta. cbn [result trace final].
  destruct f1 as [id1|].
  { cbn [run result trace]. rewrite app_nil_r, Ht1. split; [now exists 1%nat|].
    intros ? ? [= <- <-]. auto. }
  match goal with
  | |- context [run w (bind (Server.tryUnfiltered ?a ?b ?c ?d) _) ?st] =>
      destruct (tryUnfiltered_run w a b c d st) as (Ht2 & _ & f2 & Hr2)
  end.
  cbv zeta in Ht2, Hr2.
  rewrite run_bind, Hr2. cbv zeta. cbn [result trace final].
  destruct f2 as [id2|].
  { cbn [run result trace]. rewrite app_nil_r, external_app, Ht1, Ht2.
    split; [now exists 2%nat|]. intros ? ? [= <- <-]. auto. }
  match goal with
  | |- context [run w (bind (Server.tryPipeline ?a ?b ?c ?d) _) ?st] =>
      destruct (tryPipeline_run w a b c d st) as (Ht3 & _ & f3 & Hr3)
  end.
  cbv zeta in Ht3, Hr3.
  rewrite run_bind, Hr3. cbv zeta. cbn [result trace final].
  destruct f3 as [id3|]; cbn [run result trace];
    rewrite app_nil_r, !external_app, Ht1, Ht2, Ht3.
  - split; [now exists 3%nat|]. intros ? ? [= <- <-]. auto.
  - split; [now exists 3%nat|]. discriminate.
Qed.

Lemma resolve_calls_are_probes (s : w_state w) (pipelineId : option string)
    (stageName : string) (_stageIdCache : gmap string jsval) :
  forallb is_probe
    (external (trace (run w (Server.resolveV1StageIdByName env pipelineId stageName
                               _stageIdCache) s))) = true.
Proof.
  destruct (resolve_run_cases s pipelineId stageName _stageIdCache) as [[n Hn] _].
  cbv zeta in Hn. rewrite Hn.
  destruct n as [|[|[|[|n]]]]; reflexivity.
Qed.

End ResolverCalls.

Section TrialOpportunity.

Import Legacy.

Variable env : Env.
Variable settings : Settings.
Variable w : lworld.

(** The contact request. *)
Definition contactRequest (name email phone : string) : lcall :=
  GhlPostContact (or_empty (GHL_V1_API_KEY env)) (or_empty (GHL_LOCATION_ID env))
    {| cb_email := email;
       cb_firstName := firstNameOf name;
       cb_phone := if JsString.truthy phone then Some phone else None;
       cb_tags := ["FlavorCoach"; "Checkout Completed"; "Free until Jan 1"] |}.

(** The stage id and the cache after the stage has been looked up: the
    configured id, or what the resolver finds. *)
Definition stageStep (_stageIdCache : gmap string jsval)
  : lprog (jsval * gmap string jsval) :=
  let configuredStageId := JsString.trim (or_empty (GHL_TRIAL_STAGE_ID_V1 settings)) in
  if JsString.isEmpty configuredStageId
  then
    ltry_catch
      (embed (Server.resolveV1StageIdByName env (GHL_PIPELINE_ID settings)
                (desiredStageName settings) _stageIdCache))
      (fun _ =>
         lbind (lconsole LogWarn "Stage resolve failed:")
           (fun _ => LRet (JStr configuredStageId, _stageIdCache)))
  else LRet (JStr configuredStageId, _stageIdCache).

(** The opportunity request. *)
Definition opportunityRequest (contactId v1StageId : jsval) : lcall :=
  GhlPostOpportunity (or_empty (GHL_V1_API_KEY env)) (or_empty (GHL_LOCATION_ID env))
    {| ob_pipelineId := or_empty (GHL_PIPELINE_ID settings);
       ob_stageId := v1StageId;
       ob_contactId := contactId;
       ob_locationId := or_empty (GHL_LOCATION_ID env) |}.

(** Whether the opportunity is created. *)
Definition creates (contactId v1StageId : jsval) : bool :=
  Js.truthy contactId && JsString.truthy (or_empty (GHL_PIPELINE_ID settings))
  && Js.truthy v1StageId.

Lemma stageStep_run (_stageIdCache : gmap string jsval) (s : lw_state w) :
  let r := lrun w (stageStep _stageIdCache) s in
  (exists v1StageId cache,
     lresult r = Returned (v1StageId, cache)
     /\ forall key held, _stageIdCache !! key = Some held -> cache !! key = Some held)
  /\ (exists probes,
        lexternal (ltrace r) = List.map Base probes /\ forallb is_probe probes = true)
  /\ (JsString.trim (or_empty (GHL_TRIAL_STAGE_ID_V1 settings)) <> EmptyString ->
      r = {| lresult :=
               Returned (JStr (JsString.trim (or_empty (GHL_TRIAL_STAGE_ID_V1 settings))),
                         _stageIdCache);
             ltrace := []; lfinal := s |}).
Proof.
  cbv zeta. unfold stageStep.
  destruct (JsString.isEmpty _) eqn:Hcfg.
  2:{ simpl. split; [eauto|]. split; [now exists []|]. reflexivity. }
  rewrite lrun_try_catch, lrun_embed. cbn [lresult ltrace lfinal].
  pose proof (resolve_calls_are_probes env (base_world w) s (GHL_PIPELINE_ID settings)
                (desiredStageName settings) _stageIdCache) as Hprobes.
  destruct (resolve_run_cases env (base_world w) s (GHL_PIPELINE_ID settings)
              (desiredStageName settings) _stageIdCache) as [_ Hkept].
  cbv zeta in Hkept.
  destruct (result (run (base_world w) _ s)) as [[stageId cache']|e].
  - cbn [lresult ltrace]. split; [exists stageId, cache'; eauto|].
    split; [|intros H; apply JsStringFacts.isEmpty_true in Hcfg; contradiction].
    eexists. split; [apply lexternal_inject|exact Hprobes].
  - cbn [lrun lconsole lbind lresult ltrace]. split; [eauto|].
    split; [|intros H; apply JsStringFacts.isEmpty_true in Hcfg; contradiction].
    eexists. rewrite lexternal_app, lexternal_inject. cbn [lexternal].
    rewrite app_nil_r. split; [reflexivity|exact Hprobes].
Qed.

(** The function with its steps named. *)
Lemma trialOpp_steps (name email phone : string) (_stageIdCache : gmap string jsval) :
  upsertGhlContactAndTrialOpp env settings name email phone _stageIdCache
  = if JsString.isEmpty (or_empty (GHL_V1_API_KEY env))
       || JsString.isEmpty (or_empty (GHL_LOCATION_ID env))
    then
      lbind
        (lconsole LogWarn "Skip GHL v1 upsert: missing GHL_V1_API_KEY or GHL_LOCATION_ID")
        (fun _ => LRet _stageIdCache)
    else
      lbind
        (ltry_catch
           (lbind (lawait (contactRequest name email phone))
              (fun res =>
                 match res with
                 | FetchRejects m => LThrow (FetchError m)
                 | FetchResponse r =>
                     lbind (lconsole LogInfo "GHL v1 upsert contact:")
                       (fun _ =>
                          LRet (Some (contactIdOf
                                        (match res_json r with
                                         | Some j => j
                                         | None => JObj []
                                         end))))
                 end))
           (fun _ => lbind (lconsole LogWarn "GHL v1 upsert failed:") (fun _ => LRet None)))
        (fun posted =>
           match posted with
           | None => LRet _stageIdCache
           | Some contactId =>
               lbind (stageStep _stageIdCache)
                 (fun resolved =>
                    let '(v1StageId, cache) := resolved in
                    if creates contactId v1StageId
                    then
                      lbind
                        (ltry_catch
                           (lbind (lconsole LogInfo "GHL v1 create payload")
                              (fun _ =>
                                 lbind (lawait (opportunityRequest contactId v1StageId))
                                   (fun res =>
                                      match res with
                                      | FetchRejects m => LThrow (FetchError m)
                                      | FetchResponse r =>
                                          lbind
                                            (lconsole LogInfo "GHL v1 create opportunity:")
                                            (fun _ =>
                                               if negb (res_ok r)
                                               then LThrow (Error "GHL v1 opportunity failed")
                                               else LRet tt)
                                      end)))
                           (fun _ => lconsole LogWarn "GHL v1 opportunity error:"))
                        (fun _ => LRet cache)
                    else
                      lbind (lconsole LogWarn "GHL v1 create skipped: missing value(s)")
                        (fun _ => LRet cache))
           end).
Proof. reflexivity. Qed.

(** The run of the function once the settings are there: the contact
    request, the stage step and then the opportunity request or the
    warning that it is skipped. *)
Lemma trialOpp_run (name email phone : string) (_stageIdCache : gmap string jsval)
    (s : lw_state w) :
  or_empty (GHL_V1_API_KEY env) <> EmptyString ->
  or_empty (GHL_LOCATION_ID env) <> EmptyString ->
  let c1 := contactRequest name email phone in
  let r := lrun w (upsertGhlContactAndTrialOpp env settings name email phone _stageIdCache) s in
  match fst (lw_respond w c1 s) with
  | FetchRejects _ =>
      r = {| lresult := Returned _stageIdCache;
             ltrace := [LCalled c1; LLogged LogWarn "GHL v1 upsert failed:"];
             lfinal := snd (lw_respond w c1 s) |}
  | FetchResponse r1 =>
      let contactId :=
        contactIdOf (match res_json r1 with Some j => j | None => JObj [] end) in
      let st := lrun w (stageStep _stageIdCache) (snd (lw_respond w c1 s)) in
      forall v1StageId cache,
        lresult st = Returned (v1StageId, cache) ->
        lresult r = Returned cache
        /\ lexternal (ltrace r)
           = c1 :: lexternal (ltrace st)
             ++ (if creates contactId v1StageId
                 then [opportunityRequest contactId v1StageId] else [])
        /\ lfinal r
           = if creates contactId v1StageId
             then snd (lw_respond w (opportunityRequest contactId v1StageId) (lfinal st))
             else lfinal st
  end.
Proof.
  intros Hk Hl c1 r. subst r. rewrite trialOpp_steps.
  apply JsStringFacts.isEmpty_false in Hk, Hl. rewrite Hk, Hl. cbn [orb].
  fold c1.
  rewrite lrun_bind, lrun_try_catch. cbn [lawait lconsole lbind lrun].
  destruct (lw_respond w c1 s) as [[m|r1] s1];
    cbn [fst snd lresult ltrace lfinal lrun app lconsole lbind]; [reflexivity|].
  intros v1StageId cache Hst.
  rewrite lrun_bind, Hst. cbv zeta. cbn [lresult ltrace lfinal].
  destruct (creates _ v1StageId).
  - rewrite lrun_bind, lrun_try_catch. cbn [lconsole lbind lawait lrun].
    destruct (lw_respond w (opportunityRequest _ v1StageId) _) as [[m|r2] s2];
      cbn [fst snd lresult ltrace lfinal lrun app lexternal].
    + rewrite lexternal_app. cbn [lexternal]. auto.
    + destruct (res_ok r2); cbn [negb lresult ltrace lfinal lrun app lexternal];
        rewrite lexternal_app; cbn [lexternal]; auto.
  - cbn [lconsole lbind lrun lresult ltrace lfinal lexternal].
    rewrite lexternal_app. cbn [lexternal]. auto.
Qed.

End TrialOpportunity.

(** A world for the trial opportunity: the contact request is answered
    with the id [c_1], the requests of the resolver as
    [opportunitiesWorld] answers them, and the opportunity request is
    accepted; the billing provider knows no subscription, and the
    document store accepts every write and finds the user [user_1]. *)
Definition trialWorld : Legacy.lworld :=
  {| Legacy.lw_state := unit;
     Legacy.lw_respond := fun c s =>
       match c as c0 return Legacy.lresp c0 * unit with
       | Legacy.Base c => w_respond opportunitiesWorld c s
       | Legacy.GhlPostContact _ _ _ =>
           (FetchResponse
              {| res_status := 200;
                 res_body := JsonBody (JObj [("contact", JObj [("id", JStr "c_1")])]) |}, s)
       | Legacy.GhlPostOpportunity _ _ _ =>
           (FetchResponse {| res_status := 201; res_body := JsonBody (JObj []) |}, s)
       | Legacy.StripeSubscriptionsRetrieve _ =>
           (inl (StripeError "No such subscription"), s)
       | Legacy.FirestoreSetStripeCustomer _ _ => (inr tt, s)
       | Legacy.FirestoreFindUser _ => (inr (Some "user_1"), s)
       | Legacy.FirestoreSetUserSubscription _ _ => (inr tt, s)
       end |}.

Definition trialSettings : Legacy.Settings :=
  {| Legacy.GHL_PIPELINE_ID := Some "p1";
     Legacy.GHL_TRIAL_STAGE_NAME := None;
     Legacy.GHL_TRIAL_STAGE_ID_V1 := None |}.

(** [upsertGhlContactAndTrialOpp] never throws, whatever the CRM
    answers, and keeps what the stage cache held.  Its calls come in a
    fixed order: none at all, or the contact request first, then
    requests of the stage resolver only, then at most one opportunity
    request, which is the last call. *)
Theorem trial_opportunity_call_order
    (env : Env) (settings : Legacy.Settings) (w : Legacy.lworld) (s : Legacy.lw_state w)
    (name email phone : string) (_stageIdCache : gmap string jsval) :
  let r := Legacy.lrun w
             (Legacy.upsertGhlContactAndTrialOpp env settings name email phone
                _stageIdCache) s in
  (exists cache,
     Legacy.lresult r = Returned cache
     /\ forall key held, _stageIdCache !! key = Some held -> cache !! key = Some held)
  /\ contact_first (Legacy.lexternal (Legacy.ltrace r)) = true.
Proof.
  cbv zeta.
  destruct (JsString.isEmpty (or_empty (GHL_V1_API_KEY env))) eqn:Hk.
  { unfold Legacy.upsertGhlContactAndTrialOpp. rewrite Hk. simpl. split; [eauto|reflexivity]. }
  destruct (JsString.isEmpty (or_empty (GHL_LOCATION_ID env))) eqn:Hl.
  { unfold Legacy.upsertGhlContactAndTrialOpp. rewrite Hk, Hl. simpl.
    split; [eauto|reflexivity]. }
  apply JsStringFacts.isEmpty_false in Hk, Hl.
  pose proof (trialOpp_run env settings w name email phone _stageIdCache s Hk Hl) as Hrun.
  cbv zeta in Hrun.
  destruct (fst (Legacy.lw_respond w (contactRequest env name email phone) s)) as [m|r1].
  { rewrite Hrun. simpl. split; [eauto|reflexivity]. }
  destruct (stageStep_run env settings w _stageIdCache
              (snd (Legacy.lw_respond w (contactRequest env name email phone) s)))
    as ((v1StageId & cache & Hst & Hkept) & (probes & Hcalls & Hprobes) & _).
  cbv zeta in Hst, Hcalls.
  destruct (Hrun v1StageId cache Hst) as (Hres & Htr & _).
  split; [eauto|].
  rewrite Htr, Hcalls. unfold contact_first, contactRequest.
  rewrite probes_then_tail by exact Hprobes.
  now destruct (creates settings _ v1StageId).
Qed.

(** An opportunity is created only for a contact id, a pipeline id and a
    stage id that are all truthy: the contact id is the one read from
    the answer to the contact request, the pipeline id is
    [GHL_PIPELINE_ID], and the request goes out with the key and the
    location id of the contact request. *)
Theorem opportunity_needs_contact_pipeline_stage
    (env : Env) (settings : Legacy.Settings) (w : Legacy.lworld) (s : Legacy.lw_state w)
    (name email phone : string) (_stageIdCache : gmap string jsval)
    (apiKey locationId : string) (body : Legacy.opportunity_body) :
  In (Legacy.GhlPostOpportunity apiKey locationId body)
     (Legacy.lexternal
        (Legacy.ltrace
           (Legacy.lrun w
              (Legacy.upsertGhlContactAndTrialOpp env settings name email phone
                 _stageIdCache) s))) ->
  apiKey = or_empty (GHL_V1_API_KEY env)
  /\ locationId = or_empty (GHL_LOCATION_ID env)
  /\ Legacy.ob_locationId body = locationId
  /\ Legacy.GHL_PIPELINE_ID settings = Some (Legacy.ob_pipelineId body)
  /\ Legacy.ob_pipelineId body <> EmptyString
  /\ Js.truthy (Legacy.ob_stageId body) = true
  /\ Js.truthy (Legacy.ob_contactId body) = true
  /\ exists r1,
       fst (Legacy.lw_respond w (contactRequest env name email phone) s) = FetchResponse r1
       /\ Legacy.ob_contactId body
          = Legacy.contactIdOf (match res_json r1 with Some j => j | None => JObj [] end).
Proof.
  destruct (JsString.isEmpty (or_empty (GHL_V1_API_KEY env))) eqn:Hk.
  { unfold Legacy.upsertGhlContactAndTrialOpp. rewrite Hk. simpl. intros []. }
  destruct (JsString.isEmpty (or_empty (GHL_LOCATION_ID env))) eqn:Hl.
  { unfold Legacy.upsertGhlContactAndTrialOpp. rewrite Hk, Hl. simpl. intros []. }
  apply JsStringFacts.isEmpty_false in Hk, Hl.
  pose proof (trialOpp_run env settings w name email phone _stageIdCache s Hk Hl) as Hrun.
  cbv zeta in Hrun.
  destruct (fst (Legacy.lw_respond w (contactRequest env name email phone) s)) as [m|r1].
  { rewrite Hrun. simpl. intros [H|[]]. discriminate H. }
  destruct (stageStep_run env settings w _stageIdCache
              (snd (Legacy.lw_respond w (contactRequest env name email phone) s)))
    as ((v1StageId & cache & Hst & _) & (probes & Hcalls & _) & _).
  cbv zeta in Hst, Hcalls.
  destruct (Hrun v1StageId cache Hst) as (_ & Htr & _).
  rewrite Htr, Hcalls. intros [H|H]; [discriminate H|].
  apply in_app_or in H as [H|H].
  { apply in_map_iff in H as (c & Hc & _). discriminate Hc. }
  destruct (creates settings _ v1StageId) eqn:Hcreates; [|destruct H].
  destruct H as [H|[]]. unfold opportunityRequest in H. injection H as <- <- <-.
  unfold creates in Hcreates.
  apply andb_true_iff in Hcreates as [Hcreates Hstage].
  apply andb_true_iff in Hcreates as [Hcontact Hpipeline].
  cbn [Legacy.ob_locationId Legacy.ob_pipelineId Legacy.ob_stageId Legacy.ob_contactId].
  apply JsStringFacts.truthy_nonempty in Hpipeline.
  repeat split; try assumption; try reflexivity.
  - destruct (Legacy.GHL_PIPELINE_ID settings) as [p|]; [reflexivity|].
    now contradiction Hpipeline.
  - eauto.
Qed.

Lemma opportunity_witness :
  "v1-key" = or_empty (GHL_V1_API_KEY Sample.env)
  /\ "loc-1" = or_empty (GHL_LOCATION_ID Sample.env)
  /\ "loc-1" = "loc-1"
  /\ Legacy.GHL_PIPELINE_ID trialSettings = Some "p1"
  /\ "p1" <> EmptyString
  /\ Js.truthy (JStr "st_9") = true
  /\ Js.truthy (JStr "c_1") = true
  /\ exists r1,
       fst (Legacy.lw_respond trialWorld
              (contactRequest Sample.env "Jane Doe" "a@x.com" EmptyString) tt)
       = FetchResponse r1
       /\ JStr "c_1"
          = Legacy.contactIdOf (match res_json r1 with Some j => j | None => JObj [] end).
Proof.
  apply (opportunity_needs_contact_pipeline_stage Sample.env trialSettings trialWorld tt
           "Jane Doe" "a@x.com" EmptyString ∅ "v1-key" "loc-1"
           {| Legacy.ob_pipelineId := "p1";
              Legacy.ob_stageId := JStr "st_9";
              Legacy.ob_contactId := JStr "c_1";
              Legacy.ob_locationId := "loc-1" |}).
  vm_compute. right. right. right. left. reflexivity.
Defined.

(** With [GHL_TRIAL_STAGE_ID_V1] set, the stage resolver is not
    consulted: after the contact request the only possible call is the
    opportunity request with the configured id, trimmed, and the stage
    cache is returned as it was. *)
Theorem configured_stage_id_skips_resolver
    (env : Env) (settings : Legacy.Settings) (w : Legacy.lworld) (s : Legacy.lw_state w)
    (name email phone : string) (_stageIdCache : gmap string jsval) :
  or_empty (GHL_V1_API_KEY env) <> EmptyString ->
  or_empty (GHL_LOCATION_ID env) <> EmptyString ->
  JsString.trim (or_empty (Legacy.GHL_TRIAL_STAGE_ID_V1 settings)) <> EmptyString ->
  let c1 := contactRequest env name email phone in
  let v1StageId := JStr (JsString.trim (or_empty (Legacy.GHL_TRIAL_STAGE_ID_V1 settings))) in
  let r := Legacy.lrun w
             (Legacy.upsertGhlContactAndTrialOpp env settings name email phone
                _stageIdCache) s in
  Legacy.lresult r = Returned _stageIdCache
  /\ Legacy.lexternal (Legacy.ltrace r)
     = c1 :: match fst (Legacy.lw_respond w c1 s) with
             | FetchRejects _ => []
             | FetchResponse r1 =>
                 let contactId :=
                   Legacy.contactIdOf
                     (match res_json r1 with Some j => j | None => JObj [] end) in
                 if Js.truthy contactId
                    && JsString.truthy (or_empty (Legacy.GHL_PIPELINE_ID settings))
                 then [opportunityRequest env settings contactId v1StageId]
                 else []
             end.
Proof.
  intros Hk Hl Hcfg c1 v1StageId r. subst r.
  pose proof (trialOpp_run env settings w name email phone _stageIdCache s Hk Hl) as Hrun.
  cbv zeta in Hrun. fold c1 in Hrun |- *.
  destruct (fst (Legacy.lw_respond w c1 s)) as [m|r1].
  { rewrite Hrun. auto. }
  destruct (stageStep_run env settings w _stageIdCache (snd (Legacy.lw_respond w c1 s)))
    as (_ & _ & Hst).
  cbv zeta in Hst. specialize (Hst Hcfg).
  destruct (Hrun v1StageId _stageIdCache) as (Hres & Htr & _); [now rewrite Hst|].
  split; [exact Hres|]. rewrite Htr, Hst. cbn [Legacy.ltrace Legacy.lexternal app].
  unfold creates. subst v1StageId. cbn [Js.truthy].
  apply JsStringFacts.truthy_nonempty in Hcfg. rewrite Hcfg, andb_true_r. reflexivity.
Qed.

Lemma configured_stage_id_witness :
  let settings :=
    {| Legacy.GHL_PIPELINE_ID := Some "p1";
       Legacy.GHL_TRIAL_STAGE_NAME := None;
       Legacy.GHL_TRIAL_STAGE_ID_V1 := Some " st_1 " |} in
  let r := Legacy.lrun trialWorld
             (Legacy.upsertGhlContactAndTrialOpp Sample.env settings "Jane Doe" "a@x.com"
                EmptyString ∅) tt in
  Legacy.lresult r = Returned ∅
  /\ Legacy.lexternal (Legacy.ltrace r)
     = [contactRequest Sample.env "Jane Doe" "a@x.com" EmptyString;
        opportunityRequest Sample.env settings (JStr "c_1") (JStr "st_1")].
Proof.
  apply (configured_stage_id_skips_resolver Sample.env
           {| Legacy.GHL_PIPELINE_ID := Some "p1";
              Legacy.GHL_TRIAL_STAGE_NAME := None;
              Legacy.GHL_TRIAL_STAGE_ID_V1 := Some " st_1 " |}
           trialWorld tt "Jane Doe" "a@x.com" EmptyString ∅).
  - discriminate.
  - discriminate.
  - vm_compute. discriminate.
Defined.

Section FirstProbe.

Variable env : Env.
Variable w : world.

(** On a miss with the CRM settings the first probe is always sent. *)
Lemma resolve_first_probe (s : w_state w) (pipelineId : option string) (stageName : string)
    (_stageIdCache : gmap string jsval) :
  _stageIdCache !! Server.cacheKey pipelineId stageName = None ->
  configured env ->
  exists rest,
    external (trace (run w (Server.resolveV1StageIdByName env pipelineId stageName
                              _stageIdCache) s))
    = GhlGetOpportunities (apiKeyOf env) (locationIdOf env)
        (Some (Server.template pipelineId)) :: rest.
Proof.
  intros Hmiss [Hk Hl]. unfold Server.resolveV1StageIdByName. rewrite Hmiss.
  apply JsStringFacts.isEmpty_false in Hk, Hl.
  fold (apiKeyOf env) (locationIdOf env). rewrite Hk, Hl. cbn [orb].
  destruct (tryFiltered_run w (apiKeyOf env) (locationIdOf env) pipelineId stageName s)
    as (Ht1 & _ & f1 & Hr1).
  cbv zeta in Ht1, Hr1. rewrite run_bind, Hr1. cbv zeta. cbn [result trace final].
  rewrite external_app, Ht1. eauto.
Qed.

End FirstProbe.

(** The stage is looked up before it is known whether an opportunity can
    be created.  Without a configured stage id and on a cache miss, the
    first probe of the resolver follows the contact request even when the
    answer to the contact request holds no contact id or when
    [GHL_PIPELINE_ID] is not set (the probe then asks for the pipeline
    [undefined]); every call after it is a request of the resolver, so
    no opportunity request follows. *)
Theorem stage_is_resolved_before_the_checks
    (env : Env) (settings : Legacy.Settings) (w : Legacy.lworld) (s : Legacy.lw_state w)
    (name email phone : string) (_stageIdCache : gmap string jsval) (r1 : response) :
  configured env ->
  JsString.trim (or_empty (Legacy.GHL_TRIAL_STAGE_ID_V1 settings)) = EmptyString ->
  _stageIdCache
    !! Server.cacheKey (Legacy.GHL_PIPELINE_ID settings) (Legacy.desiredStageName settings)
  = None ->
  let c1 := contactRequest env name email phone in
  fst (Legacy.lw_respond w c1 s) = FetchResponse r1 ->
  Js.truthy (Legacy.contactIdOf (match res_json r1 with Some j => j | None => JObj [] end))
  = false
  \/ JsString.truthy (or_empty (Legacy.GHL_PIPELINE_ID settings)) = false ->
  exists probes,
    Legacy.lexternal
      (Legacy.ltrace
         (Legacy.lrun w
            (Legacy.upsertGhlContactAndTrialOpp env settings name email phone
               _stageIdCache) s))
    = c1
      :: Legacy.Base
           (GhlGetOpportunities (apiKeyOf env) (locationIdOf env)
              (Some (Server.template (Legacy.GHL_PIPELINE_ID settings))))
      :: List.map Legacy.Base probes
    /\ forallb is_probe probes = true.
Proof.
  intros Hc Hcfg Hmiss c1 Hanswer Hmissing.
  assert (Hk : or_empty (GHL_V1_API_KEY env) <> EmptyString).
  { intros H. destruct Hc as [Hc _]. apply Hc. unfold apiKeyOf. now rewrite H. }
  assert (Hl : or_empty (GHL_LOCATION_ID env) <> EmptyString).
  { intros H. destruct Hc as [_ Hc]. apply Hc. unfold locationIdOf. now rewrite H. }
  pose proof (trialOpp_run env settings w name email phone _stageIdCache s Hk Hl) as Hrun.
  cbv zeta in Hrun. fold c1 in Hrun. rewrite Hanswer in Hrun.
  destruct (stageStep_run env settings w _stageIdCache (snd (Legacy.lw_respond w c1 s)))
    as ((v1StageId & cache & Hst & _) & _ & _).
  cbv zeta in Hst.
  destruct (Hrun v1StageId cache Hst) as (_ & Htr & _).
  assert (Hskip : creates settings
            (Legacy.contactIdOf (match res_json r1 with Some j => j | None => JObj [] end))
            v1StageId = false).
  { unfold creates. destruct Hmissing as [-> | ->]; [reflexivity|].
    now rewrite andb_false_r. }
  rewrite Htr, Hskip, app_nil_r.
  unfold stageStep. apply JsStringFacts.isEmpty_true in Hcfg. rewrite Hcfg.
  rewrite lrun_try_catch, lrun_embed. cbn [Legacy.lresult Legacy.ltrace Legacy.lfinal].
  destruct (resolve_first_probe env (base_world w) (snd (Legacy.lw_respond w c1 s))
              (Legacy.GHL_PIPELINE_ID settings) (Legacy.desiredStageName settings)
              _stageIdCache Hmiss Hc) as [rest Hrest].
  pose proof (resolve_calls_are_probes env (base_world w) (snd (Legacy.lw_respond w c1 s))
                (Legacy.GHL_PIPELINE_ID settings) (Legacy.desiredStageName settings)
                _stageIdCache) as Hprobes.
  rewrite Hrest in Hprobes. cbn [forallb is_probe andb] in Hprobes.
  exists rest. split; [|exact Hprobes].
  destruct (result (run (base_world w) _ _)) as [out|e].
  - cbn [Legacy.ltrace]. rewrite lexternal_inject, Hrest. reflexivity.
  - cbn [Legacy.lrun Legacy.lconsole Legacy.lbind Legacy.ltrace].
    rewrite lexternal_app, lexternal_inject, Hrest. cbn [List.map Legacy.lexternal].
    now rewrite app_nil_r.
Qed.

Lemma stage_is_resolved_witness :
  let settings :=
    {| Legacy.GHL_PIPELINE_ID := None;
       Legacy.GHL_TRIAL_STAGE_NAME := None;
       Legacy.GHL_TRIAL_STAGE_ID_V1 := None |} in
  exists probes,
    Legacy.lexternal
      (Legacy.ltrace
         (Legacy.lrun trialWorld
            (Legacy.upsertGhlContactAndTrialOpp Sample.env settings "Jane Doe" "a@x.com"
               EmptyString ∅) tt))
    = contactRequest Sample.env "Jane Doe" "a@x.com" EmptyString
      :: Legacy.Base (GhlGetOpportunities "v1-key" "loc-1" (Some "undefined"))
      :: List.map Legacy.Base probes
    /\ forallb is_probe probes = true.
Proof.
  apply (stage_is_resolved_before_the_checks Sample.env
           {| Legacy.GHL_PIPELINE_ID := None;
              Legacy.GHL_TRIAL_STAGE_NAME := None;
              Legacy.GHL_TRIAL_STAGE_ID_V1 := None |}
           trialWorld tt "Jane Doe" "a@x.com" EmptyString ∅
           {| res_status := 200;
              res_body := JsonBody (JObj [("contact", JObj [("id", JStr "c_1")])]) |}).
  - exact sample_configured.
  - reflexivity.
  - apply lookup_empty.
  - reflexivity.
  - right. reflexivity.
Defined.

Section FirstName.

Import JsString JsStringFacts.

Lemma split_head (cur x : string) :
  match x with EmptyString => True | String c _ => isWhiteSpace c = true end ->
  exists rest, split_ws_from false cur x = cur :: rest.
Proof.
  destruct x as [|c r]; simpl; [eauto|]. intros ->. eauto.
Qed.

Lemma spaced_starts (rest : list (string * string)) (trail : string) :
  Forall (fun gw => isGap (fst gw) /\ isWord (snd gw)) rest ->
  whitespaceOnly trail = true ->
  match spaced rest trail with
  | EmptyString => True
  | String c _ => isWhiteSpace c = true
  end.
Proof.
  intros Hrest Htrail. destruct Hrest as [|[gap word] more [[Hne Hg] _] _]; cbn [spaced].
  - destruct trail as [|c r]; [exact I|]. simpl in Htrail.
    now apply andb_true_iff in Htrail as [Hc _].
  - cbn [fst] in *. destruct gap as [|c r]; [contradiction|].
    rewrite append_cons. simpl in Hg. now apply andb_true_iff in Hg as [Hc _].
Qed.

End FirstName.

(** The first name sent with the contact request is the text before the
    first run of white space, and the name is not trimmed first: for a
    name that begins with its first word that word is sent, but when
    white space stands before the first word the first name sent is
    empty. *)
Theorem first_name_of_untrimmed_name
    (lead first : string) (rest : list (string * string)) (trail : string) :
  isGap lead ->
  isWord first ->
  Forall (fun gw => isGap (fst gw) /\ isWord (snd gw)) rest ->
  JsStringFacts.whitespaceOnly trail = true ->
  Legacy.firstNameOf (first +:+ spaced rest trail) = first
  /\ Legacy.firstNameOf (lead +:+ first +:+ spaced rest trail) = EmptyString.
Proof.
  intros Hlead Hfirst Hrest Htrail. split.
  - unfold Legacy.firstNameOf, JsString.split_ws.
    rewrite split_word by assumption. rewrite append_nil.
    destruct (split_head first (spaced rest trail) (spaced_starts rest trail Hrest Htrail))
      as [tl ->].
    reflexivity.
  - unfold Legacy.firstNameOf, JsString.split_ws. now rewrite split_gap.
Qed.

Lemma first_name_witness :
  Legacy.firstNameOf ("Mary" +:+ spaced [(" ", "Ann")] EmptyString) = "Mary"
  /\ Legacy.firstNameOf (" " +:+ "Mary" +:+ spaced [(" ", "Ann")] EmptyString)
     = EmptyString.
Proof.
  apply (first_name_of_untrimmed_name " " "Mary" [(" ", "Ann")] EmptyString).
  - split; [discriminate|reflexivity].
  - split; [discriminate|reflexivity].
  - repeat constructor; simpl; discriminate.
  - reflexivity.
Defined.

(** ** The route handler around the trial opportunity *)

(** A call to the document store. *)
Definition is_store (c : Legacy.lcall) : bool :=
  match c with
  | Legacy.FirestoreSetStripeCustomer _ _ | Legacy.FirestoreFindUser _
  | Legacy.FirestoreSetUserSubscription _ _ => true
  | _ => false
  end.

Section LegacyHandler.

Import Legacy.

(** Every call a program can make satisfies [P]. *)
Inductive calls_only {A : Type} (P : lcall -> bool) : lprog A -> Prop :=
| co_ret (a : A) : calls_only P (LRet a)
| co_throw (e : exn) : calls_only P (LThrow e)
| co_do (c : lcall) (k : lresp c -> lprog A) :
    P c = true -> (forall x, calls_only P (k x)) -> calls_only P (LDo c k)
| co_log (level : log_level) (label : string) (k : lprog A) :
    calls_only P k -> calls_only P (LLog level label k).

Lemma co_bind {A B : Type} (P : lcall -> bool) (p : lprog A) (f : A -> lprog B) :
  calls_only P p -> (forall a, calls_only P (f a)) -> calls_only P (lbind p f).
Proof.
  intros Hp Hf. induction Hp as [a|e|c k Hc _ IH|level label k _ IH]; simpl.
  - apply Hf.
  - constructor.
  - constructor; assumption.
  - constructor. exact IH.
Qed.

Lemma co_try_catch {A : Type} (P : lcall -> bool) (p : lprog A) (h : exn -> lprog A) :
  calls_only P p -> (forall e, calls_only P (h e)) -> calls_only P (ltry_catch p h).
Proof.
  intros Hp Hh. induction Hp as [a|e|c k Hc _ IH|level label k _ IH]; simpl.
  - constructor.
  - apply Hh.
  - constructor; assumption.
  - constructor. exact IH.
Qed.

Lemma co_llift {A : Type} (P : lcall -> bool) (x : exn + A) : calls_only P (llift x).
Proof. destruct x; constructor. Qed.

Lemma co_run {A : Type} (P : lcall -> bool) (w : lworld) (p : lprog A) (s : lw_state w) :
  calls_only P p -> forallb P (lexternal (ltrace (lrun w p s))) = true.
Proof.
  intros Hp. revert s. induction Hp as [a|e|c k Hc _ IH|level label k _ IH]; intros s; simpl.
  - reflexivity.
  - reflexivity.
  - destruct (lw_respond w c s) as [x s']. simpl. now rewrite Hc, IH.
  - apply IH.
Qed.

Variable env : Env.
Variable settings : Settings.
Variable db : bool.
Variable constructEvent : string -> option string -> option string -> exn + event.
Variable w : lworld.

Lemma co_setStripeStatus (customerId : option string) (doc : customer_doc) :
  calls_only is_store (setStripeStatus db customerId doc).
Proof.
  unfold setStripeStatus. destruct (_ || _); [constructor|].
  constructor; [reflexivity|]. intros x. apply co_llift.
Qed.

Lemma co_attachToUserIfExists (customerId : option string) (fields : subscription_fields) :
  calls_only is_store (attachToUserIfExists db customerId fields).
Proof.
  unfold attachToUserIfExists. destruct (_ || _); [constructor|].
  constructor; [reflexivity|]. intros found. simpl.
  destruct found as [e|[user|]]; simpl; try constructor; [reflexivity|].
  intros x. apply co_llift.
Qed.

(** [upsertGhlContactAndTrialOpp] never throws. *)
Lemma trialOpp_returns (name email phone : string) (_stageIdCache : gmap string jsval)
    (s : lw_state w) :
  exists cache,
    lresult (lrun w (upsertGhlContactAndTrialOpp env settings name email phone
                       _stageIdCache) s)
    = Returned cache.
Proof.
  destruct (JsString.isEmpty (or_empty (GHL_V1_API_KEY env))) eqn:Hk.
  { unfold upsertGhlContactAndTrialOpp. rewrite Hk. simpl. eauto. }
  destruct (JsString.isEmpty (or_empty (GHL_LOCATION_ID env))) eqn:Hl.
  { unfold upsertGhlContactAndTrialOpp. rewrite Hk, Hl. simpl. eauto. }
  apply JsStringFacts.isEmpty_false in Hk, Hl.
  pose proof (trialOpp_run env settings w name email phone _stageIdCache s Hk Hl) as Hrun.
  cbv zeta in Hrun.
  destruct (fst (lw_respond w (contactRequest env name email phone) s)) as [m|r1].
  { rewrite Hrun. simpl. eauto. }
  destruct (stageStep_run env settings w _stageIdCache
              (snd (lw_respond w (contactRequest env name email phone) s)))
    as ((v1StageId & cache & Hst & _) & _).
  destruct (Hrun v1StageId cache Hst) as (Hres & _). eauto.
Qed.

(** With the two settings the contact request is the first call. *)
Lemma trialOpp_first (name email phone : string) (_stageIdCache : gmap string jsval)
    (s : lw_state w) :
  or_empty (GHL_V1_API_KEY env) <> EmptyString ->
  or_empty (GHL_LOCATION_ID env) <> EmptyString ->
  exists rest,
    lexternal (ltrace (lrun w (upsertGhlContactAndTrialOpp env settings name email phone
                                 _stageIdCache) s))
    = contactRequest env name email phone :: rest.
Proof.
  intros Hk Hl.
  pose proof (trialOpp_run env settings w name email phone _stageIdCache s Hk Hl) as Hrun.
  cbv zeta in Hrun.
  destruct (fst (lw_respond w (contactRequest env name email phone) s)) as [m|r1].
  { rewrite Hrun. simpl. eauto. }
  destruct (stageStep_run env settings w _stageIdCache
              (snd (lw_respond w (contactRequest env name email phone) s)))
    as ((v1StageId & cache & Hst & _) & _).
  destruct (Hrun v1StageId cache Hst) as (_ & Htr & _). rewrite Htr. eauto.
Qed.

(** The mailing-list helper, called from here, never throws. *)
Lemma convertKit_embedded (email firstName : string) (s : lw_state w) :
  lresult (lrun w (embed (Webhooks.convertKitSubscribe env email firstName)) s)
  = Returned tt.
Proof.
  rewrite lrun_embed. cbn [lresult].
  apply (convertKitSubscribe_run env (base_world w) email firstName s).
Qed.

(** What the checkout case reads from the session. *)
Definition sessionEmail (o : object) : string :=
  or_empty (match customer_details o with Some d => Details.email d | None => None end).
Definition sessionName (o : object) : string :=
  or_empty (match customer_details o with Some d => Details.name d | None => None end).
Definition sessionPhone (o : object) : string :=
  or_empty (match customer_details o with Some d => Details.phone d | None => None end).

(** The checkout case with its steps named. *)
Lemma dispatch_checkout (ev : event) (_stageIdCache : gmap string jsval) :
  ev_type ev = "checkout.session.completed" ->
  dispatch env settings db ev _stageIdCache
  = lbind
      (upsertGhlContactAndTrialOpp env settings (sessionName (ev_object ev))
         (sessionEmail (ev_object ev)) (sessionPhone (ev_object ev)) _stageIdCache)
      (fun _ =>
         lbind
           (embed (Webhooks.convertKitSubscribe env (sessionEmail (ev_object ev))
                     (sessionName (ev_object ev))))
           (fun _ =>
              lbind
                (if JsString.truthy (or_empty (subscription_id (ev_object ev)))
                 then
                   lbind
                     (lawait (StripeSubscriptionsRetrieve
                                (or_empty (subscription_id (ev_object ev)))))
                     (fun retrieved =>
                        lbind (llift retrieved) (fun sub => LRet (fieldsOf sub)))
                 else LRet Trialing)
                (fun fields =>
                   lbind
                     (setStripeStatus db (customer (ev_object ev))
                        (CheckoutDoc (sessionEmail (ev_object ev)) (id (ev_object ev))
                           fields))
                     (fun _ => attachToUserIfExists db (customer (ev_object ev)) fields)))).
Proof. intros H. unfold dispatch. rewrite H. reflexivity. Qed.

(** The other cases call the document store only. *)
Lemma co_dispatch_other (ev : event) (_stageIdCache : gmap string jsval) :
  ev_type ev <> "checkout.session.completed" ->
  calls_only is_store (dispatch env settings db ev _stageIdCache).
Proof.
  intros H. unfold dispatch. apply String.eqb_neq in H. rewrite H.
  destruct (_ || _).
  - apply co_bind; [apply co_setStripeStatus|]. intros _.
    apply co_bind; [apply co_attachToUserIfExists|]. intros _. constructor.
  - repeat (match goal with
            | |- context [String.eqb ?a ?b] => destruct (String.eqb a b)
            end; try constructor).
Qed.

End LegacyHandler.

(** Only a checkout reaches the CRM.  For a verified event of any other
    type the handler calls the document store at most (no CRM, billing or
    mailing-list call), and for a type other than the three subscription
    types, the invoice events included, it does nothing but answer 200. *)
Theorem only_checkout_reaches_the_crm
    (env : Env) (settings : Legacy.Settings) (db : bool)
    (constructEvent : string -> option string -> option string -> exn + Legacy.event)
    (w : Legacy.lworld) (s : Legacy.lw_state w) (req : request)
    (_stageIdCache : gmap string jsval) (ev : Legacy.event) :
  constructEvent (req_body req) (req_signature req) (STRIPE_WEBHOOK_SECRET env) = inr ev ->
  Legacy.ev_type ev <> "checkout.session.completed" ->
  let r := Legacy.lrun w
             (Legacy.registerStripeWebhooks env settings db constructEvent req
                _stageIdCache) s in
  forallb is_store (Legacy.lexternal (Legacy.ltrace r)) = true
  /\ (Legacy.ev_type ev <> "customer.subscription.created" ->
      Legacy.ev_type ev <> "customer.subscription.updated" ->
      Legacy.ev_type ev <> "customer.subscription.deleted" ->
      r = {| Legacy.lresult := Returned ok200; Legacy.ltrace := []; Legacy.lfinal := s |}).
Proof.
  intros Hv Htype. cbv zeta. unfold Legacy.registerStripeWebhooks. rewrite Hv. split.
  - apply co_run. apply co_try_catch.
    + apply co_bind; [now apply co_dispatch_other|]. intros _. constructor.
    + intros e. repeat constructor.
  - intros H1 H2 H3. unfold Legacy.dispatch.
    apply String.eqb_neq in Htype, H1, H2, H3. rewrite Htype, H1, H2, H3. cbn [orb].
    repeat (match goal with
            | |- context [String.eqb ?a ?b] => destruct (String.eqb a b)
            end; try reflexivity).
Qed.

Lemma only_checkout_witness :
  let ev :=
    {| Legacy.ev_type := "invoice.payment_failed";
       Legacy.ev_object :=
         {| Legacy.customer_details := None;
            Legacy.customer := Some "cus_1";
            Legacy.subscription_id := None;
            Legacy.id := Some "in_1";
            Legacy.as_subscription :=
              {| Legacy.sub_status := None; Legacy.sub_trial_end := None;
                 Legacy.sub_current_period_end := None; Legacy.sub_priceId := None |} |} |} in
  let r := Legacy.lrun trialWorld
             (Legacy.registerStripeWebhooks Sample.env trialSettings true
                (fun _ _ _ => inr ev) Sample.signed ∅) tt in
  forallb is_store (Legacy.lexternal (Legacy.ltrace r)) = true
  /\ (Legacy.ev_type ev <> "customer.subscription.created" ->
      Legacy.ev_type ev <> "customer.subscription.updated" ->
      Legacy.ev_type ev <> "customer.subscription.deleted" ->
      r = {| Legacy.lresult := Returned ok200; Legacy.ltrace := []; Legacy.lfinal := tt |}).
Proof.
  intros ev.
  apply (only_checkout_reaches_the_crm Sample.env trialSettings true (fun _ _ _ => inr ev)
           trialWorld tt Sample.signed ∅ ev).
  - reflexivity.
  - discriminate.
Defined.

(** The checkout case does not look at the email: for a verified
    checkout event, with the key and the location id set, the first call
    is the contact request, carrying the email of the session or the
    empty string when the session has none. *)
Theorem legacy_checkout_posts_contact_first
    (env : Env) (settings : Legacy.Settings) (db : bool)
    (constructEvent : string -> option string -> option string -> exn + Legacy.event)
    (w : Legacy.lworld) (s : Legacy.lw_state w) (req : request)
    (_stageIdCache : gmap string jsval) (ev : Legacy.event) :
  constructEvent (req_body req) (req_signature req) (STRIPE_WEBHOOK_SECRET env) = inr ev ->
  Legacy.ev_type ev = "checkout.session.completed" ->
  or_empty (GHL_V1_API_KEY env) <> EmptyString ->
  or_empty (GHL_LOCATION_ID env) <> EmptyString ->
  exists rest,
    Legacy.lexternal
      (Legacy.ltrace
         (Legacy.lrun w
            (Legacy.registerStripeWebhooks env settings db constructEvent req
               _stageIdCache) s))
    = contactRequest env (sessionName (Legacy.ev_object ev))
        (sessionEmail (Legacy.ev_object ev)) (sessionPhone (Legacy.ev_object ev))
      :: rest.
Proof.
  intros Hv Htype Hk Hl. unfold Legacy.registerStripeWebhooks. rewrite Hv.
  rewrite (dispatch_checkout env settings db ev _stageIdCache Htype).
  destruct (trialOpp_first env settings w (sessionName (Legacy.ev_object ev))
              (sessionEmail (Legacy.ev_object ev)) (sessionPhone (Legacy.ev_object ev))
              _stageIdCache s Hk Hl) as [rest Hrest].
  rewrite lrun_try_catch, lrun_bind, lrun_bind.
  set (up := Legacy.lrun w (Legacy.upsertGhlContactAndTrialOpp _ _ _ _ _ _) s) in *.
  destruct (Legacy.lresult up) as [cache|e].
  - cbv zeta. cbn [Legacy.lresult Legacy.ltrace Legacy.lfinal].
    match goal with
    | |- context [Legacy.lresult ?x] => destruct (Legacy.lresult x)
    end; cbv zeta; cbn [Legacy.lresult Legacy.ltrace Legacy.lfinal];
      repeat match goal with
             | |- context [Legacy.lresult ?x] => destruct (Legacy.lresult x)
             end; cbv zeta; cbn [Legacy.lresult Legacy.ltrace Legacy.lfinal];
      rewrite !lexternal_app, Hrest; cbn [app]; eauto.
  - cbn [Legacy.lresult Legacy.ltrace Legacy.lfinal]. cbv zeta.
    cbn [Legacy.lresult Legacy.ltrace Legacy.lfinal].
    rewrite !lexternal_app, Hrest. cbn [app]. eauto.
Qed.

Lemma legacy_checkout_witness :
  let ev :=
    {| Legacy.ev_type := "checkout.session.completed";
       Legacy.ev_object :=
         {| Legacy.customer_details := None;
            Legacy.customer := Some "cus_1";
            Legacy.subscription_id := None;
            Legacy.id := Some "cs_1";
            Legacy.as_subscription :=
              {| Legacy.sub_status := None; Legacy.sub_trial_end := None;
                 Legacy.sub_current_period_end := None; Legacy.sub_priceId := None |} |} |} in
  exists rest,
    Legacy.lexternal
      (Legacy.ltrace
         (Legacy.lrun trialWorld
            (Legacy.registerStripeWebhooks Sample.env trialSettings true
               (fun _ _ _ => inr ev) Sample.signed ∅) tt))
    = contactRequest Sample.env EmptyString EmptyString EmptyString :: rest.
Proof.
  intros ev.
  apply (legacy_checkout_posts_contact_first Sample.env trialSettings true
           (fun _ _ _ => inr ev) trialWorld tt Sample.signed ∅ ev).
  - reflexivity.
  - reflexivity.
  - discriminate.
  - discriminate.
Defined.

(** The checkout case is not atomic: when the subscription cannot be
    retrieved from the billing provider, the handler answers 500 although
    the CRM and mailing-list calls have been made already; nothing is
    written to the document store.  A redelivery of the event makes
    those calls again. *)
Theorem legacy_checkout_fails_after_crm_calls
    (env : Env) (settings : Legacy.Settings) (db : bool)
    (constructEvent : string -> option string -> option string -> exn + Legacy.event)
    (w : Legacy.lworld) (s : Legacy.lw_state w) (req : request)
    (_stageIdCache : gmap string jsval) (ev : Legacy.event)
    (subscriptionId : string) (err : exn) :
  constructEvent (req_body req) (req_signature req) (STRIPE_WEBHOOK_SECRET env) = inr ev ->
  Legacy.ev_type ev = "checkout.session.completed" ->
  Legacy.subscription_id (Legacy.ev_object ev) = Some subscriptionId ->
  subscriptionId <> EmptyString ->
  let o := Legacy.ev_object ev in
  let up := Legacy.lrun w
              (Legacy.upsertGhlContactAndTrialOpp env settings (sessionName o)
                 (sessionEmail o) (sessionPhone o) _stageIdCache) s in
  let ck := Legacy.lrun w
              (Legacy.embed (Webhooks.convertKitSubscribe env (sessionEmail o)
                               (sessionName o))) (Legacy.lfinal up) in
  fst (Legacy.lw_respond w (Legacy.StripeSubscriptionsRetrieve subscriptionId)
         (Legacy.lfinal ck)) = inl err ->
  let r := Legacy.lrun w
             (Legacy.registerStripeWebhooks env settings db constructEvent req
                _stageIdCache) s in
  Legacy.lresult r
  = Returned {| http_status := 500; http_body_of := BodyText "Internal Server Error" |}
  /\ Legacy.lexternal (Legacy.ltrace r)
     = Legacy.lexternal (Legacy.ltrace up) ++ Legacy.lexternal (Legacy.ltrace ck)
       ++ [Legacy.StripeSubscriptionsRetrieve subscriptionId].
Proof.
  intros Hv Htype Hsub Hne o up ck Herr r. subst r.
  unfold Legacy.registerStripeWebhooks. rewrite Hv.
  rewrite (dispatch_checkout env settings db ev _stageIdCache Htype).
  rewrite Hsub. cbn [or_empty].
  apply JsStringFacts.truthy_nonempty in Hne. rewrite Hne.
  fold o. rewrite lrun_try_catch, lrun_bind, lrun_bind. fold up.
  destruct (trialOpp_returns env settings w (sessionName o) (sessionEmail o)
              (sessionPhone o) _stageIdCache s) as [cache Hup].
  fold up in Hup. rewrite Hup. cbv zeta. cbn [Legacy.lresult Legacy.ltrace Legacy.lfinal].
  rewrite lrun_bind. fold ck.
  pose proof (convertKit_embedded env w (sessionEmail o) (sessionName o) (Legacy.lfinal up))
    as Hck.
  fold ck in Hck. rewrite Hck. cbv zeta. cbn [Legacy.lresult Legacy.ltrace Legacy.lfinal].
  rewrite lrun_bind, lrun_bind. cbn [Legacy.lawait Legacy.lrun].
  destruct (Legacy.lw_respond w (Legacy.StripeSubscriptionsRetrieve subscriptionId)
              (Legacy.lfinal ck)) as [x s'].
  cbn [fst] in Herr. subst x.
  cbn [Legacy.llift Legacy.lbind Legacy.lrun Legacy.lresult Legacy.ltrace Legacy.lfinal
       Legacy.lconsole app].
  split; [reflexivity|].
  rewrite !lexternal_app. cbn [Legacy.lexternal]. now rewrite !app_nil_r.
Qed.

Lemma legacy_checkout_failure_witness :
  let ev :=
    {| Legacy.ev_type := "checkout.session.completed";
       Legacy.ev_object :=
         {| Legacy.customer_details :=
              Some (Details.make (Some "a@x.com") (Some "Jane Doe") None);
            Legacy.customer := Some "cus_1";
            Legacy.subscription_id := Some "sub_1";
            Legacy.id := Some "cs_1";
            Legacy.as_subscription :=
              {| Legacy.sub_status := None; Legacy.sub_trial_end := None;
                 Legacy.sub_current_period_end := None; Legacy.sub_priceId := None |} |} |} in
  let o := Legacy.ev_object ev in
  let up := Legacy.lrun trialWorld
              (Legacy.upsertGhlContactAndTrialOpp Sample.env trialSettings (sessionName o)
                 (sessionEmail o) (sessionPhone o) ∅) tt in
  let ck := Legacy.lrun trialWorld
              (Legacy.embed (Webhooks.convertKitSubscribe Sample.env (sessionEmail o)
                               (sessionName o))) (Legacy.lfinal up) in
  let r := Legacy.lrun trialWorld
             (Legacy.registerStripeWebhooks Sample.env trialSettings true
                (fun _ _ _ => inr ev) Sample.signed ∅) tt in
  Legacy.lresult r
  = Returned {| http_status := 500; http_body_of := BodyText "Internal Server Error" |}
  /\ Legacy.lexternal (Legacy.ltrace r)
     = Legacy.lexternal (Legacy.ltrace up) ++ Legacy.lexternal (Legacy.ltrace ck)
       ++ [Legacy.StripeSubscriptionsRetrieve "sub_1"].
Proof.
  intros ev.
  apply (legacy_checkout_fails_after_crm_calls Sample.env trialSettings true
           (fun _ _ _ => inr ev) trialWorld tt Sample.signed ∅ ev "sub_1"
           (StripeError "No such subscription")).
  - reflexivity.
  - reflexivity.
  - reflexivity.
  - discriminate.
  - reflexivity.
Defined.

(** ** The event time *)

Section EventTime.

Lemma length_append (a b : string) :
  String.length (a +:+ b) = (String.length a + String.length b)%nat.
Proof.
  induction a as [|c r IH]; [reflexivity|].
  rewrite append_cons. simpl. now rewrite IH.
Qed.

Lemma length_digits (width : nat) (n : Z) : String.length (JsDate.digits width n) = width.
Proof.
  revert n. induction width as [|w IH]; intros n; [reflexivity|].
  cbn [JsDate.digits]. rewrite length_append, IH. simpl. lia.
Qed.

End EventTime.

(** The audit time of an event.  [event.created] counts seconds, so the
    time is representable exactly when it lies within 8 640 000 000 000
    seconds of the epoch; the text written to [Last Stripe Event Time]
    then always ends in [.000Z], after a date and time of 19 characters
    (years 0000 to 9999) or 22 characters (years with a sign and six
    digits). *)
Theorem event_time_format (event : stripe_event) :
  (- 8640000000000 <= ev_created event <= 8640000000000
   <-> exists time, Webhooks.eventTime event = inr time)
  /\ forall time,
       Webhooks.eventTime event = inr time ->
       exists date,
         time = date +:+ ".000Z"
         /\ (String.length date = 19%nat \/ String.length date = 22%nat).
Proof.
  unfold Webhooks.eventTime, JsDate.toISOString, JsDate.maxTime.
  set (t := ev_created event * 1000).
  assert (Hms : t mod 86400000 mod 1000 = 0).
  { subst t. rewrite Z.mod_mod_divide by (exists 86400; lia).
    apply Z.mod_mul. lia. }
  match goal with
  | |- context [if ?b then _ else _] => destruct b eqn:Hrange
  end.
  - split.
    + split; [intros H; exfalso|intros [time H]; discriminate H].
      apply orb_true_iff in Hrange as [Hr|Hr]; apply Z.ltb_lt in Hr; subst t; lia.
    + intros time H. discriminate H.
  - apply orb_false_iff in Hrange as [H1 H2]. apply Z.ltb_ge in H1, H2.
    destruct (JsDate.civil (t / 86400000)) as [[y m] d].
    split.
    + split; [eauto|]. intros _. subst t. lia.
    + intros time [= <-]. rewrite Hms.
      set (year := if (0 <=? y) && (y <=? 9999) then JsDate.digits 4 y
                   else (if y <? 0 then "-" else "+") +:+ JsDate.digits 6 (Z.abs y)).
      exists (year +:+ "-" +:+ JsDate.digits 2 m +:+ "-" +:+ JsDate.digits 2 d +:+ "T"
              +:+ JsDate.digits 2 (t mod 86400000 / 3600000) +:+ ":"
              +:+ JsDate.digits 2 (t mod 86400000 / 60000 mod 60) +:+ ":"
              +:+ JsDate.digits 2 (t mod 86400000 / 1000 mod 60)).
      split.
      * rewrite !append_assoc3. reflexivity.
      * rewrite !length_append, !length_digits.
        assert (Hyear : String.length year = 4%nat \/ String.length year = 7%nat).
        { subst year. destruct ((0 <=? y) && (y <=? 9999)).
          - left. apply length_digits.
          - right. rewrite length_append, length_digits. now destruct (y <? 0). }
        simpl. lia.
Qed.

(** An event whose time cannot be represented is answered 500 before
    anything is sent to the CRM: for a verified event the handler acts
    on, with an email, whose [created] lies beyond 8 640 000 000 000
    seconds from the epoch, the handler logs the error, makes no CRM
    call and answers 500. *)
Theorem unrepresentable_event_time_answers_500
    (env : Env)
    (constructEvent : string -> option string -> option string -> exn + stripe_event)
    (w : world) (s : w_state w) (req : request) (event : stripe_event)
    (k : Dispatch.kind) (email : string) :
  verifies env constructEvent req event ->
  Dispatch.acted_on event = Some k ->
  let look := run w (Dispatch.identity k event) s in
  result look = Returned email -> email <> EmptyString ->
  ev_created event < - 8640000000000 \/ 8640000000000 < ev_created event ->
  let r := run w (Webhooks.registerStripeWebhooks env constructEvent req) s in
  result r = Returned error500
  /\ trace r = trace look ++ [Logged LogError "[Webhook handler] Error:"]
  /\ List.filter is_ghl (external (trace r)) = []
  /\ final r = final look.
Proof.
  intros Hv Hact look Hlook Hne Hcreated r. subst r.
  rewrite (route_verified _ _ _ _ Hv).
  assert (Htime : Webhooks.eventTime event = inl (RangeError "Invalid time value")).
  { unfold Webhooks.eventTime, JsDate.toISOString, JsDate.maxTime.
    match goal with
    | |- context [if ?b then _ else _] => assert (H : b = true)
    end.
    { apply orb_true_iff. destruct Hcreated; [left|right]; apply Z.ltb_lt; lia. }
    now rewrite H. }
  rewrite (processEvent_bad_time env w event k s email _ Hact Hlook Hne Htime).
  cbn [result trace final]. fold look.
  destruct (identity_run w k event s) as [_ Hcalls]. cbv zeta in Hcalls. fold look in Hcalls.
  apply stripe_only_no_ghl in Hcalls as [Hg _].
  rewrite external_app, List.filter_app, Hg. auto.
Qed.

Lemma unrepresentable_event_time_witness :
  let event :=
    {| ev_type := "invoice.payment_failed";
       ev_created := 8640000000001;
       ev_object := Obj.make None (Some "a@x.com") None (Some "in_1") None None |} in
  let w := Crm.world Sample.customers Crm.healthy in
  let look := run w (Dispatch.identity Dispatch.InvoiceFailed event) Sample.store in
  let r := run w (Webhooks.registerStripeWebhooks Sample.env (Sample.constructEvent event)
                    Sample.signed) Sample.store in
  result r = Returned error500
  /\ trace r = trace look ++ [Logged LogError "[Webhook handler] Error:"]
  /\ List.filter is_ghl (external (trace r)) = []
  /\ final r = final look.
Proof.
  intros event.
  apply (unrepresentable_event_time_answers_500 Sample.env (Sample.constructEvent event)
           (Crm.world Sample.customers Crm.healthy) Sample.store Sample.signed event
           Dispatch.InvoiceFailed "a@x.com").
  - reflexivity.
  - reflexivity.
  - reflexivity.
  - discriminate.
  - right. reflexivity.
Defined.

(** ** The mailing list *)

(** A call to the mailing list. *)
Definition is_mailing (c : call) : bool :=
  match c with
  | ConvertKitFormSubscribe _ _ _ _ | ConvertKitTagSubscribe _ _ _ => true
  | _ => false
  end.

(** Only a checkout that is not answered with status 500 subscribes to
    the mailing list: a verified event of any other type makes no
    mailing-list call, and neither does a verified event of any type that
    is answered with status 500, as a checkout is whose contact write is
    rejected by the network. *)
Theorem mailing_list_only_on_answered_checkout
    (env : Env)
    (constructEvent : string -> option string -> option string -> exn + stripe_event)
    (w : world) (s : w_state w) (req : request) (event : stripe_event) :
  verifies env constructEvent req event ->
  ev_type event <> "checkout.session.completed"
  \/ result (run w (Webhooks.registerStripeWebhooks env constructEvent req) s)
     = Returned error500 ->
  List.filter is_mailing
    (external (trace (run w (Webhooks.registerStripeWebhooks env constructEvent req) s)))
  = [].
Proof.
  intros Hv Hcase. rewrite (route_verified _ _ _ _ Hv) in *.
  destruct (Dispatch.acted_on event) as [k|] eqn:Hact;
    [|now rewrite (processEvent_ignored env w event s Hact)].
  destruct (identity_run w k event s) as [[email Hlook] Hcalls].
  cbv zeta in Hlook, Hcalls.
  assert (Hm0 : List.filter is_mailing
                  (external (trace (run w (Dispatch.identity k event) s))) = [])
    by (destruct Hcalls as [-> | ->]; reflexivity).
  destruct (decide (email = EmptyString)) as [->|Hne].
  { rewrite (processEvent_no_email env w event k s Hact Hlook). cbn [trace].
    now rewrite external_app, List.filter_app, Hm0. }
  destruct (Webhooks.eventTime event) as [e|time] eqn:Htime.
  { rewrite (processEvent_bad_time env w event k s email e Hact Hlook Hne Htime).
    cbn [trace]. now rewrite external_app, List.filter_app, Hm0. }
  assert (Hafter : k <> Dispatch.CheckoutCompleted ->
                   forall s', run w (Dispatch.afterUpsert env k event email) s'
                              = {| result := Returned tt; trace := []; final := s' |})
    by (intros Hk s'; destruct k; [contradiction| | | |]; reflexivity).
  assert (Hkind : ev_type event <> "checkout.session.completed" ->
                  k <> Dispatch.CheckoutCompleted).
  { intros Htype ->. apply acted_on_recognized in Hact.
    unfold Dispatch.recognized in Hact.
    destruct (String.eqb (ev_type event) "checkout.session.completed") eqn:E;
      [apply String.eqb_eq in E; contradiction|].
    repeat (match type of Hact with
            | context [String.eqb ?a ?b] => destruct (String.eqb a b)
            end; try discriminate Hact). }
  destruct (configured_dec env) as [Hc|Hc].
  - pose proof (processEvent_upsert env w event k s email time Hact Hlook Hne Htime Hc)
      as Hrun.
    cbv zeta in Hrun.
    destruct (fst (w_respond w (GhlPostContacts _ _ _) _)) as [m|r0].
    + destruct Hrun as (_ & Htr & _). rewrite Htr, List.filter_app, Hm0. reflexivity.
    + destruct Hrun as (Hres & Htr & _).
      destruct Hcase as [Htype|H500]; [|rewrite Hres in H500; discriminate H500].
      rewrite Htr, (Hafter (Hkind Htype)), !List.filter_app, Hm0. reflexivity.
  - revert Hcase.
    rewrite (processEvent_unconfigured env w event k s email time Hact Hlook Hne Htime Hc).
    cbn [trace result]. intros [Htype|H500]; [|discriminate H500].
    rewrite (Hafter (Hkind Htype)), !external_app, !List.filter_app, Hm0. reflexivity.
Qed.

Lemma mailing_list_witness :
  List.filter is_mailing
    (external (trace (run (Crm.world Sample.customers Crm.healthy)
       (Webhooks.registerStripeWebhooks Sample.env
          (Sample.constructEvent (Sample.subscriptionUpdated "active")) Sample.signed)
       Sample.store)))
  = [].
Proof.
  apply (mailing_list_only_on_answered_checkout Sample.env
           (Sample.constructEvent (Sample.subscriptionUpdated "active"))
           (Crm.world Sample.customers Crm.healthy) Sample.store Sample.signed
           (Sample.subscriptionUpdated "active")).
  - reflexivity.
  - left. discriminate.
Defined.
